(** * OpenGreek: a shallow embedding of the TLG scraping pipeline

    The Python sources under [OpenGreek/] are embedded as Rocq functions:

    - Python [str] values are lists of Unicode code points ([list N]);
    - the parts of the Unicode database that the code reaches through
      [re.IGNORECASE], [\d], [str.isalpha], [str.lower] and [str.title]
      are fields of the class [UnicodeData]; their ASCII rows, and the
      lower-case mapping of the two Greek blocks, are fixed;
    - [CONFIG] (read from [config.yaml] at import time) is the class [Config];
    - the network is a deterministic [Server] answering each GET from the
      history of events so far; the functions that talk to it run in a small
      state monad over the event log;
    - Python dictionaries are [gmap]s, sets are [gset]s;
    - a Python [float] ratio [a / b] of two integers is the rational
      [a / b] (the double nearest to it compares with the thresholds
      0.1, 0.2, 0.5 exactly as the rational does for texts of fewer than
      2^49 characters). *)

From Stdlib Require Import ZArith NArith QArith List String Ascii Lia.
From Stdlib Require Import DecimalString.
From stdpp Require Import base option list gmap sorting.

Local Open Scope Z_scope.

(** ** Python strings *)

Abbreviation pystr := (list N).

(** A string literal of the source, as code points (ASCII only). *)
Definition py (s : string) : pystr :=
  List.map N_of_ascii (list_ascii_of_string s).

(** [len(s)] *)
Definition len {A} (s : list A) : Z := Z.of_nat (length s).

(** Truth value of a string: [if s:] / [not s]. *)
Definition truthy (s : pystr) : bool :=
  match s with [] => false | _ :: _ => true end.

(** ['\u0370' <= c <= '\u03FF' or '\u1F00' <= c <= '\u1FFF'] *)
Definition in_greek_ranges (c : N) : bool :=
  ((0x370 <=? c) && (c <=? 0x3FF) || (0x1F00 <=? c) && (c <=? 0x1FFF))%N.

(** [Py_UNICODE_ISSPACE]: the characters removed by [str.strip()] and
    separating the words of [str.split()]. *)
Definition isspace (c : N) : bool :=
  ((0x9 <=? c) && (c <=? 0xD) || (0x1C <=? c) && (c <=? 0x20)
   || (c =? 0x85) || (c =? 0xA0) || (c =? 0x1680)
   || (0x2000 <=? c) && (c <=? 0x200A)
   || (c =? 0x2028) || (c =? 0x2029) || (c =? 0x202F) || (c =? 0x205F)
   || (c =? 0x3000))%N.

Fixpoint lstrip (s : pystr) : pystr :=
  match s with
  | c :: s' => if isspace c then lstrip s' else s
  | [] => []
  end.

Definition rstrip (s : pystr) : pystr := rev (lstrip (rev s)).

(** [s.strip()] *)
Definition strip (s : pystr) : pystr := rstrip (lstrip s).

(** [s.split(sep)] for a one-character separator. *)
Fixpoint split_on (sep : N) (s : pystr) : list pystr :=
  match s with
  | [] => [[]]
  | c :: s' =>
      if (c =? sep)%N then [] :: split_on sep s'
      else match split_on sep s' with
           | l :: ls => (c :: l) :: ls
           | [] => [[c]]
           end
  end.

(** [sep.join(parts)] *)
Fixpoint join (sep : pystr) (parts : list pystr) : pystr :=
  match parts with
  | [] => []
  | [p] => p
  | p :: ps => p ++ sep ++ join sep ps
  end.

(** [len(s.split())]: the number of maximal runs of non-space characters. *)
Fixpoint count_words (in_word : bool) (s : pystr) : Z :=
  match s with
  | [] => 0
  | c :: s' =>
      if isspace c then count_words false s'
      else (if in_word then 0 else 1) + count_words true s'
  end.

(** [sum(1 for c in s if p c)] *)
Definition count (p : N -> bool) (s : pystr) : Z := len (List.filter p s).

Definition newline : N := 10%N.

(** [f"{n:03d}"] for a non-negative integer. *)
Definition decimal (n : Z) : pystr :=
  py (NilZero.string_of_uint (N.to_uint (Z.to_N n))).

Definition format_03d (n : Z) : pystr :=
  let d := decimal n in
  repeat 48%N (3 - length d)%nat ++ d.

(** Rational comparisons, as booleans. *)
Definition Qltb (x y : Q) : bool := negb (Qle_bool y x).
Definition Qleb (x y : Q) : bool := Qle_bool x y.

(** [a / b] on integers, [b] positive. *)
Definition ratio (a b : Z) : Q := (inject_Z a / inject_Z b)%Q.

(** ** The Unicode database *)

Definition ascii_isupper (c : N) : bool := ((65 <=? c) && (c <=? 90))%N.
Definition ascii_islower (c : N) : bool := ((97 <=? c) && (c <=? 122))%N.
Definition ascii_isdigit (c : N) : bool := ((48 <=? c) && (c <=? 57))%N.
Definition ascii_tolower (c : N) : N := if ascii_isupper c then (c + 32)%N else c.
Definition ascii_toupper (c : N) : N := if ascii_islower c then (c - 32)%N else c.

(** The simple lower-case mappings of the blocks Greek and Coptic
    (U+0370–03FF) and Greek Extended (U+1F00–1FFF), as
    [(first, last, image of first)]: the code points [first..last] are
    mapped to consecutive code points; every other code point of the two
    blocks is its own lower case. *)
Definition greek_lowercase : list (N * N * N) :=
  [ (0x0370, 0x0370, 0x0371); (0x0372, 0x0372, 0x0373); (0x0376, 0x0376, 0x0377); (0x037F, 0x037F, 0x03F3);
    (0x0386, 0x0386, 0x03AC); (0x0388, 0x038A, 0x03AD); (0x038C, 0x038C, 0x03CC); (0x038E, 0x038F, 0x03CD);
    (0x0391, 0x03A1, 0x03B1); (0x03A3, 0x03AB, 0x03C3); (0x03CF, 0x03CF, 0x03D7); (0x03D8, 0x03D8, 0x03D9);
    (0x03DA, 0x03DA, 0x03DB); (0x03DC, 0x03DC, 0x03DD); (0x03DE, 0x03DE, 0x03DF); (0x03E0, 0x03E0, 0x03E1);
    (0x03E2, 0x03E2, 0x03E3); (0x03E4, 0x03E4, 0x03E5); (0x03E6, 0x03E6, 0x03E7); (0x03E8, 0x03E8, 0x03E9);
    (0x03EA, 0x03EA, 0x03EB); (0x03EC, 0x03EC, 0x03ED); (0x03EE, 0x03EE, 0x03EF); (0x03F4, 0x03F4, 0x03B8);
    (0x03F7, 0x03F7, 0x03F8); (0x03F9, 0x03F9, 0x03F2); (0x03FA, 0x03FA, 0x03FB); (0x03FD, 0x03FF, 0x037B);
    (0x1F08, 0x1F0F, 0x1F00); (0x1F18, 0x1F1D, 0x1F10); (0x1F28, 0x1F2F, 0x1F20); (0x1F38, 0x1F3F, 0x1F30);
    (0x1F48, 0x1F4D, 0x1F40); (0x1F59, 0x1F59, 0x1F51); (0x1F5B, 0x1F5B, 0x1F53); (0x1F5D, 0x1F5D, 0x1F55);
    (0x1F5F, 0x1F5F, 0x1F57); (0x1F68, 0x1F6F, 0x1F60); (0x1F88, 0x1F8F, 0x1F80); (0x1F98, 0x1F9F, 0x1F90);
    (0x1FA8, 0x1FAF, 0x1FA0); (0x1FB8, 0x1FB9, 0x1FB0); (0x1FBA, 0x1FBB, 0x1F70); (0x1FBC, 0x1FBC, 0x1FB3);
    (0x1FC8, 0x1FCB, 0x1F72); (0x1FCC, 0x1FCC, 0x1FC3); (0x1FD8, 0x1FD9, 0x1FD0); (0x1FDA, 0x1FDB, 0x1F76);
    (0x1FE8, 0x1FE9, 0x1FE0); (0x1FEA, 0x1FEB, 0x1F7A); (0x1FEC, 0x1FEC, 0x1FE5); (0x1FF8, 0x1FF9, 0x1F78);
    (0x1FFA, 0x1FFB, 0x1F7C); (0x1FFC, 0x1FFC, 0x1FF3) ]%N.

Definition greek_tolower (c : N) : N :=
  match List.find (fun r => (fst (fst r) <=? c) && (c <=? snd (fst r)))%N greek_lowercase with
  | Some r => (snd r + (c - fst (fst r)))%N
  | None => c
  end.

(** The rows of the database above U+007F (for the simple lower-case
    mapping: outside the two Greek blocks).  [lower_in_context before c after]
    is the lower-casing of [c] inside a string ([lower_ucs4], which looks at
    the neighbours of a capital sigma). *)
Class UnicodeData := {
  tolower_high : N -> N;            (* simple lower-case mapping *)
  iscased_high : N -> bool;
  isalpha_high : N -> bool;
  isdecimal_high : N -> bool;
  totitle_full_high : N -> pystr;   (* full title-case mapping *)
  lower_in_context_high : pystr -> N -> pystr -> pystr;
  str_lower_high : pystr -> pystr   (* [str.lower] on a string with a non-ASCII character *)
}.

Section Unicode.
Context `{UnicodeData}.

Definition is_ascii (c : N) : bool := (c <? 128)%N.

(** [Py_UNICODE_TOLOWER] *)
Definition unicode_tolower (c : N) : N :=
  if is_ascii c then ascii_tolower c
  else if in_greek_ranges c then greek_tolower c
  else tolower_high c.

Definition unicode_iscased (c : N) : bool :=
  if is_ascii c then ascii_isupper c || ascii_islower c else iscased_high c.

(** [c.isalpha()] *)
Definition isalpha (c : N) : bool :=
  if is_ascii c then ascii_isupper c || ascii_islower c else isalpha_high c.

(** [Py_UNICODE_ISDECIMAL], the class [\d] of a [str] pattern. *)
Definition isdecimal (c : N) : bool :=
  if is_ascii c then ascii_isdigit c else isdecimal_high c.

Definition totitle_full (c : N) : pystr :=
  if is_ascii c then [ascii_toupper c] else totitle_full_high c.

Definition lower_in_context (before : pystr) (c : N) (after : pystr) : pystr :=
  if is_ascii c then [ascii_tolower c] else lower_in_context_high before c after.

(** [s.lower()] *)
Definition str_lower (s : pystr) : pystr :=
  if forallb is_ascii s then List.map ascii_tolower s else str_lower_high s.

(** [str.title()] ([do_title] of CPython): a character that follows a
    cased character is lower-cased, any other is title-cased. *)
Fixpoint do_title (before : pystr) (previous_is_cased : bool) (s : pystr) : pystr :=
  match s with
  | [] => []
  | c :: after =>
      (if previous_is_cased then lower_in_context before c after
       else totitle_full c)
      ++ do_title (before ++ [c]) (unicode_iscased c) after
  end.

Definition str_title (s : pystr) : pystr := do_title [] false s.
End Unicode.

(** The database restricted to ASCII (every other character is caseless,
    not a letter and not a digit). *)
Definition ascii_only : UnicodeData := {|
  tolower_high := fun c => c;
  iscased_high := fun _ => false;
  isalpha_high := fun _ => false;
  isdecimal_high := fun _ => false;
  totitle_full_high := fun c => [c];
  lower_in_context_high := fun _ c _ => [c];
  str_lower_high := List.map ascii_tolower
|}.

(** ** Regular expressions ([re]) *)

Inductive regex :=
| Lit (c : N)            (* a literal character *)
| Digit                  (* \d *)
| NotLit (c : N)         (* [^c] *)
| Cat (r1 r2 : regex)
| Star (r : regex)       (* greedy r* *)
| Group (r : regex)      (* a capturing group *)
| Empty.

(** The literal string [s] as a pattern. *)
Fixpoint lits (s : pystr) (rest : regex) : regex :=
  match s with
  | [] => rest
  | c :: s' => Cat (Lit c) (lits s' rest)
  end.

(** [r{n}] followed by [rest]. *)
Fixpoint times (n : nat) (r rest : regex) : regex :=
  match n with
  | O => rest
  | S n' => Cat r (times n' r rest)
  end.

(** [r+] *)
Definition Plus (r : regex) : regex := Cat r (Star r).

(** [_EXTRA_CASES] of [re._casefix], at the lower-case letters that have
    further case-insensitive equivalents. *)
Definition extra_cases (lo : N) : list N :=
  (if lo =? 0x69 then [0x131]
   else if lo =? 0x73 then [0x17F]
   else if lo =? 0xB5 then [0x3BC]
   else if lo =? 0x131 then [0x69]
   else if lo =? 0x17F then [0x73]
   else if lo =? 0x345 then [0x3B9; 0x1FBE]
   else if lo =? 0x390 then [0x1FD3]
   else if lo =? 0x3B0 then [0x1FE3]
   else if lo =? 0x3B2 then [0x3D0]
   else if lo =? 0x3B5 then [0x3F5]
   else if lo =? 0x3B8 then [0x3D1]
   else if lo =? 0x3B9 then [0x345; 0x1FBE]
   else if lo =? 0x3BA then [0x3F0]
   else if lo =? 0x3BC then [0xB5]
   else if lo =? 0x3C0 then [0x3D6]
   else if lo =? 0x3C1 then [0x3F1]
   else if lo =? 0x3C2 then [0x3C3]
   else if lo =? 0x3C3 then [0x3C2]
   else if lo =? 0x3C6 then [0x3D5]
   else if lo =? 0x3D0 then [0x3B2]
   else if lo =? 0x3D1 then [0x3B8]
   else if lo =? 0x3D5 then [0x3C6]
   else if lo =? 0x3D6 then [0x3C0]
   else if lo =? 0x3F0 then [0x3BA]
   else if lo =? 0x3F1 then [0x3C1]
   else if lo =? 0x3F5 then [0x3B5]
   else if lo =? 0x432 then [0x1C80]
   else if lo =? 0x434 then [0x1C81]
   else if lo =? 0x43E then [0x1C82]
   else if lo =? 0x441 then [0x1C83]
   else if lo =? 0x442 then [0x1C84; 0x1C85]
   else if lo =? 0x44A then [0x1C86]
   else if lo =? 0x463 then [0x1C87]
   else if lo =? 0x1C80 then [0x432]
   else if lo =? 0x1C81 then [0x434]
   else if lo =? 0x1C82 then [0x43E]
   else if lo =? 0x1C83 then [0x441]
   else if lo =? 0x1C84 then [0x442; 0x1C85]
   else if lo =? 0x1C85 then [0x442; 0x1C84]
   else if lo =? 0x1C86 then [0x44A]
   else if lo =? 0x1C87 then [0x463]
   else if lo =? 0x1C88 then [0xA64B]
   else if lo =? 0x1E61 then [0x1E9B]
   else if lo =? 0x1E9B then [0x1E61]
   else if lo =? 0x1FBE then [0x345; 0x3B9]
   else if lo =? 0x1FD3 then [0x390]
   else if lo =? 0x1FE3 then [0x3B0]
   else if lo =? 0xA64B then [0x1C88]
   else if lo =? 0xFB05 then [0xFB06]
   else if lo =? 0xFB06 then [0xFB05]
   else [])%N.

Section Regex.
Context `{UnicodeData}.

(** Does the subject character [ch] match the pattern literal [c]?  With
    [re.IGNORECASE] a cased literal is compiled to its lower-case form and
    compared with the lower-cased subject character. *)
Definition lit_matches (ignorecase : bool) (c ch : N) : bool :=
  if ignorecase && unicode_iscased c then
    let lo := unicode_tolower c in
    existsb (N.eqb (unicode_tolower ch)) (lo :: extra_cases lo)
  else (ch =? c)%N.

(** The text consumed between the subject [s] and its suffix [rest]. *)
Definition consumed (s rest : pystr) : pystr :=
  take (length s - length rest)%nat s.

(** [match_here ic r s groups]: every way of matching [r] at the start of
    [s], as the remaining subject and the groups captured so far, in the
    order in which the backtracking matcher tries them (greedy). *)
Fixpoint match_here (ic : bool) (r : regex) (s : pystr) (groups : list pystr)
  : list (pystr * list pystr) :=
  match r with
  | Empty => [(s, groups)]
  | Lit c =>
      match s with
      | ch :: s' => if lit_matches ic c ch then [(s', groups)] else []
      | [] => []
      end
  | Digit =>
      match s with
      | ch :: s' => if isdecimal ch then [(s', groups)] else []
      | [] => []
      end
  | NotLit c =>
      match s with
      | ch :: s' => if lit_matches ic c ch then [] else [(s', groups)]
      | [] => []
      end
  | Cat r1 r2 =>
      flat_map (fun m => match_here ic r2 (fst m) (snd m)) (match_here ic r1 s groups)
  | Group r1 =>
      List.map (fun m => (fst m, snd m ++ [consumed s (fst m)])) (match_here ic r1 s groups)
  | Star r1 =>
      (fix star (fuel : nat) (s : pystr) (groups : list pystr) :=
         match fuel with
         | O => [(s, groups)]
         | S fuel' =>
             flat_map (fun m =>
                         if (length (fst m) <? length s)%nat
                         then star fuel' (fst m) (snd m) else [])
                      (match_here ic r1 s groups)
             ++ [(s, groups)]
         end) (length s) s groups
  end.

(** [re.search(r, s)]: the first match at the leftmost position where
    there is one; the result is the list of groups. *)
Fixpoint re_search (ic : bool) (r : regex) (s : pystr) : option (list pystr) :=
  match match_here ic r s [] with
  | m :: _ => Some (snd m)
  | [] => match s with
          | [] => None
          | _ :: s' => re_search ic r s'
          end
  end.
End Regex.

(** ** [tlg_corrected_extractor.py]: [GreekTextFilter] *)

Definition metadata_patterns : list regex :=
  [ lits (py "TLG ") (Cat (Plus Digit) (Cat (Lit 32) (Cat (Plus Digit) (lits (py " ::") Empty))));
    lits (py "Source:") Empty;
    lits (py "Citation:") Empty;
    lits (py "Cf. et") Empty;
    lits (py "Scholia:") Empty;
    lits (py "Vitae:") Empty;
    Cat (Lit 40) (Cat (Star (NotLit 41)) (lits (py "B.C.)") Empty));
    Cat (Lit 40) (Cat (Star (NotLit 41)) (lits (py "A.D.)") Empty));
    lits (py "Oxford:") Empty;
    lits (py "Leipzig:") Empty;
    lits (py "Teubner") Empty;
    lits (py "Clarendon Press") Empty ].

Record separated := {
  greek_text : pystr;
  metadata : pystr;
  mixed_content : pystr
}.

Section GreekTextFilter.
Context `{UnicodeData}.

(** One iteration of [for line in lines:] on the two accumulators
    [(greek_lines, metadata_lines)]. *)
Definition separate_line (acc : list pystr * list pystr) (raw : pystr)
  : list pystr * list pystr :=
  let '(greek_lines, metadata_lines) := acc in
  let line := strip raw in
  if negb (truthy line) then acc
  else
    let is_metadata :=
      existsb (fun pattern => bool_decide (is_Some (re_search true pattern line)))
              metadata_patterns in
    let greek_chars := count in_greek_ranges line in
    let total_chars := len line in
    let greek_ratio := if 0 <? total_chars then ratio greek_chars total_chars else 0%Q in
    if Qltb (1 # 2) greek_ratio && negb is_metadata && (20 <? len line)
    then (greek_lines ++ [line], metadata_lines)
    else if is_metadata || Qltb greek_ratio (1 # 10)
    then (greek_lines, metadata_lines ++ [line])
    else (greek_lines ++ [line], metadata_lines).

Definition separate_greek_from_metadata (mixed_text : pystr) : separated :=
  let lines := split_on newline mixed_text in
  let '(greek_lines, metadata_lines) := fold_left separate_line lines ([], []) in
  {| greek_text := join [newline] greek_lines;
     metadata := join [newline] metadata_lines;
     mixed_content := mixed_text |}.
End GreekTextFilter.

(** ** The network and the configuration *)

(** [CONFIG], read from [config.yaml] when a module is imported. *)
Class Config := {
  base_url : pystr;           (* CONFIG["source"]["base_url"] *)
  max_retries : Z;            (* CONFIG["extraction"]["max_retries"] *)
  retry_on_status : list Z;   (* CONFIG["extraction"]["retry_on_status"] *)
  base_delay : Q              (* CONFIG["extraction"]["rate_limit"]["base_delay"] *)
}.

(** What [session.get(url)] gives: a response with its status and, when
    [response.text()] does not raise, its text; or an exception. *)
Inductive response :=
| HttpResponse (status : Z) (text : option pystr)
| RequestError.

(** The observable events: a call of [fetch_page], a GET, a sleep. *)
Inductive event :=
| FetchPage (url : pystr)
| Get (url : pystr)
| Sleep (seconds : Q).

(** The remote host: its answer to a GET, given everything that happened before. *)
Class Server := server_response : list event -> pystr -> response.

(** Computations that read and extend the event log. *)
Definition M (A : Type) : Type := list event -> A * list event.

Definition ret {A} (a : A) : M A := fun h => (a, h).
Definition bind {A B} (m : M A) (k : A -> M B) : M B :=
  fun h => let '(a, h') := m h in k a h'.

Notation "'let*' x ':=' m 'in' k" := (bind m (fun x => k))
  (at level 10, x pattern, m at level 100, k at level 200).
Notation "'run' m 'then' k" := (bind m (fun _ => k))
  (at level 10, m at level 100, k at level 200).

Definition emit (e : event) : M unit := fun h => (tt, h ++ [e]).

(** [await asyncio.sleep(seconds)] *)
Definition sleep (seconds : Q) : M unit := emit (Sleep seconds).

(** [for x in xs: body] where the body may [break]. *)
Fixpoint for_each {A S} (xs : list A) (body : A -> S -> M (S * bool)) (st : S) : M S :=
  match xs with
  | [] => ret st
  | x :: xs' =>
      let* r := body x st in
      if snd r then ret (fst r) else for_each xs' body (fst r)
  end.

Definition max_consecutive_misses : Z := 20.

(** The two spellings of a work's address. *)
Definition plain_url (base tlg_id work_id_str : pystr) : pystr :=
  base ++ py "/TLG" ++ tlg_id ++ py "/" ++ tlg_id ++ py "_" ++ work_id_str ++ py ".htm".
Definition encoded_url (base tlg_id work_id_str : pystr) : pystr :=
  base ++ py "/TLG" ++ tlg_id ++ py "/" ++ tlg_id ++ py "%5F" ++ work_id_str ++ py ".htm".

(** [discover_tlg.TLGWork] *)
Record TLGWork := {
  work_id : pystr;
  title : pystr;
  url : pystr;
  estimated_size : option Z
}.

(** The dictionaries appended by [TLGIntegratedExtractor.discover_author_works]. *)
Record work_entry := {
  entry_work_id : pystr;
  entry_url : pystr;
  entry_estimated_size : Z
}.

(** *** The back-off time in floating point

    [(2 ** attempt) * delay] multiplies an integer by a float ([discover_tlg.py]
    converts the configured delay with [float()]): Python converts
    [2 ** attempt] to a float first and raises [OverflowError] when it is too
    large, that is from attempt 1024 on.  Below that the product is a scaling
    by a power of two: it is exact unless it leaves the range of the floats,
    in which case it is [inf].  [asyncio.sleep(inf)] does not come back. *)

(** How a call of [fetch_page] ends. *)
Inductive fetch_outcome :=
| Fetched (content : option pystr)   (* [return content], [return None] *)
| Raises_OverflowError               (* [int too large to convert to float] *)
| Never_returns.                     (* [await asyncio.sleep(inf)] *)

(** The floats end below [2 ** 1024]. *)
Definition float_limit : Q := inject_Z (2 ^ 1024).

(** [(2 ** attempt) * delay]: [None] is [OverflowError]; otherwise the exact
    product, which stands for [inf] from [float_limit] on. *)
Definition backoff_time (delay : Q) (attempt : Z) : option Q :=
  if 1024 <=? attempt then None
  else Some (inject_Z (2 ^ attempt) * delay)%Q.

(** [await asyncio.sleep(seconds)]: the call is logged, and the result tells
    whether it comes back; it does unless the delay is [inf] (a delay of
    zero or less, [-inf] included, comes back at once). *)
Definition asyncio_sleep (seconds : Q) : M bool :=
  run sleep seconds then ret (Qltb seconds float_limit).

Section Crawler.
Context `{Config} `{Server}.

Definition http_get (url : pystr) : M response :=
  fun h => (server_response h url, h ++ [Get url]).

(** *** [discover_tlg.py]: [TLGDiscovery] *)

Definition REQUEST_DELAY : Q := base_delay.

(** [for attempt in range(max_retries):] of [TLGDiscovery.fetch_page],
    the back-off time being computed exactly: this is the loop as long
    as every back-off time is a finite float, which is the case of up to
    1024 attempts with a delay below 2 seconds;
    [TLGDiscovery_fetch_attempts_outcome] below follows it beyond. *)
Fixpoint TLGDiscovery_fetch_attempts (attempts : list Z) (url : pystr) : M (option pystr) :=
  match attempts with
  | [] => ret None
  | attempt :: rest =>
      let on_exception :=
        let wait_time := (inject_Z (2 ^ attempt) * REQUEST_DELAY)%Q in
        run (if attempt <? max_retries - 1 then sleep wait_time else ret tt) then
        TLGDiscovery_fetch_attempts rest url in
      let* r := http_get url in
      match r with
      | HttpResponse status text =>
          if status =? 200 then
            match text with
            | Some content => ret (Some content)
            | None => on_exception
            end
          else if bool_decide (status ∈ retry_on_status) then
            let wait_time := (inject_Z (2 ^ attempt) * REQUEST_DELAY)%Q in
            run sleep wait_time then
            TLGDiscovery_fetch_attempts rest url
          else ret None
      | RequestError => on_exception
      end
  end.

Definition TLGDiscovery_fetch_page (url : pystr) : M (option pystr) :=
  run emit (FetchPage url) then
  TLGDiscovery_fetch_attempts (seqZ 0 max_retries) url.

(** [for url in urls_to_try:] on [(works, consecutive_misses, work_found)]. *)
Definition TLGDiscovery_try_url (work_id_str : pystr) (url : pystr)
    (st : list TLGWork * Z * bool) : M (list TLGWork * Z * bool * bool) :=
  let '(works, consecutive_misses, work_found) := st in
  let* content := TLGDiscovery_fetch_page url in
  match content with
  | Some content =>
      if truthy content then
        if 1000 <? len content then
          ret (works ++ [ {| work_id := work_id_str;
                             title := py "Work " ++ work_id_str;
                             url := url;
                             estimated_size := Some (len content) |} ],
               0, true, true)
        else ret (st, false)
      else ret (st, false)
  | None => ret (st, false)
  end.

(** The body of [for work_id in range(1, max_works + 1):]. *)
Definition TLGDiscovery_probe (tlg_id : pystr) (work_id : Z)
    (st : list TLGWork * Z) : M (list TLGWork * Z * bool) :=
  let '(works, consecutive_misses) := st in
  let work_id_str := format_03d work_id in
  let urls_to_try :=
    [ plain_url base_url tlg_id work_id_str;
      encoded_url base_url tlg_id work_id_str ] in
  let* r := for_each urls_to_try (TLGDiscovery_try_url work_id_str)
         (works, consecutive_misses, false) in
  let '(works, consecutive_misses, work_found) := r in
  if negb work_found then
    let consecutive_misses := consecutive_misses + 1 in
    if max_consecutive_misses <=? consecutive_misses
    then ret (works, consecutive_misses, true)
    else run sleep REQUEST_DELAY then ret (works, consecutive_misses, false)
  else run sleep REQUEST_DELAY then ret (works, consecutive_misses, false).

Definition TLGDiscovery_discover_author_works (tlg_id : pystr) (max_works : Z)
  : M (list TLGWork) :=
  let* st := for_each (seqZ 1 max_works) (TLGDiscovery_probe tlg_id) ([], 0) in
  ret (fst st).

(** The default of the parameter [max_works]. *)
Definition default_max_works : Z := 999.

(** *** [tlg_integrated_extractor.py]: [TLGIntegratedExtractor] *)

(** [for attempt in range(max_retries):] of [TLGIntegratedExtractor.fetch_page],
    with the exact back-off time as well; it is called with 2 and with 3
    attempts.  [TLGIntegratedExtractor_fetch_attempts_outcome] below
    follows it beyond the range of the floats. *)
Fixpoint TLGIntegratedExtractor_fetch_attempts (max_retries : Z) (attempts : list Z)
    (url : pystr) : M (option pystr) :=
  match attempts with
  | [] => ret None
  | attempt :: rest =>
      let on_exception :=
        let wait_time := (inject_Z (2 ^ attempt) * base_delay)%Q in
        run (if attempt <? max_retries - 1 then sleep wait_time else ret tt) then
        TLGIntegratedExtractor_fetch_attempts max_retries rest url in
      let* r := http_get url in
      match r with
      | HttpResponse status text =>
          if status =? 200 then
            match text with
            | Some content => ret (Some content)
            | None => on_exception
            end
          else if bool_decide (status ∈ retry_on_status) then
            let wait_time := (inject_Z (2 ^ attempt) * base_delay)%Q in
            run sleep wait_time then
            TLGIntegratedExtractor_fetch_attempts max_retries rest url
          else ret None
      | RequestError => on_exception
      end
  end.

(** [fetch_page(url, max_retries=3)] *)
Definition TLGIntegratedExtractor_fetch_page (url : pystr) (max_retries : Z)
  : M (option pystr) :=
  run emit (FetchPage url) then
  TLGIntegratedExtractor_fetch_attempts max_retries (seqZ 0 max_retries) url.

Definition TLGIntegratedExtractor_try_url (work_id_str : pystr) (url : pystr)
    (st : list work_entry * Z * bool) : M (list work_entry * Z * bool * bool) :=
  let '(works, consecutive_misses, work_found) := st in
  let* content := TLGIntegratedExtractor_fetch_page url 2 in
  match content with
  | Some content =>
      if truthy content && (1000 <? len content) then
        ret (works ++ [ {| entry_work_id := work_id_str;
                           entry_url := url;
                           entry_estimated_size := len content |} ],
             0, true, true)
      else ret (st, false)
  | None => ret (st, false)
  end.

(** The body of [for work_id in range(1, 1000):]. *)
Definition TLGIntegratedExtractor_probe (tlg_id : pystr) (work_id : Z)
    (st : list work_entry * Z) : M (list work_entry * Z * bool) :=
  let '(works, consecutive_misses) := st in
  let work_id_str := format_03d work_id in
  let urls_to_try :=
    [ plain_url base_url tlg_id work_id_str;
      encoded_url base_url tlg_id work_id_str ] in
  let* r := for_each urls_to_try (TLGIntegratedExtractor_try_url work_id_str)
         (works, consecutive_misses, false) in
  let '(works, consecutive_misses, work_found) := r in
  if negb work_found then
    let consecutive_misses := consecutive_misses + 1 in
    if max_consecutive_misses <=? consecutive_misses
    then ret (works, consecutive_misses, true)
    else run sleep base_delay then ret (works, consecutive_misses, false)
  else run sleep base_delay then ret (works, consecutive_misses, false).

(** [author_data['tlg_id']] is the argument [tlg_id]. *)
Definition TLGIntegratedExtractor_discover_author_works (tlg_id : pystr)
  : M (list work_entry) :=
  let* st := for_each (seqZ 1 (1000 - 1)) (TLGIntegratedExtractor_probe tlg_id) ([], 0) in
  ret (fst st).

(** *** [fetch_page] with the back-off time in floating point

    The loops [TLGDiscovery_fetch_attempts] and
    [TLGIntegratedExtractor_fetch_attempts] above compute the back-off
    time exactly.  The loops below are the same code with the product and
    the sleep as Python has them: a failing product inside [try] is
    caught by [except Exception], whose own product fails in turn, this
    time outside any [try].  The two agree as long as every back-off
    time is a finite float. *)

(** [for attempt in range(max_retries):] of [TLGDiscovery.fetch_page]. *)
Fixpoint TLGDiscovery_fetch_attempts_outcome (attempts : list Z) (url : pystr)
  : M fetch_outcome :=
  match attempts with
  | [] => ret (Fetched None)
  | attempt :: rest =>
      let on_exception :=
        match backoff_time REQUEST_DELAY attempt with
        | None => ret Raises_OverflowError
        | Some wait_time =>
            if attempt <? max_retries - 1 then
              let* back := asyncio_sleep wait_time in
              if back then TLGDiscovery_fetch_attempts_outcome rest url
              else ret Never_returns
            else TLGDiscovery_fetch_attempts_outcome rest url
        end in
      let* r := http_get url in
      match r with
      | HttpResponse status text =>
          if status =? 200 then
            match text with
            | Some content => ret (Fetched (Some content))
            | None => on_exception
            end
          else if bool_decide (status ∈ retry_on_status) then
            match backoff_time REQUEST_DELAY attempt with
            | None => on_exception
            | Some wait_time =>
                let* back := asyncio_sleep wait_time in
                if back then TLGDiscovery_fetch_attempts_outcome rest url
                else ret Never_returns
            end
          else ret (Fetched None)
      | RequestError => on_exception
      end
  end.

Definition TLGDiscovery_fetch_page_outcome (url : pystr) : M fetch_outcome :=
  run emit (FetchPage url) then
  TLGDiscovery_fetch_attempts_outcome (seqZ 0 max_retries) url.

(** [for attempt in range(max_retries):] of
    [TLGIntegratedExtractor.fetch_page]; the configured delay is taken to
    be a float here as well. *)
Fixpoint TLGIntegratedExtractor_fetch_attempts_outcome (max_retries : Z)
    (attempts : list Z) (url : pystr) : M fetch_outcome :=
  match attempts with
  | [] => ret (Fetched None)
  | attempt :: rest =>
      let on_exception :=
        match backoff_time base_delay attempt with
        | None => ret Raises_OverflowError
        | Some wait_time =>
            if attempt <? max_retries - 1 then
              let* back := asyncio_sleep wait_time in
              if back then TLGIntegratedExtractor_fetch_attempts_outcome max_retries rest url
              else ret Never_returns
            else TLGIntegratedExtractor_fetch_attempts_outcome max_retries rest url
        end in
      let* r := http_get url in
      match r with
      | HttpResponse status text =>
          if status =? 200 then
            match text with
            | Some content => ret (Fetched (Some content))
            | None => on_exception
            end
          else if bool_decide (status ∈ retry_on_status) then
            match backoff_time base_delay attempt with
            | None => on_exception
            | Some wait_time =>
                let* back := asyncio_sleep wait_time in
                if back then TLGIntegratedExtractor_fetch_attempts_outcome max_retries rest url
                else ret Never_returns
            end
          else ret (Fetched None)
      | RequestError => on_exception
      end
  end.

(** [fetch_page(url, max_retries=3)] *)
Definition TLGIntegratedExtractor_fetch_page_outcome (url : pystr) (max_retries : Z)
  : M fetch_outcome :=
  run emit (FetchPage url) then
  TLGIntegratedExtractor_fetch_attempts_outcome max_retries (seqZ 0 max_retries) url.
End Crawler.

(** ** [author_catalog_tools.py] *)

(** A JSON value is a string, or a value of another kind (null, number,
    boolean, array, object), kept as the text that [str()] gives for it
    (["None"] for null). *)
Inductive json :=
| JStr (s : pystr)
| JNonStr (repr : pystr).

Global Instance json_eq_dec : EqDecision json.
Proof. solve_decision. Defined.

(** [str(v)] *)
Definition py_str (v : json) : pystr :=
  match v with
  | JStr s => s
  | JNonStr repr => repr
  end.

(** A work of a catalogue: its ["language"] and ["title"], when present. *)
Record work_meta := {
  work_language : option json;
  work_title : option json
}.

(** An author of a catalogue: the ["name"] and the ["works"], when present. *)
Record author_meta := {
  author_name : option json;
  author_works : option (gmap pystr work_meta)
}.

(** The dictionary [combined] built by [_collect_works]. *)
Record combined := {
  c_author_id : pystr;
  c_work_id : pystr;
  c_author_name : json;
  c_work_title : json
}.

(** [{**a, **b}] on two [combined] dictionaries: both have the same four
    keys, so every value comes from [b]. *)
Definition dict_merge (a b : combined) : combined :=
  {| c_author_id := c_author_id b;
     c_work_id := c_work_id b;
     c_author_name := c_author_name b;
     c_work_title := c_work_title b |}.

(** The order of [str] ([<=] on code points, lexicographic). *)
Fixpoint str_leb (a b : pystr) : bool :=
  match a, b with
  | [], _ => true
  | _ :: _, [] => false
  | x :: a', y :: b' => if (x =? y)%N then str_leb a' b' else (x <? y)%N
  end.

(** The order of the tuples [(author_id, work_id)]. *)
Definition key_leb (k1 k2 : pystr * pystr) : bool :=
  if bool_decide (fst k1 = fst k2) then str_leb (snd k1) (snd k2)
  else str_leb (fst k1) (fst k2).

Definition key_le (k1 k2 : pystr * pystr) : Prop := Is_true (key_leb k1 k2).

(** [sorted(keys)] *)
Definition sorted (keys : gset (pystr * pystr)) : list (pystr * pystr) :=
  merge_sort key_le (elements keys).

Definition csv_header : list json :=
  [ JStr (py "author_id"); JStr (py "work_id"); JStr (py "author_name");
    JStr (py "work_title"); JStr (py "coverage") ].

Section CatalogTools.
Context `{UnicodeData}.

Definition _title_case (name : pystr) : pystr := str_title name.

(** The author index after [json.loads], and what is given to
    [json.dumps]: every entry is updated in place. *)
Definition normalise_entry (entry : gmap pystr json) : gmap pystr json :=
  match entry !! py "name" with
  | Some name => <[py "name" := JStr (_title_case (py_str name))]> entry
  | None => entry
  end.

Definition normalise_author_index (data : gmap pystr (gmap pystr json))
  : gmap pystr (gmap pystr json) :=
  normalise_entry <$> data.

(** [{lang.lower() for lang in languages} if languages else None] *)
Definition lower_set (languages : option (gset pystr)) : option (gset pystr) :=
  match languages with
  | Some langs =>
      if bool_decide (langs = ∅) then None
      else Some (set_map (C:=gset pystr) (D:=gset pystr) str_lower langs)
  | None => None
  end.

(** [norm_langs is not None and work_lang not in norm_langs] *)
Definition skipped (norm_langs : option (gset pystr)) (work_meta : work_meta) : bool :=
  let work_lang := str_lower (py_str (default (JStr []) (work_language work_meta))) in
  match norm_langs with
  | Some langs => bool_decide (work_lang ∉ langs)
  | None => false
  end.

(** The dictionary [combined] of a work. *)
Definition combine (author_id work_id : pystr) (author_meta : author_meta)
    (work_meta : work_meta) : combined :=
  {| c_author_id := author_id;
     c_work_id := work_id;
     c_author_name := default (JStr []) (author_name author_meta);
     c_work_title := default (JStr []) (work_title work_meta) |}.

(** The inner loop of [_collect_works], over the works of one author. *)
Definition collect_author (norm_langs : option (gset pystr))
    (author_id : pystr) (author_meta : author_meta)
    (works : gmap (pystr * pystr) combined) : gmap (pystr * pystr) combined :=
  map_fold
    (fun work_id work_meta works =>
       if skipped norm_langs work_meta then works
       else <[(author_id, work_id) := combine author_id work_id author_meta work_meta]> works)
    works (default ∅ (author_works author_meta)).

Definition _collect_works (catalogue : gmap pystr author_meta)
    (languages : option (gset pystr)) : gmap (pystr * pystr) combined :=
  let norm_langs := lower_set languages in
  map_fold (collect_author norm_langs) ∅ catalogue.

(** One iteration of [for key in sorted(all_keys):]: the row handed to
    [writer.writerow]; [None] stands for a [KeyError]. *)
Definition coverage_row (legacy_works tlg_works : gmap (pystr * pystr) combined)
    (key : pystr * pystr) : option (list json) :=
  let in_legacy := bool_decide (key ∈ dom legacy_works) in
  let in_tlg := bool_decide (key ∈ dom tlg_works) in
  label_meta ←
    (if in_legacy && in_tlg then
       l ← legacy_works !! key; t ← tlg_works !! key;
       Some (py "bot", dict_merge l t)
     else if in_tlg then
       t ← tlg_works !! key; Some (py "tlg", t)
     else
       l ← legacy_works !! key; Some (py "leg", l));
  let '(label, row_meta) := label_meta in
  Some [ JStr (c_author_id row_meta); JStr (c_work_id row_meta);
         c_author_name row_meta; c_work_title row_meta; JStr label ].

(** [{lang.lower() for lang in languages} if languages else None], for
    the sequence (or [None]) received by [generate_coverage_csv]. *)
Definition language_set (languages : option (list pystr)) : option (gset pystr) :=
  match languages with
  | Some (lang :: langs) =>
      Some (list_to_set (C:=gset pystr) (str_lower <$> lang :: langs))
  | _ => None
  end.

(** The rows written by [generate_coverage_csv], the header first. *)
Definition generate_coverage_csv (legacy_catalog tlg_catalog : gmap pystr author_meta)
    (languages : option (list pystr)) : option (list (list json)) :=
  let lang_set := language_set languages in
  let legacy_works := _collect_works legacy_catalog lang_set in
  let tlg_works := _collect_works tlg_catalog lang_set in
  let all_keys := dom legacy_works ∪ dom tlg_works in
  rows ← mapM (coverage_row legacy_works tlg_works) (sorted all_keys);
  Some (csv_header :: rows).
End CatalogTools.

(** ** [tlg_reference_preservation.py] *)

Definition TLG_ABBREVIATIONS : gmap pystr pystr :=
  list_to_map
    [ (py "0012", py "Hom.");   (py "0059", py "Pl.");    (py "0086", py "Arist.");
      (py "0011", py "Soph.");  (py "0006", py "Eur.");   (py "0007", py "Aesch.");
      (py "0016", py "Hdt.");   (py "0003", py "Th.");    (py "0087", py "Dem.");
      (py "0014", py "Xen.");   (py "0017", py "Isoc.");  (py "0020", py "Lys.");
      (py "0028", py "Isae.");  (py "0030", py "Lyc.");   (py "0031", py "Hyp.");
      (py "0032", py "Din.");   (py "0040", py "Andr.") ].

Record work_info := {
  info_title : pystr;
  info_abbrev : pystr;
  info_genre : pystr
}.

Definition WORK_MAPPINGS : gmap pystr (gmap pystr work_info) :=
  list_to_map
    [ (py "0012", list_to_map
         [ (py "001", {| info_title := py "Iliad"; info_abbrev := py "Il."; info_genre := py "Epic Poetry" |});
           (py "002", {| info_title := py "Odyssey"; info_abbrev := py "Od."; info_genre := py "Epic Poetry" |}) ]);
      (py "0059", list_to_map
         [ (py "030", {| info_title := py "Republic"; info_abbrev := py "R."; info_genre := py "Philosophy" |});
           (py "003", {| info_title := py "Phaedo"; info_abbrev := py "Phd."; info_genre := py "Philosophy" |});
           (py "004", {| info_title := py "Meno"; info_abbrev := py "Men."; info_genre := py "Philosophy" |});
           (py "021", {| info_title := py "Apology"; info_abbrev := py "Ap."; info_genre := py "Philosophy" |}) ]);
      (py "0086", list_to_map
         [ (py "035", {| info_title := py "Metaphysics"; info_abbrev := py "Metaph."; info_genre := py "Philosophy" |});
           (py "087", {| info_title := py "Nicomachean Ethics"; info_abbrev := py "EN"; info_genre := py "Ethics" |});
           (py "001", {| info_title := py "Categories"; info_abbrev := py "Cat."; info_genre := py "Logic" |}) ]) ].

Record TLGReference := {
  ref_author_id : pystr;
  ref_author_name : pystr;
  ref_author_description : pystr;
  ref_period : pystr;
  ref_location : pystr;
  ref_work_id : pystr;
  ref_work_title : pystr;
  ref_work_genre : pystr;
  ref_url : pystr;
  traditional_citation : pystr;
  traditional_abbreviation : pystr;
  extraction_date : pystr
}.

(** [build_structured_text]'s dictionary, empty when there is no paragraph. *)
Record structured := {
  paragraphs : list pystr;
  total_paragraphs : Z;
  estimated_lines : Z
}.

Record TextStructure := {
  raw_text : pystr;
  structured_text : option structured;
  line_mapping : gmap pystr pystr;
  page_mapping : gmap pystr pystr;
  division_mapping : gmap pystr pystr
}.

(** The dictionary returned by [validate_greek_content]; the three counts
    are present only when the text has an alphabetic character. *)
Record text_validation := {
  text_valid : bool;
  text_reason : pystr;
  text_length : Z;
  text_greek_ratio : Q;
  text_counts : option (Z * Z * Z)  (* word_count, greek_chars, total_alpha_chars *)
}.

(** The dictionary returned by [validate_reference_completeness]. *)
Record reference_validation := {
  reference_valid : bool;
  missing_fields : list pystr;
  completeness_score : Q
}.

(** The dictionary returned by [validate_extraction]. *)
Record extraction_validation := {
  overall_valid : bool;
  validation_text : text_validation;
  validation_reference : reference_validation;
  validation_timestamp : pystr
}.

Record ValidatedExtraction := {
  tlg_reference : TLGReference;
  text_structure : TextStructure;
  validation_metrics : option extraction_validation
}.

(** A value returned, or a [ValueError] raised. *)
Inductive outcome (A : Type) :=
| Returns (a : A)
| ValueError (message : pystr).
Arguments Returns {A} a.
Arguments ValueError {A} message.

(** [r'/TLG(\d{4})/\d{4}_(\d{3})\.htm'] and the same with [%5F]. *)
Definition url_pattern (underscore : pystr) : regex :=
  lits (py "/TLG")
    (Cat (Group (times 4 Digit Empty))
       (Cat (Lit 47)
          (times 4 Digit
             (lits underscore
                (Cat (Group (times 3 Digit Empty)) (lits (py ".htm") Empty)))))).

(** [match.group(i)] *)
Definition group (groups : list pystr) (i : nat) : pystr := nth (i - 1) groups [].

(** [getattr(reference, field, None)] *)
Definition getattr (reference : TLGReference) (field : pystr) : option pystr :=
  if bool_decide (field = py "author_id") then Some (ref_author_id reference)
  else if bool_decide (field = py "author_name") then Some (ref_author_name reference)
  else if bool_decide (field = py "author_description") then Some (ref_author_description reference)
  else if bool_decide (field = py "period") then Some (ref_period reference)
  else if bool_decide (field = py "location") then Some (ref_location reference)
  else if bool_decide (field = py "work_id") then Some (ref_work_id reference)
  else if bool_decide (field = py "work_title") then Some (ref_work_title reference)
  else if bool_decide (field = py "work_genre") then Some (ref_work_genre reference)
  else if bool_decide (field = py "url") then Some (ref_url reference)
  else if bool_decide (field = py "traditional_citation") then Some (traditional_citation reference)
  else if bool_decide (field = py "traditional_abbreviation") then Some (traditional_abbreviation reference)
  else if bool_decide (field = py "extraction_date") then Some (extraction_date reference)
  else None.

(** [TLGValidationSystem.__init__] *)
Definition min_greek_ratio : Q := 2 # 10.
Definition min_text_length : Z := 50.
Definition required_reference_fields : list pystr :=
  [ py "author_id"; py "work_id"; py "author_name";
    py "work_title"; py "traditional_citation"; py "url" ].

Section ReferencePreservation.
Context `{UnicodeData}.

(** *** [TLGReferenceParser] *)

Definition parse_url_reference (url : pystr) : outcome (pystr * pystr) :=
  match re_search false (url_pattern (py "_")) url with
  | Some m => Returns (group m 1, group m 2)
  | None =>
      match re_search false (url_pattern (py "%5F")) url with
      | Some m => Returns (group m 1, group m 2)
      | None => ValueError (py "Cannot parse TLG reference from URL: " ++ url)
      end
  end.

Definition build_traditional_citation (author_id work_id : pystr) : pystr :=
  let author_abbrev := default (py "TLG" ++ author_id) (TLG_ABBREVIATIONS !! author_id) in
  match WORK_MAPPINGS !! author_id ≫= (fun works => works !! work_id) with
  | Some work_info => author_abbrev ++ py " " ++ info_abbrev work_info
  | None => author_abbrev ++ py " " ++ work_id
  end.

(** *** [TLGValidationSystem] *)

(** The loop [for char in text:] on [(greek_chars, total_alpha_chars)]. *)
Definition count_char (acc : Z * Z) (char : N) : Z * Z :=
  let '(greek_chars, total_alpha_chars) := acc in
  if isalpha char then
    (if in_greek_ranges char then greek_chars + 1 else greek_chars,
     total_alpha_chars + 1)
  else acc.

Definition validate_greek_content (text : pystr) : text_validation :=
  if negb (truthy text) || (len text <? min_text_length) then
    {| text_valid := false;
       text_reason := py "Text too short";
       text_length := if truthy text then len text else 0;
       text_greek_ratio := 0;
       text_counts := None |}
  else
    let '(greek_chars, total_alpha_chars) := fold_left count_char text (0, 0) in
    if total_alpha_chars =? 0 then
      {| text_valid := false;
         text_reason := py "No alphabetic characters";
         text_length := len text;
         text_greek_ratio := 0;
         text_counts := None |}
    else
      let greek_ratio := ratio greek_chars total_alpha_chars in
      {| text_valid := Qleb min_greek_ratio greek_ratio;
         text_reason := if Qleb min_greek_ratio greek_ratio
                        then py "Valid Greek text"
                        else py "Insufficient Greek content";
         text_length := len text;
         text_greek_ratio := greek_ratio;
         text_counts := Some (count_words false text, greek_chars, total_alpha_chars) |}.

(** [not value or (isinstance(value, str) and not value.strip())] *)
Definition is_missing (value : option pystr) : bool :=
  match value with
  | None => true
  | Some v => negb (truthy v) || negb (truthy (strip v))
  end.

Definition validate_reference_completeness (reference : TLGReference)
  : reference_validation :=
  let missing_fields :=
    List.filter (fun field => is_missing (getattr reference field))
                required_reference_fields in
  {| reference_valid := len missing_fields =? 0;
     missing_fields := missing_fields;
     completeness_score :=
       ratio (len required_reference_fields - len missing_fields)
             (len required_reference_fields) |}.

(** [now] is [datetime.now().isoformat()]. *)
Definition validate_extraction (now : pystr) (extraction : ValidatedExtraction)
  : extraction_validation :=
  let text_validation := validate_greek_content (raw_text (text_structure extraction)) in
  let reference_validation :=
    validate_reference_completeness (tlg_reference extraction) in
  let overall_valid := text_valid text_validation && reference_valid reference_validation in
  {| overall_valid := overall_valid;
     validation_text := text_validation;
     validation_reference := reference_validation;
     validation_timestamp := now |}.

(** *** [TLGReferencePreserver] *)

(** [author_data] and [work_data] are dictionaries of strings; [None]
    stands for the [KeyError] of a missing ['tlg_id'], ['name'],
    ['work_id'] or ['url']. *)
Definition create_reference_from_discovery (now : pystr)
    (author_data work_data : gmap pystr pystr) : option TLGReference :=
  author_id ← author_data !! py "tlg_id";
  work_id ← work_data !! py "work_id";
  let traditional_citation := build_traditional_citation author_id work_id in
  let work_title := default (py "Work " ++ work_id) (work_data !! py "title") in
  let work_genre := py "Unknown" in
  let '(work_title, work_genre) :=
    match WORK_MAPPINGS !! author_id ≫= (fun works => works !! work_id) with
    | Some work_info => (info_title work_info, info_genre work_info)
    | None => (work_title, work_genre)
    end in
  author_name ← author_data !! py "name";
  url ← work_data !! py "url";
  Some {| ref_author_id := author_id;
          ref_author_name := author_name;
          ref_author_description := default [] (author_data !! py "description");
          ref_period := default [] (author_data !! py "period");
          ref_location := default [] (author_data !! py "location");
          ref_work_id := work_id;
          ref_work_title := work_title;
          ref_work_genre := work_genre;
          ref_url := url;
          traditional_citation := traditional_citation;
          traditional_abbreviation :=
            default (py "TLG" ++ author_id) (TLG_ABBREVIATIONS !! author_id);
          extraction_date := now |}.
End ReferencePreservation.

(** ** Small instances of the Unicode database *)

(** The database in which, above ASCII, exactly the small letters alpha to
    omega are letters. *)
Definition greek_small_letters : UnicodeData := {|
  tolower_high := fun c => c;
  iscased_high := fun _ => false;
  isalpha_high := fun c => ((0x3B1 <=? c) && (c <=? 0x3C9))%N;
  isdecimal_high := fun _ => false;
  totitle_full_high := fun c => [c];
  lower_in_context_high := fun _ c _ => [c];
  str_lower_high := List.map ascii_tolower
|}.

(** ** Vocabulary for the crawler's event log *)

(** The complete retry schedule of the given attempts:
    GET, sleep [2^attempt * delay], GET, sleep... *)
Fixpoint backoff_schedule (url : pystr) (delay : Q) (attempts : list Z) : list event :=
  match attempts with
  | [] => []
  | attempt :: rest =>
      Get url :: Sleep (inject_Z (2 ^ attempt) * delay) :: backoff_schedule url delay rest
  end.

(** The GETs of a log. *)
Fixpoint gets (evs : list event) : list pystr :=
  match evs with
  | [] => []
  | Get url :: evs' => url :: gets evs'
  | _ :: evs' => gets evs'
  end.

(** The calls of [fetch_page] of a log. *)
Fixpoint fetch_calls (evs : list event) : list pystr :=
  match evs with
  | [] => []
  | FetchPage url :: evs' => url :: fetch_calls evs'
  | _ :: evs' => fetch_calls evs'
  end.

(** The server's answers to the GETs of [evs], issued after the history [h]. *)
Fixpoint answers `{Server} (h evs : list event) : list response :=
  match evs with
  | [] => []
  | Get url :: evs' => server_response h url :: answers (h ++ [Get url]) evs'
  | e :: evs' => answers (h ++ [e]) evs'
  end.

(** An answer with status 200 whose text can be read. *)
Definition is_ok (r : response) : bool :=
  match r with
  | HttpResponse status (Some _) => status =? 200
  | _ => false
  end.

(** Content above the minimum size: more than 1000 characters. *)
Definition above_threshold (content : option pystr) : bool :=
  match content with
  | Some c => 1000 <? len c
  | None => false
  end.

(** How the probe of one candidate ended. *)
Inductive probe_result := FoundPlain | FoundEncoded | Missed.

Definition is_miss (o : probe_result) : bool :=
  match o with Missed => true | _ => false end.

(** The addresses fetched for a candidate: the encoded spelling is tried
    only when the plain one gave nothing. *)
Definition urls_probed (base tlg_id : pystr) (candidate : Z) (o : probe_result)
  : list pystr :=
  match o with
  | FoundPlain => [plain_url base tlg_id (format_03d candidate)]
  | _ => [plain_url base tlg_id (format_03d candidate);
          encoded_url base tlg_id (format_03d candidate)]
  end.

(** The identifiers of the candidates that were found. *)
Fixpoint found_ids (candidates : list Z) (outs : list probe_result) : list pystr :=
  match candidates, outs with
  | c :: cs, o :: os =>
      (if is_miss o then [] else [format_03d c]) ++ found_ids cs os
  | _, _ => []
  end.

(** A run of work discovery, seen from outside: the candidates 1, 2, ...,
    [length outs] were probed in this order, with at most [max_works] of
    them; [calls] are the addresses given to [fetch_page] and [ids] the
    identifiers of the works returned.  The run ended before [max_works]
    only after 20 misses in a row, and nothing was probed after 20 misses
    in a row. *)
Definition sequential_probing (base tlg_id : pystr) (max_works : Z)
    (calls ids : list pystr) : Prop :=
  exists outs : list probe_result,
    len outs <= Z.max 0 max_works
    /\ calls = concat (zip_with (urls_probed base tlg_id) (seqZ 1 (len outs)) outs)
    /\ ids = found_ids (seqZ 1 (len outs)) outs
    /\ (len outs < max_works -> exists pre, outs = pre ++ replicate 20 Missed)
    /\ (forall pre rest, outs = pre ++ replicate 20 Missed ++ rest -> rest = []).

(** The miss counter after the outcomes [outs], starting from [misses]. *)
Definition run_misses (misses : Z) (outs : list probe_result) : Z :=
  fold_left (fun m o => if is_miss o then m + 1 else 0) outs misses.

(** The body of the discovery loop in direct style, for any [fetch_page]
    and any way [mk] of recording a work. *)
Definition probe_candidate {W} (fetch : pystr -> M (option pystr))
    (mk : pystr -> pystr -> Z -> W) (delay : Q) (base tlg_id : pystr) (candidate : Z)
    (st : list W * Z) : M (list W * Z * bool) :=
  let w := format_03d candidate in
  let* c1 := fetch (plain_url base tlg_id w) in
  if above_threshold c1 then
    run sleep delay then
    ret (fst st ++ [mk w (plain_url base tlg_id w) (len (default [] c1))], 0, false)
  else
    let* c2 := fetch (encoded_url base tlg_id w) in
    if above_threshold c2 then
      run sleep delay then
      ret (fst st ++ [mk w (encoded_url base tlg_id w) (len (default [] c2))], 0, false)
    else if max_consecutive_misses <=? snd st + 1 then ret (fst st, snd st + 1, true)
    else run sleep delay then ret (fst st, snd st + 1, false).

Definition mk_TLGWork (w url : pystr) (size : Z) : TLGWork :=
  {| work_id := w; title := py "Work " ++ w; url := url; estimated_size := Some size |}.

Definition mk_work_entry (w url : pystr) (size : Z) : work_entry :=
  {| entry_work_id := w; entry_url := url; entry_estimated_size := size |}.

(** What a call [fetch_page(url)] with [n] as the number of attempts did,
    from the history [h] to its result and final log: after the call event
    the log continues with a prefix of the retry schedule (so there are at
    most [n] GETs and consecutive GETs are separated by the back-off
    sleep); the result is [None] exactly when no GET was answered by a
    readable 200, and otherwise the text of the last answer. *)
Definition retries_then_gives_up `{Server} (url : pystr) (delay : Q) (n : Z)
    (h : list event) (result : option pystr * list event) : Prop :=
  exists evs,
    snd result = h ++ FetchPage url :: evs
    /\ (exists rest, backoff_schedule url delay (seqZ 0 n) = evs ++ rest)
    /\ len (gets evs) <= Z.max 0 n
    /\ (fst result = None <->
        Forall (fun r => is_ok r = false) (answers (h ++ [FetchPage url]) evs))
    /\ (forall content, fst result = Some content ->
        last (answers (h ++ [FetchPage url]) evs) = Some (HttpResponse 200 (Some content))).

(** Every back-off time of a call with [n] attempts is a finite float: no
    attempt has a number above 1023, and the longest time, the one of the
    last attempt, is below [float_limit]. *)
Definition backoff_in_range (delay : Q) (n : Z) : bool :=
  (n <=? 1024) && Qltb (inject_Z (2 ^ (n - 1)) * delay) float_limit.

(** An answer after which [fetch_page] tries again while an attempt is
    left: an exception, of the request or of [response.text()], or a status
    of [retry_on_status]. *)
Definition retried `{Config} (r : response) : bool :=
  match r with
  | HttpResponse status text =>
      if status =? 200 then
        match text with
        | Some _ => false
        | None => true
        end
      else bool_decide (status ∈ retry_on_status)
  | RequestError => true
  end.




(** ** A sample configuration and sample servers *)

Definition sample_config : Config := {|
  base_url := py "http://217.71.231.54:8080";
  max_retries := 3;
  retry_on_status := [429; 500; 502; 503; 504];
  base_delay := 3 # 2
|}.

(** A host that answers every request with 404. *)
Definition absent_server : Server := fun _ _ => HttpResponse 404 None.

(** A host that has the works 001 and 002 of author 0012 (1200 characters
    each, under the plain spelling of the address) and nothing else. *)
Definition homer_server : Server := fun _ url =>
  if bool_decide (url = plain_url (py "http://217.71.231.54:8080") (py "0012") (py "001"))
     || bool_decide (url = plain_url (py "http://217.71.231.54:8080") (py "0012") (py "002"))
  then HttpResponse 200 (Some (repeat 0x3B1%N 1200))
  else HttpResponse 404 None.

(** ** Vocabulary for the catalogue tools *)

(** The first two columns of a row, and its last column. *)
Definition row_key (row : list json) : pystr * pystr :=
  (py_str (nth 0 row (JStr [])), py_str (nth 1 row (JStr []))).
Definition row_label (row : list json) : json := nth 4 row (JStr []).

Section Casing.
Context `{UnicodeData}.

(** [piece] is a case form of the character [c]: its title-case form,
    or its lower-case form in some context. *)
Definition is_case_form (c : N) (piece : pystr) : Prop :=
  piece = totitle_full c \/ exists before after, piece = lower_in_context before c after.

(** [new] is the string [old] with every character replaced by one of
    its case forms: the same character sequence, in another casing. *)
Definition recased (old new : pystr) : Prop :=
  exists pieces, new = concat pieces /\ Forall2 is_case_form old pieces.

(** The new value of a field differs from the old one in casing only. *)
Definition altered_only_in_casing (old new : json) : Prop :=
  exists s s', old = JStr s /\ new = JStr s' /\ recased s s'.

(** The work [work_id] of author [author_id] is in the catalogue and its
    language is one of [languages] (any language when [languages] is
    [None] or empty). *)
Definition selected_work (catalogue : gmap pystr author_meta)
    (languages : option (list pystr)) (key : pystr * pystr) : Prop :=
  exists author works work,
    catalogue !! fst key = Some author
    /\ author_works author = Some works
    /\ works !! snd key = Some work
    /\ skipped (lower_set (language_set languages)) work = false.
End Casing.

(** ** Vocabulary for the validator and the reference parser *)

Section ValidationVocabulary.
Context `{UnicodeData}.

(** The Greek ratio of a text: its alphabetic characters of the two Greek
    ranges over its alphabetic characters (zero when it has none). *)
Definition greek_ratio_of (text : pystr) : Q :=
  let greek := count (fun c => isalpha c && in_greek_ranges c) text in
  let alpha := count isalpha text in
  if alpha =? 0 then 0%Q else ratio greek alpha.

(** The two threshold checks on a text. *)
Definition length_check (text : pystr) : bool := min_text_length <=? len text.
Definition ratio_check (text : pystr) : bool := Qleb min_greek_ratio (greek_ratio_of text).

(** A field with something else than white space in it. *)
Definition non_blank (value : pystr) : bool := truthy (strip value).

(** The six required fields of a reference are filled. *)
Definition reference_complete (reference : TLGReference) : bool :=
  non_blank (ref_author_id reference) && non_blank (ref_work_id reference)
  && non_blank (ref_author_name reference) && non_blank (ref_work_title reference)
  && non_blank (traditional_citation reference) && non_blank (ref_url reference).

(** [d] is [n] decimal digits. *)
Definition digits (n : nat) (d : pystr) : Prop :=
  length d = n /\ Forall (fun c => isdecimal c = true) d.

(** [url] contains [/TLG<a>/<d><underscore><w>.htm] with [a] and [d] four
    decimal digits and [w] three. *)
Definition url_matches (underscore url a w : pystr) : Prop :=
  exists pre d post,
    url = pre ++ py "/TLG" ++ a ++ py "/" ++ d ++ underscore ++ w ++ py ".htm" ++ post
    /\ length a = 4%nat /\ Forall (fun c => isdecimal c = true) a
    /\ length d = 4%nat /\ Forall (fun c => isdecimal c = true) d
    /\ length w = 3%nat /\ Forall (fun c => isdecimal c = true) w.
End ValidationVocabulary.

(** A reference with every field filled, and a text of fifty alphas. *)
Definition sample_reference : TLGReference := {|
  ref_author_id := py "0012";
  ref_author_name := py "HOMERUS";
  ref_author_description := py "Epic.";
  ref_period := py "8 B.C.";
  ref_location := [];
  ref_work_id := py "001";
  ref_work_title := py "Iliad";
  ref_work_genre := py "Epic Poetry";
  ref_url := py "http://217.71.231.54:8080/TLG0012/0012_001.htm";
  traditional_citation := py "Hom. Il.";
  traditional_abbreviation := py "Hom.";
  extraction_date := py "2025-01-01T00:00:00"
|}.

Definition sample_text_structure (text : pystr) : TextStructure := {|
  raw_text := text;
  structured_text := None;
  line_mapping := ∅;
  page_mapping := ∅;
  division_mapping := ∅
|}.

Definition fifty_alphas : pystr := repeat 0x3B1%N 50.

(** The sample reference with a blank author name. *)
Definition nameless_reference : TLGReference := {|
  ref_author_id := py "0012";
  ref_author_name := py "  ";
  ref_author_description := py "Epic.";
  ref_period := py "8 B.C.";
  ref_location := [];
  ref_work_id := py "001";
  ref_work_title := py "Iliad";
  ref_work_genre := py "Epic Poetry";
  ref_url := py "http://217.71.231.54:8080/TLG0012/0012_001.htm";
  traditional_citation := py "Hom. Il.";
  traditional_abbreviation := py "Hom.";
  extraction_date := py "2025-01-01T00:00:00"
|}.

(** A host that answers 503 to the first two GETs and then serves a page. *)
Definition flaky_server : Server := fun h _ =>
  if (length (gets h) <? 2)%nat then HttpResponse 503 None
  else HttpResponse 200 (Some (py "<html></html>")).

(** The opening words of the Iliad. *)
Definition menin_aeide_thea : pystr :=
  [0x3BC; 0x1FC6; 0x3BD; 0x3B9; 0x3BD; 0x20; 0x1F04; 0x3B5; 0x3B9; 0x3B4; 0x3B5;
   0x20; 0x3B8; 0x3B5; 0x3AC]%N.

(** ** [tlg_reference_preservation.py]: citations, formats, text structure *)

(** The truth value of an [Optional[str]] argument ([if book:]). *)
Definition truthy_opt (o : option pystr) : bool :=
  match o with
  | Some s => truthy s
  | None => false
  end.

(** [TLGReference.to_citation] *)
Definition to_citation (self : TLGReference) (book line : option pystr) : pystr :=
  let base_citation := traditional_citation self in
  if truthy_opt book && truthy_opt line then
    base_citation ++ py " " ++ default [] book ++ py "." ++ default [] line
  else if truthy_opt book then
    base_citation ++ py " " ++ default [] book
  else base_citation.

(** [sum(xs)] on integers. *)
Definition sum_of (xs : list Z) : Z := fold_left Z.add xs 0.

(** The full stop, the separator of [p.split('.')]. *)
Definition full_stop : N := 46%N.

(** The markers found by [extract_structure_markers]: for each kind, the
    captured text and the position of every match. *)
Abbreviation marker_dict := (gmap pystr (list (pystr * Z))).

(** [TLGTextStructureAnalyzer.structure_patterns], in the order of the source. *)
Definition structure_patterns : list (pystr * list pystr) :=
  [ (py "book",
      [ py "<div[^>]*class[^>]*book[^>]*>(\d+)</div>";
        py "<span[^>]*class[^>]*book[^>]*>(\d+)</span>";
        py "<h\d[^>]*>(?:Book\s+)?(\d+)</h\d>" ]);
    (py "line",
      [ py "<span[^>]*class[^>]*line[^>]*>(\d+)</span>";
        py "<div[^>]*class[^>]*line[^>]*>(\d+)</div>";
        py "\[(\d+)\]" ]);
    (py "page",
      [ py "<span[^>]*class[^>]*page[^>]*>([^<]+)</span>";
        py "<div[^>]*class[^>]*page[^>]*>([^<]+)</div>";
        py "\{([^}]+)\}" ]);
    (py "chapter",
      [ py "<div[^>]*class[^>]*chapter[^>]*>(\d+)</div>";
        py "<span[^>]*class[^>]*chapter[^>]*>(\d+)</span>" ]) ].

(** The library calls on HTML: the matches of a pattern given as text, and
    BeautifulSoup on a page from which the [script], [style], [nav],
    [header] and [footer] elements have been removed. *)
Class HtmlLibrary := {
  (* [(m.group(1), m.start()) for m in re.finditer(pattern, html, re.IGNORECASE)] *)
  finditer_ignorecase : pystr -> pystr -> list (pystr * Z);
  (* [elem.get_text(separator=' ', strip=True) for elem in soup.select(selector)] *)
  select_texts : pystr -> pystr -> list pystr;
  (* [soup.get_text(separator=' ', strip=True)] *)
  soup_get_text : pystr -> pystr
}.

(** [TLGTextStructureAnalyzer.build_structured_text]; [None] is the empty
    dictionary. *)
Definition build_structured_text (clean_text : pystr) (markers : marker_dict)
  : option structured :=
  let paragraphs :=
    List.map strip (List.filter (fun p => truthy (strip p)) (split_on newline clean_text)) in
  if negb (bool_decide (paragraphs = [])) then
    Some {| paragraphs := paragraphs;
            total_paragraphs := len paragraphs;
            estimated_lines := sum_of (List.map (fun p => len (split_on full_stop p)) paragraphs) |}
  else None.

Section StructureAnalyzer.
Context `{HtmlLibrary}.

(** [TLGTextStructureAnalyzer.extract_structure_markers] *)
Definition extract_structure_markers (html_content : pystr) : marker_dict :=
  fold_left
    (fun (markers : marker_dict) entry =>
       let '(marker_type, patterns) := entry in
       fold_left
         (fun (markers : marker_dict) pattern =>
            <[marker_type := default [] (markers !! marker_type)
                             ++ finditer_ignorecase pattern html_content]> markers)
         patterns (<[marker_type := []]> markers))
    structure_patterns ∅.

(** [TLGReferencePreserver.analyze_text_structure] *)
Definition analyze_text_structure (html_content clean_text : pystr) : TextStructure :=
  let markers := extract_structure_markers html_content in
  let structured_text := build_structured_text clean_text markers in
  {| raw_text := clean_text;
     structured_text := structured_text;
     line_mapping := ∅;
     page_mapping := ∅;
     division_mapping := ∅ |}.
End StructureAnalyzer.

Section ReferenceFormats.
Context `{UnicodeData}.

(** [re.match(r, s)]: the first match at the start of [s]. *)
Definition re_match (ic : bool) (r : regex) (s : pystr) : option (list pystr) :=
  match match_here ic r s [] with
  | m :: _ => Some (snd m)
  | [] => None
  end.

(** [TLGReferenceParser.validate_reference_format] *)
Definition validate_reference_format (author_id work_id : pystr) : bool :=
  bool_decide (is_Some (re_match false (times 4 Digit Empty) author_id))
  && bool_decide (is_Some (re_match false (times 3 Digit Empty) work_id)).
End ReferenceFormats.

Section Preserver.
Context `{UnicodeData} `{HtmlLibrary}.

(** [TLGReferencePreserver.preserve_extraction_references]; [created] and
    [validated] are the two readings of the clock, and [None] stands for
    the [KeyError] of [create_reference_from_discovery]. *)
Definition preserve_extraction_references (created validated : pystr)
    (author_data work_data : gmap pystr pystr) (html_content clean_text : pystr)
  : option ValidatedExtraction :=
  tlg_reference ← create_reference_from_discovery created author_data work_data;
  let text_structure := analyze_text_structure html_content clean_text in
  let extraction := {| tlg_reference := tlg_reference;
                       text_structure := text_structure;
                       validation_metrics := None |} in
  let validation_results := validate_extraction validated extraction in
  Some {| tlg_reference := tlg_reference;
          text_structure := text_structure;
          validation_metrics := Some validation_results |}.
End Preserver.

(** *** The reference index *)

(** [validation_metrics.get('overall_valid', False)] *)
Definition metrics_overall_valid (metrics : option extraction_validation) : bool :=
  match metrics with
  | Some v => overall_valid v
  | None => false
  end.

(** [validation_metrics.get('text_validation', {}).get('greek_ratio', 0)] *)
Definition metrics_greek_ratio (metrics : option extraction_validation) : Q :=
  match metrics with
  | Some v => text_greek_ratio (validation_text v)
  | None => 0%Q
  end.

(** [validation_metrics.get('text_validation', {}).get('word_count', 0)] *)
Definition metrics_word_count (metrics : option extraction_validation) : Z :=
  match metrics with
  | Some v =>
      match text_counts (validation_text v) with
      | Some (word_count, _, _) => word_count
      | None => 0
      end
  | None => 0
  end.

(** The entry of a work in the author index. *)
Record work_index_entry := {
  wi_title : pystr;
  wi_genre : pystr;
  wi_traditional_citation : pystr;
  wi_url : pystr;
  wi_word_count : Z;
  wi_validation_status : pystr
}.

(** The entry of an author in the author index. *)
Record author_index_entry := {
  ai_name : pystr;
  ai_description : pystr;
  ai_period : pystr;
  ai_location : pystr;
  ai_traditional_abbrev : pystr;
  ai_works : gmap pystr work_index_entry
}.

(** [authors[author_id]['works'][work_id] = entry] *)
Definition set_work (work_id : pystr) (entry : work_index_entry)
    (author : author_index_entry) : author_index_entry :=
  {| ai_name := ai_name author;
     ai_description := ai_description author;
     ai_period := ai_period author;
     ai_location := ai_location author;
     ai_traditional_abbrev := ai_traditional_abbrev author;
     ai_works := <[work_id := entry]> (ai_works author) |}.

(** The dictionary stored for an author when its first extraction is met. *)
Definition new_author_entry (ref : TLGReference) : author_index_entry :=
  {| ai_name := ref_author_name ref;
     ai_description := ref_author_description ref;
     ai_period := ref_period ref;
     ai_location := ref_location ref;
     ai_traditional_abbrev := traditional_abbreviation ref;
     ai_works := ∅ |}.

(** The dictionary stored for the work of an extraction. *)
Definition work_entry_of (extraction : ValidatedExtraction) : work_index_entry :=
  let ref := tlg_reference extraction in
  {| wi_title := ref_work_title ref;
     wi_genre := ref_work_genre ref;
     wi_traditional_citation := traditional_citation ref;
     wi_url := ref_url ref;
     wi_word_count := metrics_word_count (validation_metrics extraction);
     wi_validation_status :=
       if metrics_overall_valid (validation_metrics extraction)
       then py "valid" else py "invalid" |}.

(** One iteration of [for extraction in extractions:] of [_build_author_index]. *)
Definition index_extraction (authors : gmap pystr author_index_entry)
    (extraction : ValidatedExtraction) : gmap pystr author_index_entry :=
  let ref := tlg_reference extraction in
  let author_id := ref_author_id ref in
  let authors :=
    if bool_decide (author_id ∉ dom authors)
    then <[author_id := new_author_entry ref]> authors
    else authors in
  alter (set_work (ref_work_id ref) (work_entry_of extraction)) author_id authors.

(** [TLGReferencePreserver._build_author_index] *)
Definition _build_author_index (extractions : list ValidatedExtraction)
  : gmap pystr author_index_entry :=
  fold_left index_extraction extractions ∅.

(** [sum(xs)] on ratios. *)
Definition sumQ (xs : list Q) : Q := fold_left Qplus xs 0%Q.

(** [sum(ratios) / len(extractions) if extractions else 0] *)
Definition avg_greek_ratio (extractions : list ValidatedExtraction) : Q :=
  if negb (bool_decide (extractions = [])) then
    (sumQ (List.map (fun e => metrics_greek_ratio (validation_metrics e)) extractions)
     / inject_Z (len extractions))%Q
  else 0%Q.

(** The dictionary [index_data['tlg_corpus_index']] written by
    [save_reference_index]. *)
Record corpus_index := {
  index_extraction_date : pystr;
  index_total_works : Z;
  index_total_authors : Z;
  index_valid_extractions : Z;
  index_avg_greek_ratio : Q;
  index_authors : gmap pystr author_index_entry
}.

(** [TLGReferencePreserver.save_reference_index]: the data given to
    [json.dump]; [now] is [datetime.now().isoformat()]. *)
Definition save_reference_index (now : pystr) (extractions : list ValidatedExtraction)
  : corpus_index :=
  {| index_extraction_date := now;
     index_total_works := len extractions;
     index_total_authors :=
       Z.of_nat (size (list_to_set (C:=gset pystr)
                         (List.map (fun e => ref_author_id (tlg_reference e)) extractions)));
     index_valid_extractions :=
       len (List.filter (fun e => metrics_overall_valid (validation_metrics e)) extractions);
     index_avg_greek_ratio := avg_greek_ratio extractions;
     index_authors := _build_author_index extractions |}.

(** ** Vocabulary for the text functions *)

(** The lines of a text made by ['\n'.join(lines)] from non-empty lines. *)
Definition output_lines (text : pystr) : list pystr :=
  if truthy text then split_on newline text else [].

(** The lines of a text that are not blank, stripped, in their order. *)
Definition non_blank_lines (text : pystr) : list pystr :=
  List.map strip (List.filter (fun p => truthy (strip p)) (split_on newline text)).

(** [a] starts with [n] decimal digits. *)
Definition starts_with_digits `{UnicodeData} (n : nat) (a : pystr) : Prop :=
  exists d rest, a = d ++ rest /\ digits n d.

(** [s] does not contain [sub]. *)
Definition lacks (sub s : pystr) : Prop :=
  forall pre post, s <> pre ++ sub ++ post.

Section FilterVocabulary.
Context `{UnicodeData}.

(** One of the metadata patterns is found in the line. *)
Definition has_metadata_marker (line : pystr) : bool :=
  existsb (fun pattern => bool_decide (is_Some (re_search true pattern line)))
          metadata_patterns.

(** No metadata pattern is found in the line and at least a tenth of
    its characters are in the two Greek ranges. *)
Definition kept_as_greek (line : pystr) : bool :=
  negb (has_metadata_marker line)
  && Qleb (1 # 10) (ratio (count in_greek_ranges line) (len line)).
End FilterVocabulary.

(** The path of a work's address, with [underscore] as the spelling of
    the underscore. *)
Definition work_path (tlg_id underscore work_id_str : pystr) : pystr :=
  py "/TLG" ++ tlg_id ++ py "/" ++ tlg_id ++ underscore ++ work_id_str ++ py ".htm".

(** ** Vocabulary for the fetcher and the discoverers *)

(** The time slept in a log. *)
Fixpoint total_sleep (evs : list event) : Q :=
  match evs with
  | [] => 0%Q
  | Sleep seconds :: evs' => (seconds + total_sleep evs')%Q
  | _ :: evs' => total_sleep evs'
  end.

(** A host that refuses every request with 503, and one on which every
    request fails. *)
Definition refusing_server : Server := fun _ _ => HttpResponse 503 None.
Definition failing_server : Server := fun _ _ => RequestError.

(** A work as [TLGDiscovery.discover_author_works] records it for the
    candidate [k] of author [tlg_id]. *)
Definition recorded_work (base tlg_id : pystr) (k : Z) (w : TLGWork) : Prop :=
  work_id w = format_03d k
  /\ title w = py "Work " ++ format_03d k
  /\ (url w = plain_url base tlg_id (format_03d k)
      \/ url w = encoded_url base tlg_id (format_03d k))
  /\ exists size, estimated_size w = Some size /\ 1000 < size.

(** The same for the dictionaries of [TLGIntegratedExtractor]. *)
Definition recorded_entry (base tlg_id : pystr) (k : Z) (w : work_entry) : Prop :=
  entry_work_id w = format_03d k
  /\ (entry_url w = plain_url base tlg_id (format_03d k)
      \/ entry_url w = encoded_url base tlg_id (format_03d k))
  /\ 1000 < entry_estimated_size w.

(** ** Vocabulary for the coverage report *)

(** The strict order of the keys [(author_id, work_id)]. *)
Definition key_lt (k1 k2 : pystr * pystr) : Prop := key_le k1 k2 /\ k1 <> k2.

(** The third and fourth columns of a row. *)
Definition row_author_name (row : list json) : json := nth 2 row (JStr []).
Definition row_work_title (row : list json) : json := nth 3 row (JStr []).

(** The author name and the title that a catalogue has for a work, the
    empty string standing for a missing one. *)
Definition catalogued (catalogue : gmap pystr author_meta) (key : pystr * pystr)
  : option (json * json) :=
  author ← catalogue !! fst key;
  works ← author_works author;
  work ← works !! snd key;
  Some (default (JStr []) (author_name author), default (JStr []) (work_title work)).

(** ** [tlg_integrated_extractor.py]: the validation report *)

(** An entry of ['validation_failures']. *)
Record validation_failure := {
  failure_reference : pystr;
  failure_author : pystr;
  failure_issues : option extraction_validation
}.

(** The dictionary written by [save_validation_report]. *)
Record validation_report := {
  report_total_works : Z;
  report_valid_works : Z;
  report_validation_rate : Q;
  report_avg_greek_ratio : Q;
  report_failures : list validation_failure
}.

(** [TLGIntegratedExtractor.save_validation_report], on [self.extracted_works]. *)
Definition save_validation_report (extracted_works : list ValidatedExtraction)
  : validation_report :=
  let valid_works :=
    List.filter (fun e => metrics_overall_valid (validation_metrics e)) extracted_works in
  {| report_total_works := len extracted_works;
     report_valid_works := len valid_works;
     report_validation_rate :=
       if negb (bool_decide (extracted_works = []))
       then (inject_Z (len valid_works) / inject_Z (len extracted_works) * 100)%Q
       else 0%Q;
     report_avg_greek_ratio := avg_greek_ratio extracted_works;
     report_failures :=
       List.map
         (fun e =>
            {| failure_reference :=
                 py "TLG" ++ ref_author_id (tlg_reference e) ++ py "."
                 ++ ref_work_id (tlg_reference e);
               failure_author := ref_author_name (tlg_reference e);
               failure_issues := validation_metrics e |})
         (List.filter (fun e => negb (metrics_overall_valid (validation_metrics e)))
                      extracted_works) |}.

(** ** Vocabulary for the indexes and reports *)

(** The entry [f] of ['validation_failures'] reports the extraction [e]. *)
Definition reports_failure (f : validation_failure) (e : ValidatedExtraction) : Prop :=
  failure_reference f
  = py "TLG" ++ ref_author_id (tlg_reference e) ++ py "." ++ ref_work_id (tlg_reference e)
  /\ failure_author f = ref_author_name (tlg_reference e)
  /\ failure_issues f = validation_metrics e.

(** The extraction is of the author [author_id]; of its work [work_id]. *)
Definition is_author (author_id : pystr) (e : ValidatedExtraction) : bool :=
  bool_decide (ref_author_id (tlg_reference e) = author_id).
Definition is_work (author_id work_id : pystr) (e : ValidatedExtraction) : bool :=
  is_author author_id e && bool_decide (ref_work_id (tlg_reference e) = work_id).

(** The metrics of an extraction are empty, or were computed by
    [validate_extraction]. *)
Definition validated_or_bare `{UnicodeData} (e : ValidatedExtraction) : Prop :=
  validation_metrics e = None
  \/ exists now e', validation_metrics e = Some (validate_extraction now e').

(** ** [tlg_integrated_extractor.py]: extraction of a work *)

(** [CONFIG["extraction"]]: the content thresholds and the selectors (which
    BeautifulSoup accepts).  [greek_threshold] is the decimal number written
    in [config.yaml]; like the thresholds of the validator it is compared
    with ratios as a rational. *)
Class ExtractionConfig := {
  config_min_text_length : Z;       (* ["content_validation"]["min_text_length"] *)
  greek_threshold : Q;              (* ["content_validation"]["greek_threshold"] *)
  primary_selectors : list pystr;   (* ["selectors"]["primary"] *)
  fallback_selectors : list pystr   (* ["selectors"]["fallback"] *)
}.

(** A value returned, or a [KeyError] raised for the given key. *)
Inductive raised (A : Type) :=
| Done (a : A)
| KeyError (key : pystr).
Arguments Done {A} a.
Arguments KeyError {A} key.

(** [self.stats] of [TLGIntegratedExtractor] (the counters). *)
Record extractor_stats := {
  total_discovered : Z;
  total_extracted : Z;
  successful_extractions : Z;
  failed_extractions : Z;
  validation_failures : Z
}.

(** The state of a [TLGIntegratedExtractor]. *)
Record extractor := {
  extracted_works : list ValidatedExtraction;
  processed_works : gset pystr;
  stats : extractor_stats
}.

(** [self.stats['failed_extractions'] += 1] and the like. *)
Definition count_failed (self : extractor) : extractor :=
  {| extracted_works := extracted_works self;
     processed_works := processed_works self;
     stats := {| total_discovered := total_discovered (stats self);
                 total_extracted := total_extracted (stats self);
                 successful_extractions := successful_extractions (stats self);
                 failed_extractions := failed_extractions (stats self) + 1;
                 validation_failures := validation_failures (stats self) |} |}.

Definition count_successful (self : extractor) : extractor :=
  {| extracted_works := extracted_works self;
     processed_works := processed_works self;
     stats := {| total_discovered := total_discovered (stats self);
                 total_extracted := total_extracted (stats self);
                 successful_extractions := successful_extractions (stats self) + 1;
                 failed_extractions := failed_extractions (stats self);
                 validation_failures := validation_failures (stats self) |} |}.

Definition count_validation_failure (self : extractor) : extractor :=
  {| extracted_works := extracted_works self;
     processed_works := processed_works self;
     stats := {| total_discovered := total_discovered (stats self);
                 total_extracted := total_extracted (stats self);
                 successful_extractions := successful_extractions (stats self);
                 failed_extractions := failed_extractions (stats self);
                 validation_failures := validation_failures (stats self) + 1 |} |}.

(** [self.processed_works.add(work_key)] *)
Definition add_processed (work_key : pystr) (self : extractor) : extractor :=
  {| extracted_works := extracted_works self;
     processed_works := {[ work_key ]} ∪ processed_works self;
     stats := stats self |}.

Section IntegratedExtraction.
Context `{UnicodeData} `{HtmlLibrary} `{ExtractionConfig} `{Config} `{Server}.

(** [TLGIntegratedExtractor.is_substantial_greek_text] *)
Definition is_substantial_greek_text (text : pystr) : bool :=
  if negb (truthy text) || (len text <? config_min_text_length) then false
  else
    let '(greek_chars, total_chars) := fold_left count_char text (0, 0) in
    if total_chars =? 0 then false
    else Qleb greek_threshold (ratio greek_chars total_chars).

(** [for selector in selectors:] of [extract_greek_from_html]: the text
    returned inside the loop, if any. *)
Fixpoint first_substantial (html_content : pystr) (selectors : list pystr)
  : option pystr :=
  match selectors with
  | [] => None
  | selector :: rest =>
      let elements := select_texts html_content selector in
      if negb (bool_decide (elements = [])) then
        let text := join (py " ") elements in
        if is_substantial_greek_text text then Some (strip text)
        else first_substantial html_content rest
      else first_substantial html_content rest
  end.

(** [TLGIntegratedExtractor.extract_greek_from_html] *)
Definition extract_greek_from_html (html_content : pystr) : option pystr :=
  match first_substantial html_content primary_selectors with
  | Some text => Some text
  | None =>
      match first_substantial html_content fallback_selectors with
      | Some text => Some text
      | None =>
          let full_text := soup_get_text html_content in
          if is_substantial_greek_text full_text then Some (strip full_text)
          else None
      end
  end.

(** [TLGIntegratedExtractor.extract_work_with_references]; [created] and
    [validated] are the readings of the clock in
    [preserve_extraction_references]. *)
Definition extract_work_with_references (created validated : pystr)
    (author_data work_data : gmap pystr pystr) (self : extractor)
  : M (raised (option ValidatedExtraction) * extractor) :=
  match author_data !! py "tlg_id" with
  | None => ret (KeyError (py "tlg_id"), self)
  | Some tlg_id =>
      match work_data !! py "work_id" with
      | None => ret (KeyError (py "work_id"), self)
      | Some work_id =>
          let work_key := tlg_id ++ py "_" ++ work_id in
          if bool_decide (work_key ∈ processed_works self) then ret (Done None, self)
          else
            match work_data !! py "url" with
            | None => ret (KeyError (py "url"), self)
            | Some url =>
                let* html_content := TLGIntegratedExtractor_fetch_page url 3 in
                if negb (truthy_opt html_content) then ret (Done None, count_failed self)
                else
                  let html_content := default [] html_content in
                  let clean_text := extract_greek_from_html html_content in
                  if negb (truthy_opt clean_text) then ret (Done None, count_failed self)
                  else
                    let clean_text := default [] clean_text in
                    match preserve_extraction_references created validated
                            author_data work_data html_content clean_text with
                    | Some validated_extraction =>
                        let self :=
                          if metrics_overall_valid
                               (validation_metrics validated_extraction)
                          then count_successful self
                          else count_validation_failure self in
                        ret (Done (Some validated_extraction),
                             add_processed work_key self)
                    | None => ret (Done None, count_failed self)
                    end
            end
      end
  end.
End IntegratedExtraction.

(** ** Vocabulary for the extraction of a work *)

(** The three outcome counters together. *)
Definition outcomes_counted (self : extractor) : Z :=
  successful_extractions (stats self) + failed_extractions (stats self)
  + validation_failures (stats self).

(** No white-space character is alphabetic (as in the Unicode database). *)
Definition spaces_are_not_letters `{UnicodeData} : Prop :=
  forall c, isspace c = true -> isalpha c = false.

(** A sample extraction configuration: the thresholds of the validator. *)
Definition sample_extraction_config : ExtractionConfig := {|
  config_min_text_length := 50;
  greek_threshold := 2 # 10;
  primary_selectors := [py "td"];
  fallback_selectors := [py "body"]
|}.

(** A page library that finds a cell holding the whole page under every
    selector and no structure marker. *)
Definition plain_pages : HtmlLibrary := {|
  finditer_ignorecase := fun _ _ => [];
  select_texts := fun html _ => [html];
  soup_get_text := fun html => html
|}.

(** A host that serves a page of sixty alphas at every address. *)
Definition alpha_server : Server := fun _ _ => HttpResponse 200 (Some (repeat 0x3B1%N 60)).

(** A fresh [TLGIntegratedExtractor]. *)
Definition fresh_extractor : extractor := {|
  extracted_works := [];
  processed_works := ∅;
  stats := {| total_discovered := 0; total_extracted := 0; successful_extractions := 0;
              failed_extractions := 0; validation_failures := 0 |}
|}.

(** The discovery data of Homer and of the Iliad. *)
Definition homer_data : gmap pystr pystr :=
  {[ py "tlg_id" := py "0012"; py "name" := py "HOMERUS" ]}.
Definition iliad_data : gmap pystr pystr :=
  {[ py "work_id" := py "001";
     py "url" := py "http://217.71.231.54:8080/TLG0012/0012_001.htm" ]}.

(** ** [tlg_corrected_extractor.py]: [TLGCorrectedExtractor] *)

(** The dictionary returned by [fetch_and_extract_work]. *)
Record corrected_extraction := {
  ce_author_id : pystr;
  ce_work_id : pystr;
  ce_work_title : pystr;
  ce_url : pystr;
  ce_extraction_date : pystr;
  ce_greek_text : pystr;
  ce_metadata : pystr;
  ce_mixed_content : pystr;
  ce_total_chars : Z;
  ce_greek_chars : Z;
  ce_greek_ratio : Q;
  has_substantial_greek : bool
}.

Section CorrectedExtractor.
Context `{UnicodeData} `{HtmlLibrary} `{ExtractionConfig} `{Config} `{Server}.

(** [for selector in CONFIG["extraction"]["selectors"]["primary"]:] of
    [fetch_and_extract_work]: the value of [extracted_text] after the loop. *)
Fixpoint first_long_text (html_content : pystr) (selectors : list pystr) : option pystr :=
  match selectors with
  | [] => None
  | selector :: rest =>
      let elements := select_texts html_content selector in
      if negb (bool_decide (elements = [])) then
        let all_text := join (py " ") elements in
        if 100 <? len all_text then Some all_text
        else first_long_text html_content rest
      else first_long_text html_content rest
  end.

(** [TLGCorrectedExtractor.fetch_and_extract_work]; [now] is
    [datetime.now().isoformat()]. *)
Definition fetch_and_extract_work (now author_id work_id work_title : pystr)
  : M (option corrected_extraction) :=
  let url := base_url ++ py "/TLG" ++ author_id ++ py "/" ++ author_id ++ py "_"
             ++ work_id ++ py ".htm" in
  let* response := http_get url in
  match response with
  | HttpResponse status text =>
      if negb (status =? 200) then ret None
      else
        match text with
        | None => ret None
        | Some html_content =>
            let extracted_text := first_long_text html_content primary_selectors in
            if negb (truthy_opt extracted_text) then ret None
            else
              let filtered_content :=
                separate_greek_from_metadata (default [] extracted_text) in
              let greek_text := greek_text filtered_content in
              let greek_chars := count in_greek_ranges greek_text in
              let total_chars := if truthy greek_text then len greek_text else 0 in
              let greek_ratio :=
                if 0 <? total_chars then ratio greek_chars total_chars else 0%Q in
              ret (Some {| ce_author_id := author_id;
                           ce_work_id := work_id;
                           ce_work_title := work_title;
                           ce_url := url;
                           ce_extraction_date := now;
                           ce_greek_text := greek_text;
                           ce_metadata := metadata filtered_content;
                           ce_mixed_content := take 1000 (mixed_content filtered_content);
                           ce_total_chars := total_chars;
                           ce_greek_chars := greek_chars;
                           ce_greek_ratio := greek_ratio;
                           has_substantial_greek :=
                             Qltb (3 # 10) greek_ratio && (100 <? total_chars) |})
        end
  | RequestError => ret None
  end.
End CorrectedExtractor.

(** A host that serves, at every address, three lines of fifty alphas. *)
Definition three_lines : pystr :=
  repeat 0x3B1%N 50 ++ [newline] ++ repeat 0x3B1%N 50 ++ [newline] ++ repeat 0x3B1%N 50.
Definition lines_server : Server := fun _ _ => HttpResponse 200 (Some three_lines).

(** ** [discover_tlg.py]: the authors of the index *)

(** [discover_tlg.TLGAuthor] *)
Record TLGAuthor := {
  a_tlg_id : pystr;
  a_name : pystr;
  a_description : pystr;
  a_location : pystr;
  a_period : pystr;
  a_work_count : Z;
  a_works : list TLGWork;
  a_discovery_method : pystr
}.

(** A dictionary appended by [parse_index_page]. *)
Record index_entry := {
  ie_tlg_id : pystr;
  ie_name : pystr;
  ie_description : pystr;
  ie_location : pystr;
  ie_period : pystr;
  ie_work_count : Z;
  ie_index_url : pystr
}.

(** The address of the index ([urljoin(BASE_URL, CONFIG["source"]["index_url"])])
    and the entries that [parse_index_page] reads from a page with
    BeautifulSoup. *)
Class IndexPage := {
  INDEX_URL : pystr;
  parse_index_page : pystr -> list index_entry
}.

(** [int(s)]; [None] stands for a [ValueError]. *)
Class Builtins := py_int : pystr -> option Z.

(** A dictionary with string keys, in insertion order. *)
Abbreviation dict V := (list (pystr * V)).

(** [d[k] = v]: a key that is present keeps its place. *)
Fixpoint dict_set {V} (k : pystr) (v : V) (d : dict V) : dict V :=
  match d with
  | [] => [(k, v)]
  | (k', v') :: d' =>
      if bool_decide (k' = k) then (k, v) :: d' else (k', v') :: dict_set k v d'
  end.

(** [d.get(k)] *)
Fixpoint dict_get {V} (k : pystr) (d : dict V) : option V :=
  match d with
  | [] => None
  | (k', v') :: d' => if bool_decide (k' = k) then Some v' else dict_get k d'
  end.

(** [d.values()] *)
Definition dict_values {V} (d : dict V) : list V := List.map snd d.

(** The state of a [TLGDiscovery]. *)
Record discovery := {
  authors : dict TLGAuthor;
  processed_authors : gset pystr
}.

Section AllAuthors.
Context `{Config} `{Server} `{IndexPage}.

(** One iteration of [for i, entry in enumerate(author_entries, 1):].
    The checkpoint written every fifty entries is left out: it changes
    neither the discoverer nor the log of the network, and an error in it
    is caught by the [except] of the loop body. *)
Definition discover_entry (entry : index_entry) (self : discovery)
  : M (discovery * bool) :=
  let tlg_id := ie_tlg_id entry in
  if bool_decide (tlg_id ∈ processed_authors self) then ret (self, false)
  else
    let* works := TLGDiscovery_discover_author_works tlg_id default_max_works in
    let author := {| a_tlg_id := tlg_id;
                     a_name := ie_name entry;
                     a_description := ie_description entry;
                     a_location := ie_location entry;
                     a_period := ie_period entry;
                     a_work_count := len works;
                     a_works := works;
                     a_discovery_method := py "index_crawl" |} in
    ret ({| authors := dict_set tlg_id author (authors self);
            processed_authors := {[ tlg_id ]} ∪ processed_authors self |}, false).

(** [TLGDiscovery.discover_all_authors]: the dictionary returned and the
    discoverer afterwards. *)
Definition discover_all_authors (self : discovery) : M (dict TLGAuthor * discovery) :=
  let* index_content := TLGDiscovery_fetch_page INDEX_URL in
  if negb (truthy_opt index_content) then ret ([], self)
  else
    let author_entries := parse_index_page (default [] index_content) in
    let* self := for_each author_entries discover_entry self in
    ret (authors self, self).
End AllAuthors.

(** The dictionary written by [save_catalogue]. *)
Record catalogue := {
  catalogue_discovery_date : pystr;
  catalogue_total_authors : Z;
  catalogue_total_works : Z;
  catalogue_period_statistics : gmap pystr Z;
  catalogue_authors : list TLGAuthor
}.

(** [period = author.period or "Unknown"] and the two statements that count it. *)
Definition count_period (period_stats : gmap pystr Z) (author : TLGAuthor)
  : gmap pystr Z :=
  let period := if truthy (a_period author) then a_period author else py "Unknown" in
  let period_stats :=
    if bool_decide (period ∉ dom period_stats) then <[period := 0]> period_stats
    else period_stats in
  <[period := default 0 (period_stats !! period) + 1]> period_stats.

(** [sorted(xs, key=key)] for integer keys: a stable sort. *)
Fixpoint insert_by {A} (key : A -> Z) (x : A) (sorted_tail : list A) : list A :=
  match sorted_tail with
  | [] => [x]
  | y :: rest => if key x <=? key y then x :: y :: rest else y :: insert_by key x rest
  end.

Definition sorted_by {A} (key : A -> Z) (xs : list A) : list A :=
  fold_right (insert_by key) [] xs.

Section Catalogue.
Context `{Builtins}.

(** [TLGDiscovery.save_catalogue]: the data given to [json.dump]; [now]
    is [datetime.now().isoformat()], and [None] stands for the
    [ValueError] of [int(a.tlg_id)]. *)
Definition save_catalogue (now : pystr) (self : discovery) : option catalogue :=
  let total_works := sum_of (List.map (fun author => len (a_works author))
                                      (dict_values (authors self))) in
  let period_stats := fold_left count_period (dict_values (authors self)) ∅ in
  keys ← mapM (fun author => py_int (a_tlg_id author)) (dict_values (authors self));
  Some {| catalogue_discovery_date := now;
          catalogue_total_authors := len (authors self);
          catalogue_total_works := total_works;
          catalogue_period_statistics := period_stats;
          catalogue_authors :=
            List.map snd (sorted_by fst (zip keys (dict_values (authors self)))) |}.
End Catalogue.

(** ** Vocabulary for the discovery of all authors *)

(** The label under which an author is counted in the period statistics. *)
Definition period_label (author : TLGAuthor) : pystr :=
  if truthy (a_period author) then a_period author else py "Unknown".

(** [work_count] is the number of works of the author. *)
Definition counts_its_works (author : TLGAuthor) : Prop :=
  a_work_count author = len (a_works author).

(** The number of entries of a dictionary of counts, added up. *)
Definition total_count (counts : gmap pystr Z) : Z :=
  map_fold (fun _ n total => n + total) 0 counts.

(** An index page library that reads two authors from every page. *)
Definition two_authors : IndexPage := {|
  INDEX_URL := py "http://217.71.231.54:8080/indices/indexA.htm";
  parse_index_page := fun _ =>
    [ {| ie_tlg_id := py "0012"; ie_name := py "HOMERUS"; ie_description := py "Epic.";
         ie_location := []; ie_period := py "8 B.C."; ie_work_count := 0;
         ie_index_url := [] |};
      {| ie_tlg_id := py "0020"; ie_name := py "HESIODUS"; ie_description := py "Epic.";
         ie_location := []; ie_period := []; ie_work_count := 0;
         ie_index_url := [] |} ]
|}.

(** A fresh [TLGDiscovery]. *)
Definition fresh_discovery : discovery := {| authors := []; processed_authors := ∅ |}.

(** A host that has the index page and the two works of [homer_server]. *)
Definition index_server : Server := fun h url =>
  if bool_decide (url = py "http://217.71.231.54:8080/indices/indexA.htm")
  then HttpResponse 200 (Some (py "<table></table>"))
  else homer_server h url.

(** The number of authors counted under a label. *)
Definition labelled (label : pystr) (listed : list TLGAuthor) : Z :=
  len (List.filter (fun author => bool_decide (period_label author = label)) listed).

(** The order of the catalogue: by the number that the identifier spells. *)
Definition numbered_before `{Builtins} (a b : TLGAuthor) : Prop :=
  exists ka kb, py_int (a_tlg_id a) = Some ka /\ py_int (a_tlg_id b) = Some kb /\ ka <= kb.

(** [int] on strings of ASCII digits (and nothing else). *)
Fixpoint digits_value (acc : Z) (s : pystr) : option Z :=
  match s with
  | [] => Some acc
  | c :: s' =>
      if ascii_isdigit c then digits_value (10 * acc + Z.of_N (c - 48)) s' else None
  end.
Definition decimal_int : Builtins := fun s =>
  match s with
  | [] => None
  | _ => digits_value 0 s
  end.

(** A discoverer that has recorded Hesiod, then Homer. *)
Definition two_recorded : discovery := {|
  authors :=
    [ (py "0020", {| a_tlg_id := py "0020"; a_name := py "HESIODUS"; a_description := [];
                     a_location := []; a_period := []; a_work_count := 0; a_works := [];
                     a_discovery_method := py "index_crawl" |});
      (py "0012", {| a_tlg_id := py "0012"; a_name := py "HOMERUS"; a_description := [];
                     a_location := []; a_period := py "8 B.C."; a_work_count := 0;
                     a_works := []; a_discovery_method := py "index_crawl" |}) ];
  processed_authors := {[ py "0020"; py "0012" ]}
|}.

(** What the two discoverers record of a work: identifier, address, size. *)
Definition work_facts (w : TLGWork) : pystr * pystr * option Z :=
  (work_id w, url w, estimated_size w).
Definition entry_facts (w : work_entry) : pystr * pystr * option Z :=
  (entry_work_id w, entry_url w, Some (entry_estimated_size w)).

(** The sample configuration with two attempts for every page. *)
Definition two_attempts_config : Config := {|
  base_url := py "http://217.71.231.54:8080";
  max_retries := 2;
  retry_on_status := [429; 500; 502; 503; 504];
  base_delay := 3 # 2
|}.


(** * Properties *)

(** ** Strings *)

Lemma len_app {A} (a b : list A) : len (a ++ b) = len a + len b.
Proof. unfold len. rewrite length_app. lia. Qed.

Lemma len_nonneg {A} (a : list A) : 0 <= len a.
Proof. unfold len. lia. Qed.

Lemma truthy_true (s : pystr) : truthy s = true <-> s <> [].
Proof. destruct s; simpl; split; congruence. Qed.

Lemma lstrip_suffix (s : pystr) : exists pre, s = pre ++ lstrip s.
Proof.
  induction s as [|c s [pre IH]]; simpl.
  - now exists [].
  - destruct (isspace c).
    + exists (c :: pre). simpl. now f_equal.
    + now exists [].
Qed.

Lemma strip_infix (s : pystr) : exists pre post, s = pre ++ strip s ++ post.
Proof.
  unfold strip, rstrip.
  destruct (lstrip_suffix s) as [pre Hpre].
  destruct (lstrip_suffix (rev (lstrip s))) as [post Hpost].
  exists pre, (rev post).
  rewrite Hpre at 1. f_equal.
  rewrite <- (rev_involutive (lstrip s)) at 1.
  rewrite Hpost at 1. now rewrite rev_app_distr.
Qed.

Lemma strip_no_newline (s : pystr) : ~ In newline s -> ~ In newline (strip s).
Proof.
  intros Hs Hin. destruct (strip_infix s) as (pre & post & E).
  apply Hs. rewrite E. apply in_or_app. right. apply in_or_app. now left.
Qed.

Lemma split_on_not_nil sep s : split_on sep s <> [].
Proof. induction s; simpl; [easy|]. destruct (_ =? _)%N; [easy|]. now destruct (split_on sep s). Qed.

Lemma split_on_no_sep sep s : Forall (fun l => ~ In sep l) (split_on sep s).
Proof.
  induction s as [|c s IH]; simpl.
  - repeat constructor. easy.
  - destruct (N.eqb_spec c sep) as [->|Hne].
    + constructor; [easy|assumption].
    + destruct (split_on sep s) as [|l ls]; [repeat constructor; simpl; intuition|].
      inversion IH; subst. constructor; [|assumption].
      simpl. intros [?|?]; [congruence|contradiction].
Qed.

Lemma split_on_app_sep sep a b :
  ~ In sep a -> split_on sep (a ++ sep :: b) = a :: split_on sep b.
Proof.
  induction a as [|c a IH]; simpl; intros Hn.
  - now rewrite N.eqb_refl.
  - destruct (N.eqb_spec c sep) as [->|Hne]; [exfalso; auto|].
    rewrite IH by auto. reflexivity.
Qed.

Lemma split_on_whole sep a : ~ In sep a -> split_on sep a = [a].
Proof.
  induction a as [|c a IH]; simpl; intros Hn; [reflexivity|].
  destruct (N.eqb_spec c sep) as [->|Hne]; [exfalso; auto|].
  rewrite IH by auto. reflexivity.
Qed.

(** Splitting what was joined gives the parts back. *)
Lemma split_on_join sep (parts : list pystr) :
  parts <> [] -> Forall (fun l => ~ In sep l) parts ->
  split_on sep (join [sep] parts) = parts.
Proof.
  induction parts as [|p ps IH]; [easy|]. intros _ Hall.
  inversion Hall as [|? ? Hp Hps]; subst.
  destruct ps as [|q qs].
  - simpl. now apply split_on_whole.
  - change (join [sep] (p :: q :: qs)) with (p ++ sep :: join [sep] (q :: qs)).
    rewrite split_on_app_sep by assumption. f_equal. now apply IH.
Qed.

(** ** Rational thresholds *)

Lemma ratio_self n : 0 < n -> (ratio n n == 1)%Q.
Proof.
  intros Hn. unfold ratio. apply Qmult_inv_r.
  intros E. unfold Qeq in E. simpl in E. lia.
Qed.

Lemma ratio_bounds a b : 0 <= a <= b -> 0 < b -> (0 <= ratio a b <= 1)%Q.
Proof.
  intros Ha Hb. unfold ratio.
  assert (Hb' : (0 < inject_Z b)%Q) by (unfold Qlt; simpl; lia).
  split.
  - apply Qle_shift_div_l; [assumption|]. rewrite Qmult_0_l.
    unfold Qle; simpl; lia.
  - apply Qle_shift_div_r; [assumption|]. rewrite Qmult_1_l.
    unfold Qle; simpl; lia.
Qed.

Lemma Qltb_true x y : Qltb x y = true <-> (x < y)%Q.
Proof.
  unfold Qltb. rewrite negb_true_iff. split.
  - intros E. apply Qnot_le_lt. intros Hle. apply Qle_bool_iff in Hle. congruence.
  - intros Hlt. destruct (Qle_bool y x) eqn:E; [|reflexivity].
    apply Qle_bool_iff in E. exfalso. revert E. now apply Qlt_not_le.
Qed.

Lemma Qltb_false x y : Qltb x y = false <-> (y <= x)%Q.
Proof.
  unfold Qltb. rewrite negb_false_iff. apply Qle_bool_iff.
Qed.

(** ** The Greek text filter *)

Lemma count_all (p : N -> bool) (s : pystr) :
  Forall (fun c => p c = true) s -> count p s = len s.
Proof.
  intros Hall. unfold count. f_equal.
  induction Hall as [|c s Hc _ IH]; simpl; [reflexivity|]. now rewrite Hc, IH.
Qed.

Lemma existsb_all_false {A} (f : A -> bool) (l : list A) :
  Forall (fun x => f x = false) l -> existsb f l = false.
Proof. induction 1 as [|x l Hx _ IH]; simpl; [reflexivity|]. now rewrite Hx. Qed.

Lemma extra_cases_ascii lo :
  (lo < 128)%N -> Forall (fun k => (k < 0x370)%N) (extra_cases lo).
Proof.
  intros Hlo. unfold extra_cases.
  repeat match goal with
         | |- context [(lo =? ?k)%N] =>
             destruct (N.eqb_spec lo k); [repeat constructor; lia|]
         end.
  constructor.
Qed.

Lemma greek_not_ascii c : in_greek_ranges c = true -> (0x370 <= c)%N.
Proof.
  unfold in_greek_ranges. intros Hc.
  apply orb_true_iff in Hc as [Hc|Hc]; apply andb_true_iff in Hc as [Hc _];
    apply N.leb_le in Hc; lia.
Qed.

Lemma greek_lowercase_in_block :
  forallb (fun r =>
             let '(first, last, image) := r in
             (first <=? last)
             && ((0x370 <=? image) && (image + (last - first) <=? 0x3FF)
                 || (0x1F00 <=? image) && (image + (last - first) <=? 0x1FFF)))%N
          greek_lowercase = true.
Proof. vm_compute. reflexivity. Qed.

(** Lower-casing does not leave the two Greek blocks. *)
Lemma greek_tolower_greek c :
  in_greek_ranges c = true -> in_greek_ranges (greek_tolower c) = true.
Proof.
  intros Hc. unfold greek_tolower.
  destruct (List.find _ greek_lowercase) as [[[first last] image]|] eqn:E; [|assumption].
  apply find_some in E as [Hin Hr]. cbn [fst snd] in *.
  pose proof greek_lowercase_in_block as Hall.
  rewrite forallb_forall in Hall. specialize (Hall _ Hin). cbv beta iota in Hall.
  apply andb_true_iff in Hr as [H1 H2]. apply N.leb_le in H1, H2.
  apply andb_true_iff in Hall as [_ Hall].
  unfold in_greek_ranges. apply orb_true_iff.
  apply orb_true_iff in Hall as [Hall|Hall]; apply andb_true_iff in Hall as [H3 H4];
    apply N.leb_le in H3, H4; [left|right]; apply andb_true_iff; split; apply N.leb_le; lia.
Qed.

Section GreekLines.
Context `{UnicodeData}.

Lemma lower_stays_greek c :
  in_greek_ranges c = true -> in_greek_ranges (unicode_tolower c) = true.
Proof.
  intros Hc. unfold unicode_tolower. pose proof (greek_not_ascii _ Hc) as Hge.
  unfold is_ascii. destruct (N.ltb_spec c 128); [lia|].
  rewrite Hc. now apply greek_tolower_greek.
Qed.

(** An ASCII literal of a pattern never matches a Greek character, with
    or without [re.IGNORECASE]. *)
Lemma lit_matches_greek ic c ch :
  is_ascii c = true -> in_greek_ranges ch = true -> lit_matches ic c ch = false.
Proof.
  intros Hc Hch. unfold lit_matches.
  assert (Hc' : (c < 128)%N) by (now apply N.ltb_lt).
  pose proof (greek_not_ascii _ Hch) as Hge.
  destruct (ic && unicode_iscased c).
  - assert (Hlo : (unicode_tolower c < 128)%N).
    { unfold unicode_tolower. rewrite Hc. unfold ascii_tolower, ascii_isupper.
      destruct (65 <=? c)%N eqn:E1, (c <=? 90)%N eqn:E2; simpl; try lia.
      apply N.leb_le in E2. lia. }
    pose proof (greek_not_ascii _ (lower_stays_greek _ Hch)) as Hge'.
    destruct (existsb _ _) eqn:E; [|reflexivity].
    apply existsb_exists in E as (k & Hin & Hk).
    apply N.eqb_eq in Hk. destruct Hin as [<-|Hin]; [lia|].
    pose proof (extra_cases_ascii _ Hlo) as Hall.
    rewrite Forall_forall in Hall. specialize (Hall k).
    assert ((k < 880)%N) by (apply Hall; now apply list_elem_of_In).
    lia.
  - apply N.eqb_neq. lia.
Qed.

Lemma re_search_unfold ic r s :
  re_search ic r s =
  match match_here ic r s [] with
  | m :: _ => Some (snd m)
  | [] => match s with [] => None | _ :: s' => re_search ic r s' end
  end.
Proof. destruct s; reflexivity. Qed.

(** A pattern that starts with an ASCII literal is found nowhere in a
    string of Greek characters. *)
Lemma re_search_greek ic c r (s : pystr) :
  is_ascii c = true ->
  Forall (fun ch => in_greek_ranges ch = true) s ->
  re_search ic (Cat (Lit c) r) s = None.
Proof.
  intros Hc Hall. induction Hall as [|ch s Hch _ IH].
  - reflexivity.
  - rewrite re_search_unfold. simpl match_here.
    rewrite (lit_matches_greek ic c ch Hc Hch). simpl. exact IH.
Qed.

Lemma metadata_patterns_start_ascii :
  Forall (fun p => exists c r, p = Cat (Lit c) r /\ is_ascii c = true) metadata_patterns.
Proof.
  unfold metadata_patterns.
  repeat (constructor; [eexists; eexists; split; [reflexivity|reflexivity]|]).
  constructor.
Qed.

Lemma greek_line_is_not_metadata (line : pystr) :
  Forall (fun ch => in_greek_ranges ch = true) line ->
  existsb (fun pattern => bool_decide (is_Some (re_search true pattern line)))
          metadata_patterns = false.
Proof.
  intros Hall. apply existsb_all_false.
  eapply Forall_impl; [exact metadata_patterns_start_ascii|].
  intros p (c & r & -> & Hc). simpl.
  rewrite (re_search_greek true c r line Hc Hall).
  apply bool_decide_eq_false. intros [? ?]. discriminate.
Qed.

(** The loop body sends a non-empty all-Greek line to [greek_lines]. *)
Lemma separate_line_greek acc raw :
  strip raw <> [] ->
  Forall (fun ch => in_greek_ranges ch = true) (strip raw) ->
  separate_line acc raw = (fst acc ++ [strip raw], snd acc).
Proof.
  intros Hne Hall. unfold separate_line. destruct acc as [greek_lines metadata_lines].
  apply truthy_true in Hne as Ht.
  assert (Hpos : 0 < len (strip raw)).
  { unfold len. destruct (strip raw); [congruence|simpl; lia]. }
  assert (Hpos' : (0 <? len (strip raw)) = true) by (apply Z.ltb_lt; lia).
  assert (Hhalf : Qltb (1 # 2) (ratio (len (strip raw)) (len (strip raw))) = true).
  { apply Qltb_true. rewrite (ratio_self _ Hpos). reflexivity. }
  assert (Htenth : Qltb (ratio (len (strip raw)) (len (strip raw))) (1 # 10) = false).
  { apply Qltb_false. rewrite (ratio_self _ Hpos). discriminate. }
  cbv zeta.
  rewrite Ht, (greek_line_is_not_metadata _ Hall), (count_all _ _ Hall), Hpos', Hhalf, Htenth.
  cbn [negb andb orb fst snd].
  destruct (20 <? len (strip raw)); reflexivity.
Qed.

(** The loop body either skips the line or appends its stripped form to
    one of the two lists. *)
Lemma separate_line_cases acc raw :
  separate_line acc raw = acc
  \/ separate_line acc raw = (fst acc ++ [strip raw], snd acc)
  \/ separate_line acc raw = (fst acc, snd acc ++ [strip raw]).
Proof.
  unfold separate_line. destruct acc as [g m]. simpl.
  destruct (negb (truthy (strip raw))); [now left|].
  repeat match goal with |- context [if ?b then _ else _] => destruct b end; auto.
Qed.

Lemma fold_separate_grows lines acc :
  exists g m, fold_left separate_line lines acc = (fst acc ++ g, snd acc ++ m).
Proof.
  revert acc. induction lines as [|raw lines IH]; intros acc; simpl.
  - exists [], []. rewrite !app_nil_r. now destruct acc.
  - destruct (IH (separate_line acc raw)) as (g & m & E). rewrite E.
    destruct (separate_line_cases acc raw) as [E'|[E'|E']]; rewrite E'; simpl.
    + now exists g, m.
    + exists (strip raw :: g), m. now rewrite <- app_assoc.
    + exists g, (strip raw :: m). now rewrite <- app_assoc.
Qed.

(** Every line of [metadata_lines] satisfies a property that holds of the
    lines the body may append there. *)
Lemma fold_separate_metadata (P : pystr -> Prop) lines acc :
  Forall P (snd acc) ->
  Forall (fun raw => forall acc', separate_line acc' raw
                      = (fst acc', snd acc' ++ [strip raw]) -> P (strip raw)) lines ->
  Forall P (snd (fold_left separate_line lines acc)).
Proof.
  revert acc. induction lines as [|raw lines IH]; intros acc Hacc Hl; simpl; [assumption|].
  inversion Hl as [|? ? Hraw Hrest]; subst.
  apply IH; [|assumption].
  destruct (separate_line_cases acc raw) as [E|[E|E]]; rewrite E; simpl; try assumption.
  apply Forall_app. split; [assumption|]. repeat constructor. now apply (Hraw acc).
Qed.

Lemma fold_separate_greek (P : pystr -> Prop) lines acc :
  Forall P (fst acc) ->
  Forall (fun raw => P (strip raw)) lines ->
  Forall P (fst (fold_left separate_line lines acc)).
Proof.
  revert acc. induction lines as [|raw lines IH]; intros acc Hacc Hl; simpl; [assumption|].
  inversion Hl as [|? ? Hraw Hrest]; subst.
  apply IH; [|assumption].
  destruct (separate_line_cases acc raw) as [E|[E|E]]; rewrite E; simpl; try assumption.
  apply Forall_app. split; [assumption|]. now repeat constructor.
Qed.

Lemma fold_separate_keeps_greek lines raw acc :
  In raw lines ->
  strip raw <> [] ->
  Forall (fun ch => in_greek_ranges ch = true) (strip raw) ->
  In (strip raw) (fst (fold_left separate_line lines acc)).
Proof.
  revert acc. induction lines as [|raw' lines IH]; intros acc Hin Hne Hall; [easy|].
  simpl. destruct Hin as [->|Hin]; [|now apply IH].
  destruct (fold_separate_grows lines (separate_line acc raw)) as (g & m & E).
  rewrite E, (separate_line_greek acc raw Hne Hall). simpl.
  apply in_or_app. left. apply in_or_app. right. now left.
Qed.

(** C1. A line made only of characters of the two Greek ranges
    (non-empty once stripped) is a line of the ['greek_text'] output and
    is not a line of the ['metadata'] output, whatever its length. *)
Theorem greek_line_classified_as_text (mixed_text raw : pystr) :
  In raw (split_on newline mixed_text) ->
  strip raw <> [] ->
  Forall (fun ch => in_greek_ranges ch = true) (strip raw) ->
  let out := separate_greek_from_metadata mixed_text in
  In (strip raw) (split_on newline (greek_text out))
  /\ ~ In (strip raw) (split_on newline (metadata out)).
Proof.
  intros Hin Hne Hall. unfold separate_greek_from_metadata.
  pose proof (fold_separate_keeps_greek _ raw ([], []) Hin Hne Hall) as Hg.
  pose proof (split_on_no_sep newline mixed_text) as Hnl.
  assert (Hnl' : Forall (fun raw => ~ In newline (strip raw)) (split_on newline mixed_text)).
  { eapply Forall_impl; [exact Hnl|]. intros l. apply strip_no_newline. }
  pose proof (fold_separate_greek (fun l => ~ In newline l) _ ([], [])
                ltac:(constructor) Hnl') as Hgn.
  assert (Hmn : Forall (fun l => ~ In newline l /\ l <> strip raw)
                  (snd (fold_left separate_line (split_on newline mixed_text) ([], [])))).
  { apply fold_separate_metadata; [constructor|].
    eapply Forall_impl; [exact Hnl'|]. intros raw' Hraw' acc' E. split; [assumption|].
    intros Heq. rewrite Heq in E.
    rewrite <- Heq in Hne, Hall.
    rewrite (separate_line_greek acc' raw') in E; [|assumption|assumption].
    rewrite <- Heq in E.
    injection E as E1 E2. apply (f_equal (@length _)) in E1.
    rewrite length_app in E1. simpl in E1. lia. }
  destruct (fold_left separate_line (split_on newline mixed_text) ([], []))
    as [greek_lines metadata_lines]. simpl in *.
  split.
  - rewrite split_on_join; [assumption| |assumption].
    intros ->. contradiction.
  - destruct metadata_lines as [|m ms].
    + simpl. intros [E|[]]. now apply Hne.
    + rewrite split_on_join; [|easy|].
      * intros Hin'. rewrite Forall_forall in Hmn.
        apply list_elem_of_In in Hin'. now destruct (Hmn _ Hin').
      * eapply Forall_impl; [exact Hmn|]. now intros l [? _].
Qed.
End GreekLines.

Lemma greek_line_classified_as_text_witness :
  let text := py "Source: Oxford" ++ [newline] ++ [0x3BC; 0x1FC6; 0x3BD; 0x3B9; 0x3BD]%N in
  let out := @separate_greek_from_metadata ascii_only text in
  In [0x3BC; 0x1FC6; 0x3BD; 0x3B9; 0x3BD]%N (split_on newline (greek_text out))
  /\ ~ In [0x3BC; 0x1FC6; 0x3BD; 0x3B9; 0x3BD]%N (split_on newline (metadata out)).
Proof.
  apply (@greek_line_classified_as_text ascii_only
           (py "Source: Oxford" ++ [newline] ++ [0x3BC; 0x1FC6; 0x3BD; 0x3B9; 0x3BD]%N)
           [0x3BC; 0x1FC6; 0x3BD; 0x3B9; 0x3BD]%N).
  - vm_compute. right. left. reflexivity.
  - vm_compute. discriminate.
  - vm_compute. repeat constructor.
Defined.

(** A catalogue header, a verse, a dated author line and a publisher line:
    only the verse is kept as text (it is short, but it is not metadata
    and its ratio is not below 0.1). *)
Example separate_greek_from_metadata_sample :
  let mixed_text :=
    py "TLG 0012 001 :: Ilias" ++ [newline] ++ py "  " ++ menin_aeide_thea ++ [newline]
    ++ py "Homerus (8 B.C.) Epic." ++ [newline] ++ [newline] ++ py "oxford: Clarendon Press" in
  let out := @separate_greek_from_metadata ascii_only mixed_text in
  greek_text out = menin_aeide_thea
  /\ metadata out = py "TLG 0012 001 :: Ilias" ++ [newline] ++ py "Homerus (8 B.C.) Epic."
                    ++ [newline] ++ py "oxford: Clarendon Press".
Proof. vm_compute. split; reflexivity. Qed.


(** ** The page fetcher *)

Lemma gets_app evs1 evs2 : gets (evs1 ++ evs2) = gets evs1 ++ gets evs2.
Proof.
  induction evs1 as [|[u|u|d] evs1 IH]; simpl; [reflexivity|assumption| |assumption].
  now rewrite IH.
Qed.

Lemma fetch_calls_app evs1 evs2 :
  fetch_calls (evs1 ++ evs2) = fetch_calls evs1 ++ fetch_calls evs2.
Proof.
  induction evs1 as [|[u|u|d] evs1 IH]; simpl; [reflexivity| |assumption|assumption].
  now rewrite IH.
Qed.

Lemma gets_backoff_schedule url delay attempts :
  length (gets (backoff_schedule url delay attempts)) = length attempts.
Proof. induction attempts; simpl; [reflexivity|]. now rewrite IHattempts. Qed.

Lemma fetch_calls_backoff_schedule url delay attempts :
  fetch_calls (backoff_schedule url delay attempts) = [].
Proof. induction attempts; simpl; [reflexivity|assumption]. Qed.




Section Fetcher.
Context `{Config} `{Server}.

(** The two copies of the retry loop are the same function. *)
Lemma fetch_attempts_same attempts url h :
  TLGDiscovery_fetch_attempts attempts url h
  = TLGIntegratedExtractor_fetch_attempts max_retries attempts url h.
Proof.
  revert h. induction attempts as [|attempt rest IH]; intros h; [reflexivity|].
  cbn [TLGDiscovery_fetch_attempts TLGIntegratedExtractor_fetch_attempts].
  unfold bind, http_get, REQUEST_DELAY.
  destruct (server_response h url) as [status [content|]|];
    repeat match goal with |- context [if ?b then _ else _] => destruct b end;
    unfold sleep, emit, ret; rewrite ?IH; reflexivity.
Qed.

Lemma fetch_page_same url h :
  TLGDiscovery_fetch_page url h = TLGIntegratedExtractor_fetch_page url max_retries h.
Proof.
  unfold TLGDiscovery_fetch_page, TLGIntegratedExtractor_fetch_page, bind, emit.
  apply fetch_attempts_same.
Qed.

(** One turn of the retry loop, on the log. *)
Lemma fetch_attempts_cons n k rest url h :
  TLGIntegratedExtractor_fetch_attempts n (k :: rest) url h =
  let wait := Sleep (inject_Z (2 ^ k) * base_delay) in
  let after_exception :=
    TLGIntegratedExtractor_fetch_attempts n rest url
      (if k <? n - 1 then (h ++ [Get url]) ++ [wait] else h ++ [Get url]) in
  match server_response h url with
  | HttpResponse status text =>
      if status =? 200 then
        match text with
        | Some content => (Some content, h ++ [Get url])
        | None => after_exception
        end
      else if bool_decide (status ∈ retry_on_status) then
        TLGIntegratedExtractor_fetch_attempts n rest url ((h ++ [Get url]) ++ [wait])
      else (None, h ++ [Get url])
  | RequestError => after_exception
  end.
Proof.
  cbn [TLGIntegratedExtractor_fetch_attempts]. unfold bind, http_get, sleep, emit, ret.
  cbv zeta.
  destruct (server_response h url) as [status [content|]|];
    repeat match goal with |- context [if ?b then _ else _] => destruct b end;
    reflexivity.
Qed.

(** The retry loop from attempt [k] on, [m] attempts being left. *)
Lemma fetch_attempts_spec (n : Z) (m : nat) : forall (k : Z) url h,
  k + Z.of_nat m = n -> 0 <= k ->
  exists evs,
    snd (TLGIntegratedExtractor_fetch_attempts n (seqZ k (Z.of_nat m)) url h) = h ++ evs
    /\ (exists rest, backoff_schedule url base_delay (seqZ k (Z.of_nat m)) = evs ++ rest)
    /\ (fst (TLGIntegratedExtractor_fetch_attempts n (seqZ k (Z.of_nat m)) url h) = None
        <-> Forall (fun r => is_ok r = false) (answers h evs))
    /\ (forall content,
          fst (TLGIntegratedExtractor_fetch_attempts n (seqZ k (Z.of_nat m)) url h)
          = Some content ->
          last (answers h evs) = Some (HttpResponse 200 (Some content))).
Proof.
  induction m as [|m IH]; intros k url h Hk Hk0.
  - exists []. simpl. rewrite app_nil_r. repeat split; try easy.
    now exists [].
  - rewrite seqZ_cons by lia.
    replace (Z.pred (Z.of_nat (S m))) with (Z.of_nat m) by lia.
    rewrite fetch_attempts_cons. cbv zeta.
    cbn [backoff_schedule].
    set (wait := Sleep (inject_Z (2 ^ k) * base_delay)).
    set (G := fun result : option pystr * list event =>
      exists evs,
        snd result = h ++ evs
        /\ (exists rest, Get url :: wait
               :: backoff_schedule url base_delay (seqZ (Z.succ k) (Z.of_nat m))
             = evs ++ rest)
        /\ (fst result = None <-> Forall (fun r => is_ok r = false) (answers h evs))
        /\ (forall content, fst result = Some content ->
            last (answers h evs) = Some (HttpResponse 200 (Some content)))).
    match goal with |- exists evs, snd ?r = _ /\ _ => change (G r) end.
    (* a failed attempt followed by a sleep and the remaining attempts *)
    assert (Hretry : is_ok (server_response h url) = false ->
      G (TLGIntegratedExtractor_fetch_attempts n (seqZ (Z.succ k) (Z.of_nat m)) url
           ((h ++ [Get url]) ++ [wait]))).
    { intros Hbad.
      destruct (IH (Z.succ k) url ((h ++ [Get url]) ++ [wait]) ltac:(lia) ltac:(lia))
        as (evs & E1 & (rest & E2) & E3 & E4).
      exists (Get url :: wait :: evs). split; [|split; [|split]].
      - rewrite E1. now rewrite <- !app_assoc.
      - exists rest. simpl. now rewrite E2.
      - cbn [answers]. unfold wait at 1. fold wait. rewrite E3. split.
        + intros Hall. now constructor.
        + intros Hall. now inversion Hall.
      - intros content Hc. cbn [answers]. unfold wait at 1. fold wait.
        specialize (E4 content Hc).
        destruct (answers ((h ++ [Get url]) ++ [wait]) evs); [discriminate|exact E4]. }
    (* a failed last attempt, or a refusal: the loop ends with [None] *)
    assert (Hstop : is_ok (server_response h url) = false -> G (None, h ++ [Get url])).
    { intros Hbad. exists [Get url]. split; [reflexivity|split; [|split]].
      - eexists. reflexivity.
      - simpl. split; [intros _; now repeat constructor|reflexivity].
      - discriminate. }
    assert (Hexc : is_ok (server_response h url) = false ->
      G (TLGIntegratedExtractor_fetch_attempts n (seqZ (Z.succ k) (Z.of_nat m)) url
           (if k <? n - 1 then (h ++ [Get url]) ++ [wait] else h ++ [Get url]))).
    { intros Hbad. destruct (Z.ltb_spec k (n - 1)) as [Hlt|Hge].
      - now apply Hretry.
      - assert (m = 0%nat) as -> by lia. simpl. now apply Hstop. }
    destruct (server_response h url) as [status [content|]|] eqn:Eresp.
    + destruct (Z.eqb_spec status 200) as [->|Hne].
      * exists [Get url]. simpl. rewrite Eresp. split; [reflexivity|split; [|split]].
        -- eexists. reflexivity.
        -- split; [discriminate|]. intros Hall. inversion Hall as [|? ? Hbad]. discriminate.
        -- intros c [= ->]. reflexivity.
      * assert (Hbad : is_ok (HttpResponse status (Some content)) = false).
        { simpl. now apply Z.eqb_neq. }
        destruct (bool_decide (status ∈ retry_on_status)); auto.
    + destruct (Z.eqb_spec status 200) as [->|Hne]; [now apply Hexc|].
      destruct (bool_decide (status ∈ retry_on_status)); auto.
    + now apply Hexc.
Qed.

Lemma integrated_fetch_page_spec url n h :
  retries_then_gives_up url base_delay n h (TLGIntegratedExtractor_fetch_page url n h).
Proof.
  unfold retries_then_gives_up, TLGIntegratedExtractor_fetch_page, bind, emit.
  destruct (Z.le_gt_cases n 0) as [Hn|Hn].
  - replace (seqZ 0 n) with (@nil Z) by (unfold seqZ; now replace (Z.to_nat n) with 0%nat by lia).
    exists []. simpl. split; [reflexivity|]. split; [now exists []|].
    split; [unfold len; simpl; lia|]. split; [split; [constructor|reflexivity]|discriminate].
  - destruct (fetch_attempts_spec n (Z.to_nat n) 0 url (h ++ [FetchPage url])
                ltac:(lia) ltac:(lia)) as (evs & E1 & (rest & E2) & E3 & E4).
    rewrite Z2Nat.id in E1, E2, E3, E4 by lia.
    exists evs. split; [|split; [|split; [|split]]].
    + rewrite E1. now rewrite <- app_assoc.
    + now exists rest.
    + apply (f_equal (fun l => length (gets l))) in E2.
      rewrite gets_backoff_schedule, gets_app, length_app, length_seqZ in E2.
      unfold len. lia.
    + exact E3.
    + exact E4.
Qed.





(** *** The back-off time in floating point *)

Lemma float_limit_pos : (0 < float_limit)%Q.
Proof.
  unfold float_limit. change 0%Q with (inject_Z 0). rewrite <- Zlt_Qlt.
  apply Z.pow_pos_nonneg; lia.
Qed.

(** In range, every back-off time is computed and is a finite float. *)
Lemma backoff_in_range_attempt delay n attempt :
  backoff_in_range delay n = true -> 0 <= attempt < n ->
  attempt < 1024 /\ Qltb (inject_Z (2 ^ attempt) * delay) float_limit = true.
Proof.
  unfold backoff_in_range. intros Hr Ha. apply andb_true_iff in Hr as [Hn Hlast].
  apply Z.leb_le in Hn. split; [lia|]. apply Qltb_true in Hlast. apply Qltb_true.
  assert (Hp : 0 < 2 ^ attempt <= 2 ^ (n - 1)).
  { split; [apply Z.pow_pos_nonneg; lia|apply Z.pow_le_mono_r; lia]. }
  destruct (Qlt_le_dec 0 delay) as [Hd|Hd].
  - eapply Qle_lt_trans; [|exact Hlast].
    apply Qmult_le_compat_r; [rewrite <- Zle_Qle; lia|now apply Qlt_le_weak].
  - eapply Qle_lt_trans; [|exact float_limit_pos].
    rewrite Qmult_comm.
    assert (Hz : (0 <= inject_Z (2 ^ attempt))%Q).
    { change 0%Q with (inject_Z 0). rewrite <- Zle_Qle. lia. }
    pose proof (Qmult_le_compat_r delay 0 (inject_Z (2 ^ attempt)) Hd Hz) as Hle.
    now rewrite Qmult_0_l in Hle.
Qed.

Lemma backoff_in_range_attempts delay n :
  backoff_in_range delay n = true ->
  Forall (fun attempt =>
            attempt < 1024 /\ Qltb (inject_Z (2 ^ attempt) * delay) float_limit = true)
         (seqZ 0 n).
Proof.
  intros Hr. apply Forall_forall. intros attempt Hin.
  apply elem_of_seqZ in Hin.
  apply (backoff_in_range_attempt delay n); [assumption|lia].
Qed.

(** While every back-off time is a finite float, the loop in floating
    point does what the loop with the exact back-off does, and returns. *)
Lemma fetch_attempts_outcome_in_range n attempts url : forall h,
  Forall (fun attempt =>
            attempt < 1024
            /\ Qltb (inject_Z (2 ^ attempt) * base_delay) float_limit = true) attempts ->
  TLGIntegratedExtractor_fetch_attempts_outcome n attempts url h
  = (Fetched (fst (TLGIntegratedExtractor_fetch_attempts n attempts url h)),
     snd (TLGIntegratedExtractor_fetch_attempts n attempts url h)).
Proof.
  induction attempts as [|attempt rest IH]; intros h Hall; [reflexivity|].
  inversion Hall as [|? ? [Ha Hf] Hrest]; subst.
  cbn [TLGIntegratedExtractor_fetch_attempts_outcome TLGIntegratedExtractor_fetch_attempts].
  unfold asyncio_sleep, backoff_time. unfold bind, http_get, sleep, emit, ret.
  destruct (Z.leb_spec 1024 attempt) as [Hge|_]; [lia|].
  rewrite Hf.
  destruct (server_response h url) as [status [content|]|];
    repeat match goal with |- context [if ?b then _ else _] => destruct b end;
    rewrite ?IH by assumption; reflexivity.
Qed.



Lemma fetch_page_outcome_in_range url n h :
  backoff_in_range base_delay n = true ->
  TLGIntegratedExtractor_fetch_page_outcome url n h
  = (Fetched (fst (TLGIntegratedExtractor_fetch_page url n h)),
     snd (TLGIntegratedExtractor_fetch_page url n h)).
Proof.
  intros Hr.
  unfold TLGIntegratedExtractor_fetch_page_outcome, TLGIntegratedExtractor_fetch_page,
    bind, emit.
  apply fetch_attempts_outcome_in_range. now apply backoff_in_range_attempts.
Qed.



(** Each call of [fetch_page] leaves exactly one call event in the log. *)
Lemma integrated_fetch_page_calls url n h :
  exists evs, snd (TLGIntegratedExtractor_fetch_page url n h) = h ++ evs
              /\ fetch_calls evs = [url].
Proof.
  destruct (integrated_fetch_page_spec url n h) as (evs & E1 & (rest & E2) & _).
  exists (FetchPage url :: evs). split; [assumption|]. simpl. f_equal.
  apply (f_equal fetch_calls) in E2.
  rewrite fetch_calls_backoff_schedule, fetch_calls_app in E2.
  symmetry in E2. now apply app_eq_nil in E2.
Qed.
End Fetcher.

(** Two refusals, then a page: three GETs with sleeps of 1.5 and 3 seconds
    between them. *)
Example fetch_page_on_flaky_server :
  @TLGDiscovery_fetch_page sample_config flaky_server (py "/indices/indexA.htm") []
  = (Some (py "<html></html>"),
     [ FetchPage (py "/indices/indexA.htm");
       Get (py "/indices/indexA.htm"); Sleep (inject_Z (2 ^ 0) * (3 # 2));
       Get (py "/indices/indexA.htm"); Sleep (inject_Z (2 ^ 1) * (3 # 2));
       Get (py "/indices/indexA.htm") ]).
Proof. vm_compute. reflexivity. Qed.

(** The same call with the back-off in floating point. *)
Example fetch_page_outcome_on_flaky_server :
  @TLGDiscovery_fetch_page_outcome sample_config flaky_server (py "/indices/indexA.htm") []
  = (Fetched (Some (py "<html></html>")),
     [ FetchPage (py "/indices/indexA.htm");
       Get (py "/indices/indexA.htm"); Sleep (inject_Z (2 ^ 0) * (3 # 2));
       Get (py "/indices/indexA.htm"); Sleep (inject_Z (2 ^ 1) * (3 # 2));
       Get (py "/indices/indexA.htm") ]).
Proof. vm_compute. reflexivity. Qed.


(** A host that always refuses: [None] after the three attempts. *)
Example fetch_page_gives_up :
  fst (@TLGIntegratedExtractor_fetch_page sample_config
         (fun _ _ => HttpResponse 503 None) (py "/indices/indexA.htm") 3 []) = None
  /\ gets (snd (@TLGIntegratedExtractor_fetch_page sample_config
                  (fun _ _ => RequestError) (py "/indices/indexA.htm") 3 []))
     = [py "/indices/indexA.htm"; py "/indices/indexA.htm"; py "/indices/indexA.htm"].
Proof. vm_compute. split; reflexivity. Qed.

(** ** Work discovery *)

Lemma truthy_above (c : pystr) : truthy c = false -> (1000 <? len c) = false.
Proof. destruct c; [reflexivity|discriminate]. Qed.

(** Case analysis on what one call of [fetch_page] returned: a text above
    the threshold, a shorter text (possibly empty), or nothing. *)
Ltac settle_probe :=
  cbn [default fst snd negb andb];
  try reflexivity;
  try (destruct (_ <=? _); reflexivity).

Ltac split_content c :=
  let T := fresh "T" in
  destruct (truthy c) eqn:T;
  [|rewrite (truthy_above c T)];
  cbn [andb];
  [destruct (1000 <? len c)|];
  settle_probe.

Ltac split_fetch fetched :=
  let c := fresh "c" in
  let h := fresh "h" in
  destruct fetched as [[c|] h];
  [split_content c|settle_probe].

Section ProbeBodies.
Context `{Config} `{Server}.

(** The loop bodies of the two discoverers are instances of [probe_candidate]. *)
Lemma TLGDiscovery_probe_eq tlg_id candidate st h :
  TLGDiscovery_probe tlg_id candidate st h
  = probe_candidate TLGDiscovery_fetch_page mk_TLGWork REQUEST_DELAY
      base_url tlg_id candidate st h.
Proof.
  destruct st as [works misses].
  unfold TLGDiscovery_probe, probe_candidate, TLGDiscovery_try_url.
  cbn [for_each fst snd]. unfold bind, ret, above_threshold, mk_TLGWork.
  split_fetch (TLGDiscovery_fetch_page
                 (plain_url base_url tlg_id (format_03d candidate)) h);
    match goal with
    | |- context [TLGDiscovery_fetch_page ?u ?h'] =>
        split_fetch (TLGDiscovery_fetch_page u h')
    end.
Qed.

Lemma TLGIntegratedExtractor_probe_eq tlg_id candidate st h :
  TLGIntegratedExtractor_probe tlg_id candidate st h
  = probe_candidate (fun url => TLGIntegratedExtractor_fetch_page url 2) mk_work_entry
      base_delay base_url tlg_id candidate st h.
Proof.
  destruct st as [works misses].
  unfold TLGIntegratedExtractor_probe, probe_candidate, TLGIntegratedExtractor_try_url.
  cbn [for_each fst snd]. unfold bind, ret, above_threshold, mk_work_entry.
  split_fetch (TLGIntegratedExtractor_fetch_page
                 (plain_url base_url tlg_id (format_03d candidate)) 2 h);
    match goal with
    | |- context [TLGIntegratedExtractor_fetch_page ?u 2 ?h'] =>
        split_fetch (TLGIntegratedExtractor_fetch_page u 2 h')
    end.
Qed.
End ProbeBodies.

Lemma run_misses_nonneg outs : forall m, 0 <= m -> 0 <= run_misses m outs.
Proof.
  unfold run_misses. induction outs as [|o outs IH]; intros m Hm; simpl; [assumption|].
  apply IH. destruct (is_miss o); lia.
Qed.

Lemma run_misses_app m outs1 outs2 :
  run_misses m (outs1 ++ outs2) = run_misses (run_misses m outs1) outs2.
Proof. unfold run_misses. apply fold_left_app. Qed.

Lemma run_misses_replicate (t : nat) : forall m,
  run_misses m (replicate t Missed) = m + Z.of_nat t.
Proof.
  induction t as [|t IH]; intros m; [simpl; unfold run_misses; simpl; lia|].
  change (replicate (S t) Missed) with ([Missed] ++ replicate t Missed).
  rewrite run_misses_app, IH. unfold run_misses. simpl. lia.
Qed.

(** A counter that stands at [t] was brought there by [t] misses in a row. *)
Lemma run_misses_tail outs : forall t : nat,
  run_misses 0 outs = Z.of_nat t -> exists pre, outs = pre ++ replicate t Missed.
Proof.
  induction outs as [|o outs IH] using rev_ind; intros t Ht.
  - unfold run_misses in Ht. simpl in Ht. assert (t = 0%nat) as -> by lia. now exists [].
  - rewrite run_misses_app in Ht.
    pose proof (run_misses_nonneg outs 0 ltac:(lia)) as Hnn.
    set (m := run_misses 0 outs) in *.
    destruct o; unfold run_misses in Ht; simpl in Ht.
    + assert (t = 0%nat) as -> by lia. exists (outs ++ [FoundPlain]). simpl. now rewrite app_nil_r.
    + assert (t = 0%nat) as -> by lia. exists (outs ++ [FoundEncoded]). simpl. now rewrite app_nil_r.
    + destruct t as [|t]; [lia|].
      destruct (IH t ltac:(subst m; lia)) as [pre ->].
      exists pre. rewrite <- app_assoc. f_equal.
      change [Missed] with (replicate 1 Missed). rewrite <- replicate_add.
      f_equal. lia.
Qed.

Section Discovery.
Context {W : Type} (fetch : pystr -> M (option pystr)) (mk : pystr -> pystr -> Z -> W)
        (ident : W -> pystr) (delay : Q) (base tlg_id : pystr).
Hypothesis ident_mk : forall w u n, ident (mk w u n) = w.
Hypothesis fetch_calls_once :
  forall url h, exists evs, snd (fetch url h) = h ++ evs /\ fetch_calls evs = [url].

(** What the probe of one candidate does to the works, the counter and the log. *)
Lemma probe_candidate_spec candidate works misses h :
  let c1 := fst (fetch (plain_url base tlg_id (format_03d candidate)) h) in
  let h1 := snd (fetch (plain_url base tlg_id (format_03d candidate)) h) in
  let c2 := fst (fetch (encoded_url base tlg_id (format_03d candidate)) h1) in
  let found := above_threshold c1 || above_threshold c2 in
  let out := probe_candidate fetch mk delay base tlg_id candidate (works, misses) h in
  snd (fst (fst out)) = (if found then 0 else misses + 1)
  /\ (found = false -> fst (fst (fst out)) = works)
  /\ snd (fst out) = negb found && (max_consecutive_misses <=? misses + 1)
  /\ exists o evs,
       snd out = h ++ evs
       /\ is_miss o = negb found
       /\ fetch_calls evs = urls_probed base tlg_id candidate o
       /\ ident <$> fst (fst (fst out))
          = (ident <$> works) ++ (if is_miss o then [] else [format_03d candidate]).
Proof.
  cbv zeta. unfold probe_candidate, bind, sleep, emit, ret. cbn [fst snd].
  destruct (fetch_calls_once (plain_url base tlg_id (format_03d candidate)) h)
    as (evs1 & E1 & F1).
  destruct (fetch (plain_url base tlg_id (format_03d candidate)) h) as [c1 h1].
  cbn [fst snd] in *. subst h1.
  destruct (above_threshold c1) eqn:A1; cbn [orb fst snd negb andb].
  - split; [reflexivity|]. split; [discriminate|]. split; [reflexivity|].
    exists FoundPlain, (evs1 ++ [Sleep delay]). split; [now rewrite app_assoc|].
    split; [reflexivity|]. split.
    + rewrite fetch_calls_app, F1. reflexivity.
    + rewrite fmap_app. simpl. now rewrite ident_mk.
  - destruct (fetch_calls_once (encoded_url base tlg_id (format_03d candidate)) (h ++ evs1))
      as (evs2 & E2 & F2).
    destruct (fetch (encoded_url base tlg_id (format_03d candidate)) (h ++ evs1)) as [c2 h2].
    cbn [fst snd] in *. subst h2.
    destruct (above_threshold c2) eqn:A2; cbn [orb fst snd negb andb].
    + split; [reflexivity|]. split; [discriminate|]. split; [reflexivity|].
      exists FoundEncoded, (evs1 ++ evs2 ++ [Sleep delay]).
      split; [now rewrite <- !app_assoc|]. split; [reflexivity|]. split.
      * rewrite !fetch_calls_app, F1, F2. reflexivity.
      * rewrite fmap_app. simpl. now rewrite ident_mk.
    + destruct (max_consecutive_misses <=? misses + 1); cbn [fst snd].
      * split; [reflexivity|]. split; [reflexivity|]. split; [reflexivity|].
        exists Missed, (evs1 ++ evs2). split; [now rewrite app_assoc|].
        split; [reflexivity|]. split.
        -- rewrite fetch_calls_app, F1, F2. reflexivity.
        -- simpl. now rewrite app_nil_r.
      * split; [reflexivity|]. split; [reflexivity|]. split; [reflexivity|].
        exists Missed, (evs1 ++ evs2 ++ [Sleep delay]).
        split; [now rewrite <- !app_assoc|]. split; [reflexivity|]. split.
        -- rewrite !fetch_calls_app, F1, F2. reflexivity.
        -- simpl. now rewrite app_nil_r.
Qed.

(** The loop over the candidates [a, a+1, ..., a+n-1], entered with a
    counter below 20. *)
Lemma discovery_loop_spec (n : nat) : forall a works misses h,
  0 <= misses < 20 ->
  let out := for_each (seqZ a (Z.of_nat n))
               (probe_candidate fetch mk delay base tlg_id) (works, misses) h in
  exists outs evs,
    snd out = h ++ evs
    /\ (length outs <= n)%nat
    /\ fetch_calls evs
       = concat (zip_with (urls_probed base tlg_id) (seqZ a (len outs)) outs)
    /\ ident <$> fst (fst out) = (ident <$> works) ++ found_ids (seqZ a (len outs)) outs
    /\ ((length outs < n)%nat -> run_misses misses outs = 20)
    /\ (forall j, (j < length outs)%nat -> run_misses misses (take j outs) < 20).
Proof.
  induction n as [|n IH]; intros a works misses h Hm; cbv zeta.
  - exists [], []. simpl. rewrite !app_nil_r. repeat split; try lia; try reflexivity.
  - rewrite seqZ_cons by lia.
    replace (Z.pred (Z.of_nat (S n))) with (Z.of_nat n) by lia.
    cbn [for_each]. unfold bind.
    pose proof (probe_candidate_spec a works misses h) as Hp. cbv zeta in Hp.
    destruct Hp as (Hmis & _ & Hbrk & o & evs1 & Eh & Eo & Ec & Ew).
    destruct (probe_candidate fetch mk delay base tlg_id a (works, misses) h)
      as [[[works1 misses1] brk] h1].
    cbn [fst snd] in *. subst h1.
    set (found := above_threshold _ || above_threshold _) in *.
    assert (Hmis' : misses1 = if is_miss o then misses + 1 else 0).
    { rewrite Hmis, Eo. now destruct found. }
    clear Hmis.
    destruct brk.
    + (* break *)
      symmetry in Hbrk. apply andb_true_iff in Hbrk as [Hf Hge].
      rewrite <- Eo in Hf. rewrite Hf in *.
      unfold max_consecutive_misses in Hge. apply Z.leb_le in Hge.
      exists [o], evs1. unfold ret. cbn [fst snd].
      split; [reflexivity|]. split; [simpl; lia|].
      change (len [o]) with 1.
      assert (seqZ a 1 = [a]) as -> by (unfold seqZ; simpl; f_equal; lia).
      split; [cbn [zip_with concat]; rewrite app_nil_r; exact Ec|].
      split; [cbn [found_ids]; rewrite Hf; cbn [app]; exact Ew|].
      split.
      * intros _. unfold run_misses. simpl. rewrite Hf. lia.
      * intros j Hj. simpl in Hj. assert (j = 0%nat) as -> by lia.
        unfold run_misses. simpl. lia.
    + (* next candidate *)
      assert (Hm1 : 0 <= misses1 < 20).
      { rewrite Hmis'. symmetry in Hbrk. apply andb_false_iff in Hbrk.
        rewrite <- Eo in Hbrk. destruct (is_miss o); [|lia].
        destruct Hbrk as [Hbrk|Hbrk]; [discriminate|].
        unfold max_consecutive_misses in Hbrk. apply Z.leb_gt in Hbrk. lia. }
      specialize (IH (Z.succ a) works1 misses1 (h ++ evs1) Hm1). cbv zeta in IH.
      destruct IH as (outs & evs & E1 & E2 & E3 & E4 & E5 & E6).
      exists (o :: outs), (evs1 ++ evs).
      split; [rewrite E1; now rewrite app_assoc|].
      split; [simpl; lia|].
      assert (Hseq : seqZ a (len (o :: outs)) = a :: seqZ (Z.succ a) (len outs)).
      { unfold len. rewrite seqZ_cons by (simpl; lia). f_equal. f_equal. simpl length. lia. }
      rewrite Hseq. cbn [zip_with concat found_ids].
      split; [rewrite fetch_calls_app, Ec, E3; reflexivity|].
      split; [rewrite E4, Ew; now rewrite <- app_assoc|].
      split.
      * intros Hlt. simpl in Hlt. unfold run_misses. simpl.
        rewrite <- Hmis'. apply E5. lia.
      * intros [|j] Hj; [unfold run_misses; simpl; lia|].
        simpl in Hj. unfold run_misses. simpl. rewrite <- Hmis'. apply E6. lia.
Qed.

(** The whole discovery of an author's works. *)
Lemma discovery_run_spec max_works h :
  let out := for_each (seqZ 1 max_works)
               (probe_candidate fetch mk delay base tlg_id) ([], 0) h in
  exists evs,
    snd out = h ++ evs
    /\ sequential_probing base tlg_id max_works (fetch_calls evs) (ident <$> fst (fst out)).
Proof.
  cbv zeta.
  assert (Hseq : seqZ 1 max_works = seqZ 1 (Z.of_nat (Z.to_nat max_works))).
  { unfold seqZ. now rewrite Nat2Z.id. }
  rewrite Hseq.
  pose proof (discovery_loop_spec (Z.to_nat max_works) 1 [] 0 h ltac:(lia)) as Hl.
  cbv zeta in Hl. destruct Hl as (outs & evs & E1 & E2 & E3 & E4 & E5 & E6).
  exists evs. split; [assumption|]. exists outs.
  split; [unfold len; lia|]. split; [assumption|]. split; [assumption|]. split.
  - intros Hlt. apply (run_misses_tail outs 20). apply E5. unfold len in Hlt. lia.
  - intros pre rest ->. destruct rest as [|o rest]; [reflexivity|exfalso].
    assert (Hlen : (length pre + 20
                    < length (pre ++ replicate 20 Missed ++ o :: rest))%nat).
    { rewrite !length_app, length_replicate. simpl. lia. }
    specialize (E6 _ Hlen).
    rewrite app_assoc in E6.
    rewrite take_app_length' in E6 by (rewrite length_app, length_replicate; lia).
    rewrite run_misses_app, run_misses_replicate in E6.
    pose proof (run_misses_nonneg pre 0 ltac:(lia)). lia.
Qed.
End Discovery.

(** A run of sequential probing calls [fetch_page] at most twice per candidate. *)
Lemma sequential_probing_bound base tlg_id max_works calls ids :
  sequential_probing base tlg_id max_works calls ids ->
  len calls <= 2 * Z.max 0 max_works.
Proof.
  intros (outs & Hlen & -> & _).
  assert (Hb : forall (cs : list Z) (os : list probe_result),
             (length (concat (zip_with (urls_probed base tlg_id) cs os)) <= 2 * length os)%nat).
  { intros cs os. revert cs. induction os as [|o os IH]; intros [|c cs]; simpl; try lia.
    rewrite length_app. specialize (IH cs). destruct o; simpl; lia. }
  specialize (Hb (seqZ 1 (len outs)) outs). unfold len in *. lia.
Qed.

Lemma for_each_ext {A S} (xs : list A) (body1 body2 : A -> S -> M (S * bool)) st h :
  (forall x st h, body1 x st h = body2 x st h) ->
  for_each xs body1 st h = for_each xs body2 st h.
Proof.
  intros Hext. revert st h. induction xs as [|x xs IH]; intros st h; [reflexivity|].
  cbn [for_each]. unfold bind. rewrite Hext.
  destruct (body2 x st h) as [[st' brk] h']. cbn [fst snd].
  destruct brk; [reflexivity|apply IH].
Qed.

Section WorkDiscovery.
Context `{Config} `{Server}.

Lemma TLGDiscovery_fetch_page_calls url h :
  exists evs, snd (TLGDiscovery_fetch_page url h) = h ++ evs /\ fetch_calls evs = [url].
Proof. rewrite fetch_page_same. apply integrated_fetch_page_calls. Qed.

(** C2. When each address tried for a candidate gives no content, or
    content of at most 1000 characters, the probe of that candidate
    records no work and adds one to [consecutive_misses]; the counter
    goes back to zero exactly when an address gives more than 1000
    characters.  This holds of both discoverers. *)
Theorem small_pages_count_as_misses (tlg_id : pystr) (candidate : Z) (h : list event) :
  (forall (works : list TLGWork) (misses : Z),
     let plain := plain_url base_url tlg_id (format_03d candidate) in
     let encoded := encoded_url base_url tlg_id (format_03d candidate) in
     let c1 := fst (TLGDiscovery_fetch_page plain h) in
     let c2 := fst (TLGDiscovery_fetch_page encoded (snd (TLGDiscovery_fetch_page plain h))) in
     let out := fst (TLGDiscovery_probe tlg_id candidate (works, misses) h) in
     (above_threshold c1 = false -> above_threshold c2 = false ->
      fst (fst out) = works /\ snd (fst out) = misses + 1)
     /\ snd (fst out) = (if above_threshold c1 || above_threshold c2 then 0 else misses + 1))
  /\ (forall (works : list work_entry) (misses : Z),
     let plain := plain_url base_url tlg_id (format_03d candidate) in
     let encoded := encoded_url base_url tlg_id (format_03d candidate) in
     let c1 := fst (TLGIntegratedExtractor_fetch_page plain 2 h) in
     let c2 := fst (TLGIntegratedExtractor_fetch_page encoded 2
                      (snd (TLGIntegratedExtractor_fetch_page plain 2 h))) in
     let out := fst (TLGIntegratedExtractor_probe tlg_id candidate (works, misses) h) in
     (above_threshold c1 = false -> above_threshold c2 = false ->
      fst (fst out) = works /\ snd (fst out) = misses + 1)
     /\ snd (fst out) = (if above_threshold c1 || above_threshold c2 then 0 else misses + 1)).
Proof.
  split; intros works misses; cbv zeta.
  - rewrite TLGDiscovery_probe_eq.
    pose proof (probe_candidate_spec TLGDiscovery_fetch_page mk_TLGWork work_id
                  REQUEST_DELAY base_url tlg_id ltac:(reflexivity)
                  TLGDiscovery_fetch_page_calls candidate works misses h) as Hp.
    cbv zeta in Hp. destruct Hp as (Hmis & Hworks & _).
    split; [|exact Hmis].
    intros A1 A2. rewrite A1, A2 in Hmis, Hworks. simpl in Hmis, Hworks.
    split; [now apply Hworks|exact Hmis].
  - rewrite TLGIntegratedExtractor_probe_eq.
    pose proof (probe_candidate_spec (fun url => TLGIntegratedExtractor_fetch_page url 2)
                  mk_work_entry entry_work_id
                  base_delay base_url tlg_id ltac:(reflexivity)
                  (fun url h => integrated_fetch_page_calls url 2 h)
                  candidate works misses h) as Hp.
    cbv zeta in Hp. destruct Hp as (Hmis & Hworks & _).
    split; [|exact Hmis].
    intros A1 A2. rewrite A1, A2 in Hmis, Hworks. simpl in Hmis, Hworks.
    split; [now apply Hworks|exact Hmis].
Qed.

(** C3. [discover_author_works] probes the candidates 1, 2, 3, ... in
    this order, asking [fetch_page] for the plain spelling and, when that
    gives nothing, for the encoded one; it always returns, having stopped
    at the twentieth miss in a row if there is one, and in any case at
    candidate 999 (at [max_works] for [TLGDiscovery], whose default is 999). *)
Theorem discovery_probes_in_sequence_and_stops (tlg_id : pystr) (h : list event) :
  (exists evs,
     snd (TLGDiscovery_discover_author_works tlg_id default_max_works h) = h ++ evs
     /\ sequential_probing base_url tlg_id 999 (fetch_calls evs)
          (work_id <$> fst (TLGDiscovery_discover_author_works tlg_id default_max_works h))
     /\ len (fetch_calls evs) <= 2 * 999)
  /\ (forall max_works, exists evs,
     snd (TLGDiscovery_discover_author_works tlg_id max_works h) = h ++ evs
     /\ sequential_probing base_url tlg_id max_works (fetch_calls evs)
          (work_id <$> fst (TLGDiscovery_discover_author_works tlg_id max_works h))
     /\ len (fetch_calls evs) <= 2 * Z.max 0 max_works)
  /\ (exists evs,
     snd (TLGIntegratedExtractor_discover_author_works tlg_id h) = h ++ evs
     /\ sequential_probing base_url tlg_id 999 (fetch_calls evs)
          (entry_work_id <$> fst (TLGIntegratedExtractor_discover_author_works tlg_id h))
     /\ len (fetch_calls evs) <= 2 * 999).
Proof.
  assert (Hd : forall max_works, exists evs,
     snd (TLGDiscovery_discover_author_works tlg_id max_works h) = h ++ evs
     /\ sequential_probing base_url tlg_id max_works (fetch_calls evs)
          (work_id <$> fst (TLGDiscovery_discover_author_works tlg_id max_works h))
     /\ len (fetch_calls evs) <= 2 * Z.max 0 max_works).
  { intros max_works. unfold TLGDiscovery_discover_author_works, bind, ret.
    rewrite (for_each_ext _ _ _ _ _ (TLGDiscovery_probe_eq tlg_id)).
    pose proof (discovery_run_spec TLGDiscovery_fetch_page mk_TLGWork work_id
                  REQUEST_DELAY base_url tlg_id ltac:(reflexivity)
                  TLGDiscovery_fetch_page_calls max_works h) as Hr.
    cbv zeta in Hr. destruct Hr as (evs & E1 & E2).
    destruct (for_each _ _ _ h) as [[works misses] h']. cbn [fst snd] in *.
    exists evs. split; [assumption|]. split; [assumption|].
    now apply sequential_probing_bound in E2. }
  split; [exact (Hd 999)|]. split; [exact Hd|].
  unfold TLGIntegratedExtractor_discover_author_works, bind, ret.
  rewrite (for_each_ext _ _ _ _ _ (TLGIntegratedExtractor_probe_eq tlg_id)).
  pose proof (discovery_run_spec (fun url => TLGIntegratedExtractor_fetch_page url 2)
                mk_work_entry entry_work_id
                base_delay base_url tlg_id ltac:(reflexivity)
                (fun url h => integrated_fetch_page_calls url 2 h) 999 h) as Hr.
  cbv zeta in Hr. destruct Hr as (evs & E1 & E2).
  change (1000 - 1) with 999.
  destruct (for_each _ _ _ h) as [[works misses] h']. cbn [fst snd] in *.
  exists evs. split; [assumption|]. split; [assumption|].
  now apply sequential_probing_bound in E2.
Qed.
End WorkDiscovery.

Lemma small_pages_count_as_misses_witness :
  let out := fst (@TLGDiscovery_probe sample_config absent_server (py "0012") 1 ([], 7) []) in
  fst (fst out) = [] /\ snd (fst out) = 7 + 1.
Proof.
  apply (proj1 (proj1 (@small_pages_count_as_misses sample_config absent_server
                         (py "0012") 1 []) [] 7)).
  - vm_compute. reflexivity.
  - vm_compute. reflexivity.
Defined.

(** On the host that has two works, the discoverers return them and stop
    after candidate 22. *)
Example discovery_on_homer_server :
  (work_id <$> fst (@TLGDiscovery_discover_author_works sample_config homer_server
                      (py "0012") 999 []))
  = [py "001"; py "002"]
  /\ (entry_work_id <$> fst (@TLGIntegratedExtractor_discover_author_works sample_config
                               homer_server (py "0012") []))
     = [py "001"; py "002"]
  /\ length (fetch_calls (snd (@TLGDiscovery_discover_author_works sample_config homer_server
                                 (py "0012") 999 []))) = 42%nat.
Proof. vm_compute. repeat split. Qed.


(** ** The catalogue tools *)

Section Catalogues.
Context `{UnicodeData}.

(** *** Title-casing *)

Lemma do_title_recased before previous_is_cased s :
  recased s (do_title before previous_is_cased s).
Proof.
  revert before previous_is_cased.
  induction s as [|c s IH]; intros before prev.
  - exists []. split; [reflexivity|constructor].
  - destruct (IH (before ++ [c]) (unicode_iscased c)) as (pieces & E & HF).
    exists ((if prev then lower_in_context before c s else totitle_full c) :: pieces).
    split.
    + simpl. now rewrite E.
    + constructor; [|assumption].
      destruct prev; [right; eauto|now left].
Qed.

Lemma title_case_recased name : recased name (_title_case name).
Proof. apply do_title_recased. Qed.

(** *** Collecting the works of a catalogue *)

Lemma collect_author_lookup norm_langs a author works key :
  collect_author norm_langs a author works !! key =
  if bool_decide (fst key = a) then
    match default ∅ (author_works author) !! snd key with
    | Some work =>
        if skipped norm_langs work then works !! key
        else Some (combine a (snd key) author work)
    | None => works !! key
    end
  else works !! key.
Proof.
  unfold collect_author.
  apply (map_fold_weak_ind
           (fun r (m : gmap pystr work_meta) =>
              r !! key =
              if bool_decide (fst key = a) then
                match m !! snd key with
                | Some work =>
                    if skipped norm_langs work then works !! key
                    else Some (combine a (snd key) author work)
                | None => works !! key
                end
              else works !! key)).
  - rewrite lookup_empty. now destruct (bool_decide _).
  - intros i x m r Hi IH.
    destruct key as [ka kw]. cbn [fst snd] in *.
    destruct (decide (kw = i)) as [->|Hne].
    + rewrite lookup_insert_eq. rewrite Hi in IH.
      case_bool_decide as Ha.
      * subst ka. destruct (skipped norm_langs x); [exact IH|apply lookup_insert_eq].
      * destruct (skipped norm_langs x); [exact IH|].
        rewrite lookup_insert_ne by congruence. exact IH.
    + rewrite (lookup_insert_ne m) by congruence.
      destruct (skipped norm_langs x); [exact IH|].
      rewrite lookup_insert_ne by congruence. exact IH.
Qed.

Lemma collect_works_lookup catalogue languages key :
  _collect_works catalogue languages !! key =
  match catalogue !! fst key with
  | Some author =>
      match default ∅ (author_works author) !! snd key with
      | Some work =>
          if skipped (lower_set languages) work then None
          else Some (combine (fst key) (snd key) author work)
      | None => None
      end
  | None => None
  end.
Proof.
  unfold _collect_works. cbv zeta.
  apply (map_fold_weak_ind
           (fun r (m : gmap pystr author_meta) =>
              r !! key =
              match m !! fst key with
              | Some author =>
                  match default ∅ (author_works author) !! snd key with
                  | Some work =>
                      if skipped (lower_set languages) work then None
                      else Some (combine (fst key) (snd key) author work)
                  | None => None
                  end
              | None => None
              end)).
  - now rewrite !lookup_empty.
  - intros a author m r Ha IH. rewrite collect_author_lookup.
    case_bool_decide as Hk.
    + rewrite Hk, lookup_insert_eq. rewrite Hk, Ha in IH. rewrite IH.
      destruct (default ∅ (author_works author) !! snd key) as [work|]; [|reflexivity].
      now destruct (skipped _ work).
    + rewrite lookup_insert_ne by congruence. exact IH.
Qed.

(** The keys collected are the works of the catalogue in a selected language. *)
Lemma collect_works_dom catalogue languages key :
  key ∈ dom (_collect_works catalogue (language_set languages))
  <-> selected_work catalogue languages key.
Proof.
  rewrite elem_of_dom, collect_works_lookup. unfold selected_work. split.
  - intros [v Hv].
    destruct (catalogue !! fst key) as [author|] eqn:Ea; [|discriminate Hv].
    destruct (author_works author) as [works|] eqn:Ew; cbn [default from_option id] in Hv.
    2:{ rewrite lookup_empty in Hv. discriminate Hv. }
    destruct (works !! snd key) as [work|] eqn:Ek. 2:{ discriminate Hv. }
    destruct (skipped _ work) eqn:Es; [discriminate Hv|].
    exists author, works, work. auto.
  - intros (author & works & work & Ea & Ew & Ek & Es).
    rewrite Ea, Ew. cbn [default from_option id]. rewrite Ek, Es. eauto.
Qed.

Lemma collect_works_key catalogue languages key v :
  _collect_works catalogue languages !! key = Some v ->
  (c_author_id v, c_work_id v) = key.
Proof.
  rewrite collect_works_lookup. intros Hv.
  destruct (catalogue !! fst key) as [author|]; [|discriminate Hv].
  destruct (default ∅ (author_works author) !! snd key) as [work|]; [|discriminate Hv].
  destruct (skipped _ work); [discriminate Hv|].
  injection Hv as <-. now destruct key.
Qed.

(** *** The coverage rows *)

Lemma coverage_row_spec (L T : gmap (pystr * pystr) combined) key :
  (forall k v, L !! k = Some v -> (c_author_id v, c_work_id v) = k) ->
  (forall k v, T !! k = Some v -> (c_author_id v, c_work_id v) = k) ->
  key ∈ dom L ∪ dom T ->
  exists row,
    coverage_row L T key = Some row
    /\ row_key row = key
    /\ row_label row =
       JStr (if bool_decide (key ∈ dom L) && bool_decide (key ∈ dom T) then py "bot"
             else if bool_decide (key ∈ dom T) then py "tlg" else py "leg").
Proof.
  intros HL HT Hin. unfold coverage_row. cbv zeta.
  destruct (decide (key ∈ dom L)) as [Hl|Hl], (decide (key ∈ dom T)) as [Ht|Ht].
  - rewrite !bool_decide_eq_true_2 by assumption. cbn [andb].
    apply elem_of_dom in Hl as [l El]. apply elem_of_dom in Ht as [t Et].
    rewrite El, Et. simpl. eexists. split; [reflexivity|]. split; [|reflexivity].
    unfold row_key. simpl. now apply HT.
  - rewrite (bool_decide_eq_true_2 _ Hl), (bool_decide_eq_false_2 _ Ht). cbn [andb].
    apply elem_of_dom in Hl as [l El]. rewrite El. simpl.
    eexists. split; [reflexivity|]. split; [|reflexivity].
    unfold row_key. simpl. now apply HL.
  - rewrite (bool_decide_eq_false_2 _ Hl), (bool_decide_eq_true_2 _ Ht). cbn [andb].
    apply elem_of_dom in Ht as [t Et]. rewrite Et. simpl.
    eexists. split; [reflexivity|]. split; [|reflexivity].
    unfold row_key. simpl. now apply HT.
  - exfalso. apply elem_of_union in Hin. tauto.
Qed.

(** C4. [generate_coverage_csv] writes, after the header, exactly one
    row for each (author_id, work_id) key of the union of the two
    catalogues' work keys (so there are as many rows as keys), and labels
    the row [bot] when the key is in both catalogues, [tlg] when it is
    only in the TLG catalogue and [leg] when it is only in the legacy one. *)
Theorem coverage_rows_are_the_union (legacy_catalog tlg_catalog : gmap pystr author_meta)
    (languages : option (list pystr)) :
  let legacy_keys := dom (_collect_works legacy_catalog (language_set languages)) in
  let tlg_keys := dom (_collect_works tlg_catalog (language_set languages)) in
  exists rows,
    generate_coverage_csv legacy_catalog tlg_catalog languages = Some (csv_header :: rows)
    /\ NoDup (row_key <$> rows)
    /\ (forall key, key ∈ row_key <$> rows <-> key ∈ legacy_keys ∪ tlg_keys)
    /\ length rows = size (legacy_keys ∪ tlg_keys)
    /\ (forall row, row ∈ rows ->
          (row_key row ∈ legacy_keys -> row_key row ∈ tlg_keys ->
           row_label row = JStr (py "bot"))
          /\ (row_key row ∉ legacy_keys -> row_key row ∈ tlg_keys ->
              row_label row = JStr (py "tlg"))
          /\ (row_key row ∈ legacy_keys -> row_key row ∉ tlg_keys ->
              row_label row = JStr (py "leg")))
    /\ (forall key, key ∈ legacy_keys <-> selected_work legacy_catalog languages key)
    /\ (forall key, key ∈ tlg_keys <-> selected_work tlg_catalog languages key).
Proof.
  cbv zeta. unfold generate_coverage_csv. cbv zeta.
  set (L := _collect_works legacy_catalog (language_set languages)).
  set (T := _collect_works tlg_catalog (language_set languages)).
  assert (HL : forall k v, L !! k = Some v -> (c_author_id v, c_work_id v) = k)
    by (intros k v; apply collect_works_key).
  assert (HT : forall k v, T !! k = Some v -> (c_author_id v, c_work_id v) = k)
    by (intros k v; apply collect_works_key).
  assert (Hperm : sorted (dom L ∪ dom T) ≡ₚ elements (dom L ∪ dom T))
    by apply merge_sort_Permutation.
  assert (Hkeys : forall key, key ∈ sorted (dom L ∪ dom T) <-> key ∈ dom L ∪ dom T).
  { intros key. rewrite Hperm. apply elem_of_elements. }
  destruct (mapM (coverage_row L T) (sorted (dom L ∪ dom T))) as [rows|] eqn:Erows.
  2:{ exfalso. apply mapM_None in Erows. apply Exists_exists in Erows as (key & Hin & Hnone).
      apply Hkeys in Hin. destruct (coverage_row_spec L T key HL HT Hin) as (row & E & _).
      congruence. }
  apply mapM_Some in Erows.
  assert (Hgen : forall keys rows,
            Forall2 (fun key row => coverage_row L T key = Some row) keys rows ->
            Forall (fun key => key ∈ dom L ∪ dom T) keys ->
            row_key <$> rows = keys).
  { intros keys rows' HF. induction HF as [|key row keys rows' Hrow _ IH]; intros Hall;
      [reflexivity|].
    inversion Hall as [|? ? Hkey Hrest]; subst.
    destruct (coverage_row_spec L T key HL HT Hkey) as (row' & E & Hk & _).
    assert (row' = row) as -> by congruence.
    rewrite fmap_cons, Hk. f_equal. now apply IH. }
  assert (Hrk : row_key <$> rows = sorted (dom L ∪ dom T)).
  { apply Hgen; [assumption|]. apply Forall_forall. intros key. apply Hkeys. }
  exists rows. simpl. split; [reflexivity|].
  split; [rewrite Hrk, Hperm; apply NoDup_elements|].
  split; [intros key; rewrite Hrk; apply Hkeys|].
  split.
  { rewrite <- (length_fmap row_key), Hrk, Hperm. reflexivity. }
  split.
  { intros row Hrow.
    assert (Hex : exists key, key ∈ dom L ∪ dom T /\ coverage_row L T key = Some row).
    { apply list_elem_of_lookup in Hrow as [i Hi].
      destruct (Forall2_lookup_r _ _ _ _ _ Erows Hi) as (key & Hkey & E).
      exists key. split; [|assumption].
      apply Hkeys. apply list_elem_of_lookup. eauto. }
    destruct Hex as (key & Hkey & E).
    destruct (coverage_row_spec L T key HL HT Hkey) as (row' & E' & Hk & Hlabel).
    assert (row' = row) as -> by congruence.
    rewrite Hk, Hlabel.
    repeat split; intros H1 H2.
    - now rewrite !bool_decide_eq_true_2.
    - now rewrite (bool_decide_eq_false_2 _ H1), (bool_decide_eq_true_2 _ H2).
    - now rewrite (bool_decide_eq_true_2 _ H1), (bool_decide_eq_false_2 _ H2). }
  split; intros key; apply collect_works_dom.
Qed.
End Catalogues.

Section AuthorIndex.
Context `{UnicodeData}.

Lemma normalise_entry_other entry field :
  field <> py "name" -> normalise_entry entry !! field = entry !! field.
Proof.
  intros Hne. unfold normalise_entry.
  destruct (entry !! py "name"); [|reflexivity].
  now apply lookup_insert_ne.
Qed.

Lemma normalise_entry_dom entry : dom (normalise_entry entry) = dom entry.
Proof.
  unfold normalise_entry. destruct (entry !! py "name") as [v|] eqn:E; [|reflexivity].
  apply dom_insert_lookup_L. now rewrite E.
Qed.

(** C7, as amended. [normalise_author_index] keeps the keys of the
    index; in every entry the fields other than ['name'] are unchanged and
    no field is added or removed; an entry without ['name'] is unchanged;
    a ['name'] that is a string is replaced by its title-casing, which is
    the same character sequence in another casing; a ['name'] that is not
    a string is replaced by the title-casing of its [str()] text. *)
Theorem normalise_keeps_keys_and_title_cases_names (data : gmap pystr (gmap pystr json)) :
  let out := normalise_author_index data in
  dom out = dom data
  /\ forall author_id entry,
       data !! author_id = Some entry ->
       exists entry',
         out !! author_id = Some entry'
         /\ dom entry' = dom entry
         /\ (forall field, field <> py "name" -> entry' !! field = entry !! field)
         /\ match entry !! py "name" with
            | None => entry' = entry
            | Some (JStr s) =>
                entry' !! py "name" = Some (JStr (str_title s))
                /\ altered_only_in_casing (JStr s) (JStr (str_title s))
            | Some (JNonStr repr) =>
                entry' !! py "name" = Some (JStr (str_title repr))
            end.
Proof.
  cbv zeta. unfold normalise_author_index. split; [apply dom_fmap_L|].
  intros author_id entry Hentry. exists (normalise_entry entry).
  split; [now rewrite lookup_fmap, Hentry|].
  split; [apply normalise_entry_dom|].
  split; [intros field; apply normalise_entry_other|].
  unfold normalise_entry.
  destruct (entry !! py "name") as [[s|repr]|]; [|apply lookup_insert_eq|reflexivity].
  split; [apply lookup_insert_eq|].
  exists s, (str_title s). repeat split. apply title_case_recased.
Qed.
End AuthorIndex.

(** C7, as stated, fails: an entry whose ['name'] is [null] comes out with
    the string ["None"] as its name, which is not the old value in another
    casing. *)
Lemma null_name_becomes_text :
  let data : gmap pystr (gmap pystr json) :=
    {[ py "0627" := {[ py "name" := JNonStr (py "None"); py "works" := JNonStr (py "[]") ]} ]} in
  let out := @normalise_author_index ascii_only data in
  exists old new,
    data !! py "0627" ≫= (fun entry => entry !! py "name") = Some old
    /\ out !! py "0627" ≫= (fun entry => entry !! py "name") = Some new
    /\ new = JStr (py "None")
    /\ ~ @altered_only_in_casing ascii_only old new.
Proof.
  exists (JNonStr (py "None")), (JStr (py "None")).
  split; [vm_compute; reflexivity|]. split; [vm_compute; reflexivity|].
  split; [reflexivity|]. intros (s & s' & E & _). discriminate E.
Qed.

Lemma normalise_keeps_keys_and_title_cases_names_witness :
  let data : gmap pystr (gmap pystr json) :=
    {[ py "0020" := {[ py "name" := JStr (py "HESIODUS"); py "century" := JNonStr (py "-8") ]} ]} in
  exists entry',
    @normalise_author_index ascii_only data !! py "0020" = Some entry'
    /\ entry' !! py "name" = Some (JStr (py "Hesiodus"))
    /\ entry' !! py "century" = Some (JNonStr (py "-8")).
Proof.
  intros data.
  destruct (proj2 (@normalise_keeps_keys_and_title_cases_names ascii_only data) (py "0020")
              {[ py "name" := JStr (py "HESIODUS"); py "century" := JNonStr (py "-8") ]})
    as (entry' & E1 & _ & E3 & E4).
  - apply lookup_singleton_eq.
  - exists entry'. split; [exact E1|]. split.
    + exact (proj1 E4).
    + rewrite E3 by (vm_compute; discriminate). vm_compute. reflexivity.
Defined.

(** The coverage of two small catalogues. *)
Example coverage_of_two_catalogues :
  let legacy : gmap pystr author_meta :=
    {[ py "0012" := {| author_name := Some (JStr (py "HOMER"));
                       author_works := Some {[
                         py "001" := {| work_language := Some (JStr (py "GRC"));
                                        work_title := Some (JStr (py "Iliad")) |};
                         py "002" := {| work_language := Some (JStr (py "grc"));
                                        work_title := None |} ]} |} ]} in
  let tlg : gmap pystr author_meta :=
    {[ py "0012" := {| author_name := None;
                       author_works := Some {[
                         py "001" := {| work_language := Some (JStr (py "grc"));
                                        work_title := Some (JStr (py "Il.")) |};
                         py "003" := {| work_language := Some (JStr (py "grc"));
                                        work_title := None |};
                         py "004" := {| work_language := Some (JStr (py "lat"));
                                        work_title := None |} ]} |} ]} in
  option_map (fun rows => (List.map row_key rows, List.map row_label rows))
    (@generate_coverage_csv ascii_only legacy tlg (Some [py "grc"]))
  = Some ([(py "author_id", py "work_id"); (py "0012", py "001");
           (py "0012", py "002"); (py "0012", py "003")],
          [JStr (py "coverage"); JStr (py "bot"); JStr (py "leg"); JStr (py "tlg")]).
Proof. vm_compute. reflexivity. Qed.

Lemma coverage_rows_are_the_union_witness :
  let legacy : gmap pystr author_meta :=
    {[ py "0012" := {| author_name := Some (JStr (py "HOMER"));
                       author_works := Some {[
                         py "001" := {| work_language := Some (JStr (py "grc"));
                                        work_title := Some (JStr (py "Iliad")) |} ]} |} ]} in
  let tlg : gmap pystr author_meta :=
    {[ py "0012" := {| author_name := None;
                       author_works := Some {[
                         py "001" := {| work_language := Some (JStr (py "grc"));
                                        work_title := None |};
                         py "003" := {| work_language := Some (JStr (py "grc"));
                                        work_title := None |} ]} |} ]} in
  exists rows,
    @generate_coverage_csv ascii_only legacy tlg None = Some (csv_header :: rows)
    /\ length rows = 2%nat.
Proof.
  intros legacy tlg.
  destruct (@coverage_rows_are_the_union ascii_only legacy tlg None)
    as (rows & E & _ & _ & Hlen & _).
  exists rows. split; [exact E|]. rewrite Hlen. vm_compute. reflexivity.
Defined.


(** ** The validator *)

Lemma count_cons p c (s : pystr) : count p (c :: s) = (if p c then 1 else 0) + count p s.
Proof. unfold count, len. simpl. destruct (p c); simpl; lia. Qed.

Lemma count_nonneg p (s : pystr) : 0 <= count p s.
Proof. apply len_nonneg. Qed.

Lemma count_le p q (s : pystr) :
  (forall c, p c = true -> q c = true) -> count p s <= count q s.
Proof.
  intros Hpq. induction s as [|c s IH]; [reflexivity|].
  rewrite !count_cons. specialize (Hpq c).
  destruct (p c), (q c); try lia. all: discriminate (Hpq eq_refl).
Qed.

Lemma strip_nil : strip [] = [].
Proof. reflexivity. Qed.

Lemma getattr_required reference :
  getattr reference (py "author_id") = Some (ref_author_id reference)
  /\ getattr reference (py "work_id") = Some (ref_work_id reference)
  /\ getattr reference (py "author_name") = Some (ref_author_name reference)
  /\ getattr reference (py "work_title") = Some (ref_work_title reference)
  /\ getattr reference (py "traditional_citation") = Some (traditional_citation reference)
  /\ getattr reference (py "url") = Some (ref_url reference).
Proof. repeat split; reflexivity. Qed.

Section Validator.
Context `{UnicodeData}.

Lemma fold_count_char text : forall greek_chars total_alpha_chars,
  fold_left count_char text (greek_chars, total_alpha_chars)
  = (greek_chars + count (fun c => isalpha c && in_greek_ranges c) text,
     total_alpha_chars + count isalpha text).
Proof.
  induction text as [|c text IH]; intros g t; simpl.
  - unfold count, len. simpl. f_equal; lia.
  - rewrite !count_cons. destruct (isalpha c); simpl.
    + destruct (in_greek_ranges c); rewrite IH; f_equal; lia.
    + rewrite IH. f_equal; lia.
Qed.

(** The dictionary returned by [validate_greek_content], branch by branch. *)
Lemma validate_greek_content_cases text :
  let v := validate_greek_content text in
  let greek := count (fun c => isalpha c && in_greek_ranges c) text in
  let alpha := count isalpha text in
  (len text < min_text_length
   /\ text_valid v = false /\ text_greek_ratio v = 0%Q
   /\ text_reason v = py "Text too short" /\ text_counts v = None)
  \/ (min_text_length <= len text /\ alpha = 0
      /\ text_valid v = false /\ text_greek_ratio v = 0%Q
      /\ text_reason v = py "No alphabetic characters" /\ text_counts v = None)
  \/ (min_text_length <= len text /\ 0 < alpha
      /\ text_valid v = Qleb min_greek_ratio (ratio greek alpha)
      /\ text_greek_ratio v = ratio greek alpha
      /\ text_counts v = Some (count_words false text, greek, alpha)).
Proof.
  cbv zeta. unfold validate_greek_content.
  destruct (truthy text) eqn:Ht; cbn [negb orb].
  - destruct (Z.ltb_spec (len text) min_text_length) as [Hlt|Hge].
    + left. simpl. repeat split; auto.
    + rewrite fold_count_char. rewrite !Z.add_0_l.
      pose proof (count_nonneg isalpha text) as Hnn.
      destruct (Z.eqb_spec (count isalpha text) 0) as [E|E].
      * right. left. simpl. repeat split; auto.
      * right. right. simpl. repeat split; try assumption; try reflexivity. lia.
  - left. destruct text; [|discriminate]. simpl.
    repeat split; try reflexivity.
Qed.

Lemma validate_greek_content_valid text :
  text_valid (validate_greek_content text) = length_check text && ratio_check text.
Proof.
  pose proof (validate_greek_content_cases text) as Hc. cbv zeta in Hc.
  unfold length_check, ratio_check, greek_ratio_of. cbv zeta.
  destruct Hc as [(Hlt & -> & _)|[(Hge & Ha & -> & _)|(Hge & Ha & -> & _)]].
  - destruct (Z.leb_spec min_text_length (len text)); [lia|reflexivity].
  - rewrite Ha. simpl. now rewrite andb_false_r.
  - destruct (Z.leb_spec min_text_length (len text)); [|lia].
    destruct (Z.eqb_spec (count isalpha text) 0); [lia|reflexivity].
Qed.

Lemma is_missing_non_blank v : is_missing (Some v) = negb (non_blank v).
Proof.
  unfold is_missing, non_blank. destruct v; [reflexivity|].
  simpl truthy at 1. reflexivity.
Qed.

Lemma validate_reference_completeness_valid reference :
  reference_valid (validate_reference_completeness reference)
  = reference_complete reference.
Proof.
  unfold validate_reference_completeness, reference_complete, required_reference_fields.
  cbn [reference_valid List.filter].
  destruct (getattr_required reference) as (-> & -> & -> & -> & -> & ->).
  rewrite !is_missing_non_blank.
  destruct (non_blank (ref_author_id reference)),
           (non_blank (ref_work_id reference)),
           (non_blank (ref_author_name reference)),
           (non_blank (ref_work_title reference)),
           (non_blank (traditional_citation reference)),
           (non_blank (ref_url reference)); reflexivity.
Qed.

(** C5, as amended. The overall flag of [validate_extraction] is the
    conjunction of the two threshold checks on the text (at least 50
    characters, Greek ratio at least 0.2) and of the completeness of the
    reference (the six required fields are not blank); nothing else enters
    the flag. *)
Theorem overall_flag_is_three_checks (now : pystr) (extraction : ValidatedExtraction) :
  overall_valid (validate_extraction now extraction)
  = length_check (raw_text (text_structure extraction))
    && ratio_check (raw_text (text_structure extraction))
    && reference_complete (tlg_reference extraction).
Proof.
  unfold validate_extraction. cbn [overall_valid].
  now rewrite validate_greek_content_valid, validate_reference_completeness_valid.
Qed.

(** C10. The ratio reported by [validate_greek_content] lies between 0
    and 1; for a text of at least 50 characters with an alphabetic
    character it is the number of alphabetic characters of the Greek
    ranges over the number of alphabetic characters (other characters are
    not counted); a text of at least 50 characters without any alphabetic
    character is reported invalid with ratio 0. *)
Theorem greek_ratio_over_alphabetic_characters (text : pystr) :
  let v := validate_greek_content text in
  let greek := count (fun c => isalpha c && in_greek_ranges c) text in
  let alpha := count isalpha text in
  (0 <= text_greek_ratio v <= 1)%Q
  /\ (min_text_length <= len text -> 0 < alpha ->
      text_greek_ratio v = ratio greek alpha
      /\ text_valid v = Qleb min_greek_ratio (ratio greek alpha))
  /\ (min_text_length <= len text -> alpha = 0 ->
      text_valid v = false
      /\ text_greek_ratio v = 0%Q
      /\ text_reason v = py "No alphabetic characters").
Proof.
  pose proof (validate_greek_content_cases text) as Hc. cbv zeta in *.
  assert (Hzero : (0 <= 0 <= 1)%Q) by (split; discriminate).
  destruct Hc as [(Hlt & Hv & Hr & _)|[(Hge & Ha & Hv & Hr & Hreason & _)
                                      |(Hge & Ha & Hv & Hr & _)]].
  - rewrite Hr. split; [exact Hzero|]. split; intros; lia.
  - rewrite Hr. split; [exact Hzero|]. split; [intros; lia|]. auto.
  - rewrite Hr. split.
    + apply ratio_bounds; [|assumption]. split; [apply count_nonneg|].
      apply count_le. intros c Hc. now apply andb_true_iff in Hc as [Hc _].
    + split; [auto|]. intros; lia.
Qed.
End Validator.

(** C5, as stated, fails: a text that passes both threshold checks is
    rejected when the author name of its reference is blank. *)
Lemma blank_author_fails_validation :
  let extraction := {| tlg_reference := nameless_reference;
                       text_structure := sample_text_structure fifty_alphas;
                       validation_metrics := None |} in
  let flag := overall_valid (@validate_extraction greek_small_letters
                               (py "2025-01-01T00:00:00") extraction) in
  @length_check fifty_alphas = true
  /\ @ratio_check greek_small_letters fifty_alphas = true
  /\ flag = false
  /\ flag <> (@length_check fifty_alphas && @ratio_check greek_small_letters fifty_alphas).
Proof. vm_compute. repeat split. discriminate. Qed.

Lemma greek_ratio_over_alphabetic_characters_witness :
  let text := repeat 48%N 60 in
  let v := @validate_greek_content greek_small_letters text in
  text_valid v = false /\ text_greek_ratio v = 0%Q
  /\ text_reason v = py "No alphabetic characters".
Proof.
  apply (proj2 (proj2 (@greek_ratio_over_alphabetic_characters greek_small_letters
                         (repeat 48%N 60)))).
  - vm_compute. discriminate.
  - vm_compute. reflexivity.
Defined.

(** A complete reference with fifty alphas passes; digits alone do not. *)
Example validation_samples :
  overall_valid (@validate_extraction greek_small_letters []
                   {| tlg_reference := sample_reference;
                      text_structure := sample_text_structure fifty_alphas;
                      validation_metrics := None |}) = true
  /\ overall_valid (@validate_extraction greek_small_letters []
                      {| tlg_reference := sample_reference;
                         text_structure := sample_text_structure (repeat 48%N 60);
                         validation_metrics := None |}) = false.
Proof. vm_compute. split; reflexivity. Qed.

(** ** The citation builder *)

Lemma unknown_author_has_no_work_mapping author_id :
  TLG_ABBREVIATIONS !! author_id = None -> WORK_MAPPINGS !! author_id = None.
Proof.
  unfold TLG_ABBREVIATIONS, WORK_MAPPINGS. intros Hnone.
  apply not_elem_of_list_to_map in Hnone. apply not_elem_of_list_to_map.
  intros Hin. apply Hnone. cbn [fmap list_fmap fst] in *.
  rewrite !elem_of_cons in Hin. rewrite !elem_of_cons.
  destruct Hin as [->|[->|[->|Hin]]]; auto.
  now apply elem_of_nil in Hin.
Qed.

(** C6. For an author identifier that is not in [TLG_ABBREVIATIONS],
    [build_traditional_citation] returns ["TLG" + author_id], a space and
    the work identifier, and [create_reference_from_discovery] stores
    ["TLG" + author_id] as [traditional_abbreviation] (and the same
    citation). *)
Theorem unknown_author_falls_back_to_TLG_id (author_id work_id : pystr) :
  TLG_ABBREVIATIONS !! author_id = None ->
  build_traditional_citation author_id work_id = py "TLG" ++ author_id ++ py " " ++ work_id
  /\ forall now author_data work_data name url,
       author_data !! py "tlg_id" = Some author_id ->
       author_data !! py "name" = Some name ->
       work_data !! py "work_id" = Some work_id ->
       work_data !! py "url" = Some url ->
       exists reference,
         create_reference_from_discovery now author_data work_data = Some reference
         /\ traditional_abbreviation reference = py "TLG" ++ author_id
         /\ traditional_citation reference = py "TLG" ++ author_id ++ py " " ++ work_id.
Proof.
  intros Hnone.
  pose proof (unknown_author_has_no_work_mapping _ Hnone) as Hw.
  assert (Hc : build_traditional_citation author_id work_id
               = py "TLG" ++ author_id ++ py " " ++ work_id).
  { unfold build_traditional_citation. rewrite Hnone, Hw. cbn [default mbind option_bind].
    now rewrite <- app_assoc. }
  split; [exact Hc|].
  intros now author_data work_data name url Ha Hn Hwid Hu.
  unfold create_reference_from_discovery.
  rewrite Ha, Hwid. cbn [mbind option_bind]. rewrite Hw. cbn [mbind option_bind].
  rewrite Hn, Hu. cbn [mbind option_bind].
  eexists. split; [reflexivity|]. cbn [traditional_abbreviation traditional_citation].
  rewrite Hnone. split; [reflexivity|exact Hc].
Qed.

Lemma unknown_author_falls_back_to_TLG_id_witness :
  build_traditional_citation (py "0627") (py "010") = py "TLG0627 010".
Proof.
  apply (proj1 (unknown_author_falls_back_to_TLG_id (py "0627") (py "010")
                  ltac:(vm_compute; reflexivity))).
Defined.

(** A known author keeps the traditional abbreviation. *)
Example known_author_citation :
  build_traditional_citation (py "0012") (py "001") = py "Hom. Il."
  /\ build_traditional_citation (py "0012") (py "007") = py "Hom. 007".
Proof. vm_compute. split; reflexivity. Qed.


(** ** The reference parser *)

Lemma consumed_app (d s : pystr) : consumed (d ++ s) s = d.
Proof.
  unfold consumed. rewrite length_app.
  replace (length d + length s - length s)%nat with (length d) by lia.
  now rewrite take_app_length.
Qed.

Section Matcher.
Context `{UnicodeData}.

Lemma match_cat ic r1 r2 s g m :
  In m (match_here ic (Cat r1 r2) s g)
  <-> exists m1, In m1 (match_here ic r1 s g) /\ In m (match_here ic r2 (fst m1) (snd m1)).
Proof. cbn [match_here]. apply in_flat_map. Qed.

Lemma match_lit c s g m :
  In m (match_here false (Lit c) s g) <-> s = c :: fst m /\ snd m = g.
Proof.
  cbn [match_here]. unfold lit_matches. cbn [andb].
  destruct s as [|ch s]; [simpl; split; [tauto|intros [? _]; discriminate]|].
  destruct (N.eqb_spec ch c) as [->|Hne]; simpl.
  - split.
    + intros [<-|[]]. split; reflexivity.
    + intros [E <-]. injection E as E. left. destruct m; simpl in *; now subst.
  - split; [tauto|]. intros [E _]. injection E as E _. congruence.
Qed.

Lemma match_digit ic s g m :
  In m (match_here ic Digit s g)
  <-> exists ch, s = ch :: fst m /\ isdecimal ch = true /\ snd m = g.
Proof.
  cbn [match_here].
  destruct s as [|ch s]; [simpl; split; [tauto|intros (? & ? & _); discriminate]|].
  destruct (isdecimal ch) eqn:E; simpl.
  - split.
    + intros [<-|[]]. exists ch. auto.
    + intros (ch' & E' & _ & <-). injection E' as _ E'. left.
      destruct m; simpl in *; now subst.
  - split; [tauto|]. intros (ch' & E' & E'' & _). injection E' as E' _. congruence.
Qed.

Lemma match_empty ic s g m : In m (match_here ic Empty s g) <-> m = (s, g).
Proof. simpl. split; [intros [<-|[]]; reflexivity|intros ->; now left]. Qed.

Lemma match_group ic r s g m :
  In m (match_here ic (Group r) s g)
  <-> exists m1, In m1 (match_here ic r s g)
                 /\ m = (fst m1, snd m1 ++ [consumed s (fst m1)]).
Proof.
  cbn [match_here]. rewrite in_map_iff. split; intros (m1 & H1 & H2); exists m1; auto.
Qed.

Lemma match_lits l rest s g m :
  In m (match_here false (lits l rest) s g)
  <-> exists s0, s = l ++ s0 /\ In m (match_here false rest s0 g).
Proof.
  revert s. induction l as [|c l IH]; intros s; cbn [lits].
  - split; [intros Hin; now exists s|intros (s0 & -> & Hin); exact Hin].
  - rewrite match_cat. split.
    + intros (m1 & H1 & H2). apply match_lit in H1 as [-> Hg].
      rewrite Hg in H2. apply IH in H2 as (s0 & E & Hin).
      exists s0. split; [|assumption]. simpl. now rewrite E.
    + intros (s0 & -> & Hin). exists (l ++ s0, g). split.
      * apply match_lit. split; reflexivity.
      * apply IH. now exists s0.
Qed.

Lemma match_digits ic n rest s g m :
  In m (match_here ic (times n Digit rest) s g)
  <-> exists d s0, s = d ++ s0 /\ digits n d /\ In m (match_here ic rest s0 g).
Proof.
  revert s. induction n as [|n IH]; intros s; cbn [times].
  - split.
    + intros Hin. exists [], s. repeat split; [constructor|assumption].
    + intros (d & s0 & -> & [Hlen _] & Hin). now destruct d.
  - rewrite match_cat. split.
    + intros (m1 & H1 & H2). apply match_digit in H1 as (ch & -> & Hch & Hg).
      rewrite Hg in H2. apply IH in H2 as (d & s0 & E & [Hlen Hall] & Hin).
      exists (ch :: d), s0. split; [simpl; now rewrite E|].
      split; [|assumption]. split; [simpl; now rewrite Hlen|now constructor].
    + intros (d & s0 & -> & [Hlen Hall] & Hin).
      destruct d as [|ch d]; [discriminate|]. inversion Hall; subst.
      exists (d ++ s0, g). split.
      * apply match_digit. exists ch. auto.
      * apply IH. exists d, s0. split; [reflexivity|].
        split; [|assumption]. split; [simpl in Hlen; lia|assumption].
Qed.

Lemma match_digit_group ic n s g m :
  In m (match_here ic (Group (times n Digit Empty)) s g)
  <-> exists d, s = d ++ fst m /\ digits n d /\ snd m = g ++ [d].
Proof.
  rewrite match_group. split.
  - intros (m1 & H1 & ->). apply match_digits in H1 as (d & s0 & -> & Hd & H1).
    apply match_empty in H1 as ->. cbn [fst snd]. exists d.
    now rewrite consumed_app.
  - intros (d & -> & Hd & Hg). exists (fst m, g). split.
    + apply match_digits. exists d, (fst m). split; [reflexivity|].
      split; [assumption|]. now apply match_empty.
    + cbn [fst snd]. rewrite consumed_app, <- Hg. now destruct m.
Qed.

(** What the two URL patterns match at the start of a string. *)
Lemma match_url_pattern underscore s m :
  In m (match_here false (url_pattern underscore) s [])
  <-> exists a d w,
        s = py "/TLG" ++ a ++ py "/" ++ d ++ underscore ++ w ++ py ".htm" ++ fst m
        /\ digits 4 a /\ digits 4 d /\ digits 3 w /\ snd m = [a; w].
Proof.
  unfold url_pattern. rewrite match_lits. split.
  - intros (s0 & -> & Hin).
    apply match_cat in Hin as (m1 & H1 & Hin).
    apply match_digit_group in H1 as (a & -> & Ha & Hg1).
    apply match_cat in Hin as (m2 & H2 & Hin).
    apply match_lit in H2 as [E2 Hg2]. rewrite E2.
    apply match_digits in Hin as (d & s1 & -> & Hd & Hin).
    apply match_lits in Hin as (s2 & -> & Hin).
    apply match_cat in Hin as (m3 & H3 & Hin).
    apply match_digit_group in H3 as (w & -> & Hw & Hg3).
    apply match_lits in Hin as (s3 & E3 & Hin).
    apply match_empty in Hin. rewrite E3.
    exists a, d, w. rewrite Hin. cbn [fst snd].
    split; [reflexivity|]. repeat (split; [assumption|]).
    rewrite Hg3, Hg2, Hg1. reflexivity.
  - intros (a & d & w & -> & Ha & Hd & Hw & Hg).
    eexists. split; [reflexivity|].
    apply match_cat. exists (py "/" ++ d ++ underscore ++ w ++ py ".htm" ++ fst m, [a]).
    split; [apply match_digit_group; exists a; auto|]. cbn [fst snd].
    apply match_cat. exists (d ++ underscore ++ w ++ py ".htm" ++ fst m, [a]).
    split; [apply match_lit; split; reflexivity|]. cbn [fst snd].
    apply match_digits. exists d, (underscore ++ w ++ py ".htm" ++ fst m).
    split; [reflexivity|]. split; [assumption|].
    apply match_lits. eexists. split; [reflexivity|].
    apply match_cat. exists (py ".htm" ++ fst m, [a; w]).
    split; [apply match_digit_group; exists w; auto|]. cbn [fst snd].
    apply match_lits. eexists. split; [reflexivity|].
    apply match_empty. rewrite <- Hg. now destruct m.
Qed.

(** [re.search] returns the groups of a match at some position... *)
Lemma re_search_some ic r s g :
  re_search ic r s = Some g ->
  exists pre suf m, s = pre ++ suf /\ In m (match_here ic r suf []) /\ snd m = g.
Proof.
  induction s as [|c s IH]; rewrite re_search_unfold.
  - destruct (match_here ic r [] []) as [|m ms] eqn:E; [discriminate|].
    intros [= <-]. exists [], [], m. rewrite E. repeat split. now left.
  - destruct (match_here ic r (c :: s) []) as [|m ms] eqn:E.
    + intros Hs. destruct (IH Hs) as (pre & suf & m & -> & Hin & Hg).
      now exists (c :: pre), suf, m.
    + intros [= <-]. exists [], (c :: s), m. rewrite E. repeat split. now left.
Qed.

(** ...and [None] only when the pattern matches at no position. *)
Lemma re_search_none ic r s :
  re_search ic r s = None ->
  forall pre suf, s = pre ++ suf -> match_here ic r suf [] = [].
Proof.
  induction s as [|c s IH]; rewrite re_search_unfold.
  - destruct (match_here ic r [] []) as [|m ms] eqn:E; [|discriminate].
    intros _ pre suf Hs. symmetry in Hs. apply app_eq_nil in Hs as [_ ->]. exact E.
  - destruct (match_here ic r (c :: s) []) as [|m ms] eqn:E; [|discriminate].
    intros Hs [|c' pre] suf Hsplit.
    + simpl in Hsplit. now subst suf.
    + injection Hsplit as _ Hsplit. now apply (IH Hs pre).
Qed.

Lemma search_url_some underscore url g :
  re_search false (url_pattern underscore) url = Some g ->
  url_matches underscore url (group g 1) (group g 2).
Proof.
  intros Hs. apply re_search_some in Hs as (pre & suf & m & -> & Hin & <-).
  apply match_url_pattern in Hin as (a & d & w & -> & [La Ha] & [Ld Hd] & [Lw Hw] & ->).
  exists pre, d, (fst m). unfold group. simpl. auto 10.
Qed.

Lemma search_url_none underscore url a w :
  re_search false (url_pattern underscore) url = None ->
  ~ url_matches underscore url a w.
Proof.
  intros Hs (pre & d & post & E & La & Ha & Ld & Hd & Lw & Hw).
  pose proof (re_search_none _ _ _ Hs pre _ E) as Hnone.
  assert (Hin : In (post, [a; w]) (match_here false (url_pattern underscore)
             (py "/TLG" ++ a ++ py "/" ++ d ++ underscore ++ w ++ py ".htm" ++ post) [])).
  { apply match_url_pattern. exists a, d, w. cbn [fst snd]. unfold digits. auto 10. }
  rewrite Hnone in Hin. destruct Hin.
Qed.

(** C9. [parse_url_reference] raises [ValueError] exactly when the URL
    matches neither the pattern with [_] nor the pattern with [%5F];
    when it returns, the author and work identifiers are the four and
    the three decimal digits of a match of one of the two patterns in
    the URL. *)
Theorem parse_url_reference_raises_iff_no_match (url : pystr) :
  ((exists message, parse_url_reference url = ValueError message)
   <-> (forall a w, ~ url_matches (py "_") url a w)
       /\ (forall a w, ~ url_matches (py "%5F") url a w))
  /\ forall a w,
       parse_url_reference url = Returns (a, w) ->
       (url_matches (py "_") url a w \/ url_matches (py "%5F") url a w)
       /\ length a = 4%nat /\ Forall (fun c => isdecimal c = true) a
       /\ length w = 3%nat /\ Forall (fun c => isdecimal c = true) w.
Proof.
  unfold parse_url_reference.
  destruct (re_search false (url_pattern (py "_")) url) as [g|] eqn:E1.
  - pose proof (search_url_some _ _ _ E1) as Hm. split.
    + split; [intros [? ?]; discriminate|]. intros [Hno _]. now destruct (Hno _ _ Hm).
    + intros a w [= <- <-]. split; [now left|].
      destruct Hm as (? & ? & ? & _ & ? & ? & _ & _ & ? & ?). auto.
  - destruct (re_search false (url_pattern (py "%5F")) url) as [g|] eqn:E2.
    + pose proof (search_url_some _ _ _ E2) as Hm. split.
      * split; [intros [? ?]; discriminate|]. intros [_ Hno]. now destruct (Hno _ _ Hm).
      * intros a w [= <- <-]. split; [now right|].
        destruct Hm as (? & ? & ? & _ & ? & ? & _ & _ & ? & ?). auto.
    + split; [|discriminate]. split; [|eauto].
      intros _. split; intros a w; now apply search_url_none.
Qed.
End Matcher.

Lemma parse_url_reference_raises_iff_no_match_witness :
  let url := py "http://217.71.231.54:8080/TLG0012/0012%5F001.htm" in
  length (py "0012") = 4%nat /\ length (py "001") = 3%nat
  /\ (@url_matches ascii_only (py "_") url (py "0012") (py "001")
      \/ @url_matches ascii_only (py "%5F") url (py "0012") (py "001")).
Proof.
  intros url.
  destruct (proj2 (@parse_url_reference_raises_iff_no_match ascii_only url)
              (py "0012") (py "001") ltac:(vm_compute; reflexivity))
    as (Hm & La & _ & Lw & _).
  auto.
Defined.

(** The URL of the module's own demonstration, and a URL without a work. *)
Example parse_url_reference_samples :
  @parse_url_reference ascii_only (py "http://217.71.231.54:8080/TLG0012/0012_001.htm")
  = Returns (py "0012", py "001")
  /\ @parse_url_reference ascii_only (py "http://217.71.231.54:8080/indices/indexA.htm")
     = ValueError (py "Cannot parse TLG reference from URL: http://217.71.231.54:8080/indices/indexA.htm").
Proof. vm_compute. split; reflexivity. Qed.

(** ** Lines, paragraphs and the Greek text filter *)

(** *** [str.strip] *)

Lemma lstrip_nonspace c (s : pystr) : isspace c = false -> lstrip (c :: s) = c :: s.
Proof. intros Hc. simpl. now rewrite Hc. Qed.

Lemma lstrip_head (s : pystr) :
  lstrip s = [] \/ exists c t, lstrip s = c :: t /\ isspace c = false.
Proof.
  induction s as [|c s IH]; [now left|].
  simpl. destruct (isspace c) eqn:Hc; [exact IH|].
  right. now exists c, s.
Qed.

(** [lstrip] stops at the latest at a character that is not white space. *)
Lemma lstrip_app_nonspace (w : pystr) c :
  isspace c = false ->
  exists v d t, lstrip (w ++ [c]) = v ++ [c] /\ v ++ [c] = d :: t /\ isspace d = false.
Proof.
  intros Hc. induction w as [|x w IH].
  - exists [], c, []. simpl. now rewrite Hc.
  - simpl. destruct (isspace x) eqn:Hx; [exact IH|].
    exists (x :: w), x, (w ++ [c]). auto.
Qed.

(** A stripped string is empty, or begins and ends with characters that
    are not white space. *)
Lemma strip_ends (s : pystr) :
  strip s = []
  \/ exists c t t' d, strip s = c :: t /\ strip s = t' ++ [d]
                      /\ isspace c = false /\ isspace d = false.
Proof.
  unfold strip, rstrip.
  destruct (lstrip_head s) as [E|(c & t & E & Hc)]; rewrite E; [now left|].
  right. simpl rev.
  destruct (lstrip_app_nonspace (rev t) c Hc) as (v & d & u & E1 & E2 & Hd).
  rewrite E1. exists c, (rev v), (rev u), d.
  split; [now rewrite rev_app_distr|].
  split; [rewrite E2; reflexivity|]. auto.
Qed.

Lemma strip_idempotent (s : pystr) : strip (strip s) = strip s.
Proof.
  destruct (strip_ends s) as [E|(c & t & t' & d & E1 & E2 & Hc & Hd)].
  - rewrite E. reflexivity.
  - set (m := strip s) in *.
    assert (Hl : lstrip m = m) by (rewrite E1; now apply lstrip_nonspace).
    unfold strip, rstrip. rewrite Hl, E2, rev_app_distr. simpl. rewrite Hd. simpl.
    now rewrite rev_involutive.
Qed.

(** *** [str.split] and [str.join] *)

(** [s.split(sep)] has one part more than [s] has separators. *)
Lemma len_split_on sep (s : pystr) :
  len (split_on sep s) = 1 + count (N.eqb sep) s.
Proof.
  unfold count, len. induction s as [|c s IH]; [reflexivity|].
  simpl. rewrite (N.eqb_sym sep c).
  destruct (c =? sep)%N.
  - simpl length. lia.
  - destruct (split_on sep s) as [|l ls] eqn:E; [now destruct (split_on_not_nil sep s)|].
    simpl length in *. lia.
Qed.

Lemma sum_of_from (xs : list Z) (a : Z) : fold_left Z.add xs a = a + sum_of xs.
Proof.
  unfold sum_of. revert a. induction xs as [|x xs IH]; intros a; cbn [fold_left]; [lia|].
  rewrite (IH (a + x)), (IH (0 + x)). lia.
Qed.

Lemma sum_of_cons x (xs : list Z) : sum_of (x :: xs) = x + sum_of xs.
Proof. unfold sum_of at 1. simpl. apply sum_of_from. Qed.

Lemma sum_of_succ {A} (f : A -> Z) (xs : list A) :
  sum_of (List.map (fun x => 1 + f x) xs) = len xs + sum_of (List.map f xs).
Proof.
  induction xs as [|x xs IH]; [reflexivity|].
  simpl List.map. rewrite !sum_of_cons, IH. unfold len. simpl length. lia.
Qed.

Lemma sum_of_nonneg (xs : list Z) : Forall (fun x => 0 <= x) xs -> 0 <= sum_of xs.
Proof.
  induction 1 as [|x xs Hx _ IH]; [reflexivity|]. rewrite sum_of_cons. lia.
Qed.

(** The lines of ['\n'.join(lines)], for non-empty lines without a line break. *)
Lemma output_lines_join (lines : list pystr) :
  Forall (fun l => l <> [] /\ ~ In newline l) lines ->
  output_lines (join [newline] lines) = lines.
Proof.
  intros Hall. unfold output_lines.
  destruct lines as [|l ls]; [reflexivity|].
  assert (Hne : truthy (join [newline] (l :: ls)) = true).
  { inversion Hall as [|? ? [Hl _] _]; subst.
    destruct l as [|c l]; [congruence|]. simpl. now destruct ls. }
  rewrite Hne. apply split_on_join; [discriminate|].
  eapply Forall_impl; [exact Hall|]. now intros ? [_ ?].
Qed.

Lemma non_blank_lines_ok (text : pystr) :
  Forall (fun p => p <> [] /\ ~ In newline p /\ strip p = p) (non_blank_lines text).
Proof.
  unfold non_blank_lines. apply Forall_forall. intros p Hp.
  apply list_elem_of_In, in_map_iff in Hp as (raw & <- & Hraw).
  apply filter_In in Hraw as [Hin Ht].
  split; [now apply truthy_true|]. split; [|apply strip_idempotent].
  apply strip_no_newline.
  pose proof (split_on_no_sep newline text) as Hns.
  rewrite Forall_forall in Hns. apply Hns. now apply list_elem_of_In.
Qed.

(** *** [build_structured_text] *)

(** X1. [build_structured_text] gives the empty dictionary exactly when every
    line of the text is blank.  Otherwise its paragraphs are the non-blank
    lines of the text, stripped and in their order; no paragraph is empty,
    contains a line break or has white space at either end;
    [total_paragraphs] is their number, and [estimated_lines] is that number
    plus the number of full stops in the paragraphs (so it is never smaller
    than [total_paragraphs]).  The markers are not used. *)
Theorem structured_text_counts_paragraphs_and_full_stops
    (clean_text : pystr) (markers : marker_dict) :
  match build_structured_text clean_text markers with
  | None => Forall (fun l => strip l = []) (split_on newline clean_text)
  | Some s =>
      paragraphs s = non_blank_lines clean_text
      /\ paragraphs s <> []
      /\ Forall (fun p => p <> [] /\ ~ In newline p /\ strip p = p) (paragraphs s)
      /\ total_paragraphs s = len (paragraphs s)
      /\ estimated_lines s
         = total_paragraphs s + sum_of (List.map (count (N.eqb full_stop)) (paragraphs s))
      /\ total_paragraphs s <= estimated_lines s
  end
  /\ build_structured_text clean_text markers = build_structured_text clean_text ∅.
Proof.
  split; [|reflexivity].
  unfold build_structured_text. cbv zeta. fold (non_blank_lines clean_text).
  case_bool_decide as Hnil; cbn [negb].
  - unfold non_blank_lines in Hnil. apply map_eq_nil in Hnil.
    apply Forall_forall. intros l Hl.
    destruct (strip l) as [|c t] eqn:E; [reflexivity|]. exfalso.
    assert (Hin : In l (List.filter (fun p => truthy (strip p)) (split_on newline clean_text))).
    { apply filter_In. split; [now apply list_elem_of_In|]. now rewrite E. }
    rewrite Hnil in Hin. exact Hin.
  - cbn [paragraphs total_paragraphs estimated_lines].
    assert (Hsum : sum_of (List.map (fun p => len (split_on full_stop p))
                             (non_blank_lines clean_text))
                   = len (non_blank_lines clean_text)
                     + sum_of (List.map (count (N.eqb full_stop)) (non_blank_lines clean_text))).
    { rewrite <- sum_of_succ. f_equal. apply map_ext. intros p. apply len_split_on. }
    repeat split; try assumption; try reflexivity.
    + apply non_blank_lines_ok.
    + rewrite Hsum.
      assert (0 <= sum_of (List.map (count (N.eqb full_stop)) (non_blank_lines clean_text))).
      { apply sum_of_nonneg, Forall_forall. intros x Hx.
        apply list_elem_of_In, in_map_iff in Hx as (p & <- & _). apply count_nonneg. }
      lia.
Qed.

(** *** [separate_greek_from_metadata] *)

Section Filter.
Context `{UnicodeData}.

Lemma separate_line_blank acc raw :
  truthy (strip raw) = false -> separate_line acc raw = acc.
Proof.
  intros Ht. unfold separate_line. destruct acc as [g m]. cbv zeta. now rewrite Ht.
Qed.

(** The three-way test of the loop body is a two-way test. *)
Lemma separate_line_classified acc raw :
  truthy (strip raw) = true ->
  separate_line acc raw =
  if kept_as_greek (strip raw) then (fst acc ++ [strip raw], snd acc)
  else (fst acc, snd acc ++ [strip raw]).
Proof.
  intros Ht. unfold separate_line, kept_as_greek. destruct acc as [g m]. cbv zeta.
  rewrite Ht. cbn [negb fst snd]. fold (has_metadata_marker (strip raw)).
  assert (Hpos : (0 <? len (strip raw)) = true).
  { apply Z.ltb_lt. unfold len. destruct (strip raw); [discriminate Ht|simpl; lia]. }
  rewrite Hpos.
  set (r := ratio (count in_greek_ranges (strip raw)) (len (strip raw))).
  assert (Hq : Qleb (1 # 10) r = negb (Qltb r (1 # 10))).
  { unfold Qleb, Qltb. now rewrite negb_involutive. }
  rewrite Hq.
  destruct (has_metadata_marker (strip raw)); cbn [negb andb orb].
  - now rewrite andb_false_r.
  - destruct (Qltb r (1 # 10)) eqn:Hlow; cbn [negb].
    + assert (Hhalf : Qltb (1 # 2) r = false).
      { apply Qltb_false. apply Qltb_true in Hlow.
        apply Qlt_le_weak. eapply Qlt_trans; [exact Hlow|reflexivity]. }
      now rewrite Hhalf.
    + now destruct (Qltb (1 # 2) r && true && (20 <? len (strip raw))).
Qed.

Lemma fold_separate_classified lines acc :
  fold_left separate_line lines acc =
  (fst acc ++ List.filter kept_as_greek
                (List.map strip (List.filter (fun p => truthy (strip p)) lines)),
   snd acc ++ List.filter (fun l => negb (kept_as_greek l))
                (List.map strip (List.filter (fun p => truthy (strip p)) lines))).
Proof.
  revert acc. induction lines as [|raw lines IH]; intros acc.
  - simpl. rewrite !app_nil_r. now destruct acc.
  - cbn [fold_left List.filter]. rewrite IH.
    destruct (truthy (strip raw)) eqn:Ht.
    + rewrite (separate_line_classified _ _ Ht). cbn [List.map List.filter].
      destruct (kept_as_greek (strip raw)); cbn [negb fst snd];
        now rewrite <- app_assoc.
    + now rewrite (separate_line_blank _ _ Ht).
Qed.

(** X2. [separate_greek_from_metadata] loses, repeats and reorders nothing:
    the lines of ['greek_text'] are the non-blank (stripped) lines of the
    input in which no metadata pattern is found and of which at least a
    tenth of the characters are Greek, in their order; the lines of
    ['metadata'] are all the other non-blank lines, in their order (the
    test on half of the characters and on 20 characters changes nothing);
    ['mixed_content'] is the input. *)
Theorem filter_splits_the_non_blank_lines (mixed_text : pystr) :
  let out := separate_greek_from_metadata mixed_text in
  output_lines (greek_text out) = List.filter kept_as_greek (non_blank_lines mixed_text)
  /\ output_lines (metadata out)
     = List.filter (fun l => negb (kept_as_greek l)) (non_blank_lines mixed_text)
  /\ output_lines (greek_text out) ++ output_lines (metadata out)
     ≡ₚ non_blank_lines mixed_text
  /\ mixed_content out = mixed_text.
Proof.
  cbv zeta. unfold separate_greek_from_metadata. cbv zeta.
  rewrite fold_separate_classified. cbn [fst snd app].
  fold (non_blank_lines mixed_text).
  cbn [greek_text metadata mixed_content].
  pose proof (non_blank_lines_ok mixed_text) as Hok.
  assert (Hsub : forall p : pystr -> bool,
             output_lines (join [newline] (List.filter p (non_blank_lines mixed_text)))
             = List.filter p (non_blank_lines mixed_text)).
  { intros p. apply output_lines_join.
    apply Forall_forall. intros l Hl.
    apply list_elem_of_In, filter_In in Hl as [Hl _].
    rewrite Forall_forall in Hok. destruct (Hok l) as (? & ? & _); auto.
    now apply list_elem_of_In. }
  rewrite !Hsub. repeat split.
  clear. induction (non_blank_lines mixed_text) as [|l ls IH]; [reflexivity|].
  cbn [List.filter]. destruct (kept_as_greek l); cbn [negb].
  - simpl. now constructor.
  - rewrite <- Permutation_middle. now constructor.
Qed.
End Filter.

(** ** References: completeness, formats, citations, addresses *)

Lemma filter_sublist {A} (p : A -> bool) (l : list A) : sublist (List.filter p l) l.
Proof.
  induction l as [|x l IH]; [constructor|].
  simpl. destruct (p x); now constructor.
Qed.

Lemma len_filter_le {A} (p : A -> bool) (l : list A) : len (List.filter p l) <= len l.
Proof. unfold len. pose proof (sublist_length _ _ (filter_sublist p l)). lia. Qed.

Section Completeness.
Context `{UnicodeData}.

(** X3. [validate_reference_completeness] lists as missing exactly the
    required fields that are empty or blank, in the order of the required
    fields; with [k] fields missing the score is [(6 - k) / 6], between 0
    and 1, and the reference is valid exactly when nothing is missing,
    that is when the score is 1. *)
Theorem completeness_score_counts_filled_fields (reference : TLGReference) :
  let v := validate_reference_completeness reference in
  let k := len (missing_fields v) in
  sublist (missing_fields v) required_reference_fields
  /\ (forall field, In field (missing_fields v)
                    <-> In field required_reference_fields
                        /\ is_missing (getattr reference field) = true)
  /\ 0 <= k <= 6
  /\ completeness_score v = ratio (6 - k) 6
  /\ (0 <= completeness_score v <= 1)%Q
  /\ (reference_valid v = true <-> missing_fields v = [])
  /\ (reference_valid v = true <-> (completeness_score v == 1)%Q).
Proof.
  cbv zeta. unfold validate_reference_completeness.
  cbn [missing_fields completeness_score reference_valid].
  set (missing := List.filter (fun field => is_missing (getattr reference field))
                              required_reference_fields).
  assert (Hsix : len required_reference_fields = 6) by reflexivity.
  assert (Hle : 0 <= len missing <= 6).
  { split; [apply len_nonneg|]. rewrite <- Hsix. apply len_filter_le. }
  rewrite Hsix.
  split; [apply filter_sublist|].
  split; [intros field; apply filter_In|].
  split; [exact Hle|]. split; [reflexivity|].
  split; [apply ratio_bounds; lia|].
  assert (Hnil : (len missing =? 0) = true <-> missing = []).
  { rewrite Z.eqb_eq. unfold len. destruct missing; simpl; split; intros; try lia; congruence. }
  split; [exact Hnil|].
  rewrite Hnil. split.
  - intros ->. reflexivity.
  - intros Hone. unfold ratio, Qeq, Qdiv, Qmult, Qinv, inject_Z in Hone. simpl in Hone.
    assert (len missing = 0) by lia. now apply Hnil, Z.eqb_eq.
Qed.
End Completeness.

Section Formats.
Context `{UnicodeData}.

Lemma re_match_is_Some ic r s :
  is_Some (re_match ic r s) <-> exists m, In m (match_here ic r s []).
Proof.
  unfold re_match. destruct (match_here ic r s []) as [|m ms].
  - split; [intros [? ?]; discriminate|intros [? []]].
  - split; [intros _; exists m; now left|intros _; eauto].
Qed.

Lemma re_match_digits n s :
  is_Some (re_match false (times n Digit Empty) s) <-> starts_with_digits n s.
Proof.
  rewrite re_match_is_Some. unfold starts_with_digits. split.
  - intros (m & Hm). apply match_digits in Hm as (d & s0 & -> & Hd & _). eauto.
  - intros (d & rest & -> & Hd). exists (rest, []).
    apply match_digits. exists d, rest. split; [reflexivity|].
    split; [assumption|]. now apply match_empty.
Qed.

Lemma starts_with_digits_app n s extra :
  starts_with_digits n s -> starts_with_digits n (s ++ extra).
Proof.
  intros (d & rest & -> & Hd). exists d, (rest ++ extra). now rewrite app_assoc.
Qed.

(** X4. [validate_reference_format] looks at the beginning of the two
    identifiers only: it accepts them exactly when the author identifier
    starts with four decimal digits and the work identifier with three,
    so anything may follow the digits.  Whatever [parse_url_reference]
    returns is accepted. *)
Theorem reference_format_checks_a_prefix (author_id work_id : pystr) :
  (validate_reference_format author_id work_id = true
   <-> starts_with_digits 4 author_id /\ starts_with_digits 3 work_id)
  /\ (forall extra extra',
        validate_reference_format author_id work_id = true ->
        validate_reference_format (author_id ++ extra) (work_id ++ extra') = true)
  /\ (forall url,
        parse_url_reference url = Returns (author_id, work_id) ->
        validate_reference_format author_id work_id = true).
Proof.
  assert (Hiff : forall a w, validate_reference_format a w = true
                             <-> starts_with_digits 4 a /\ starts_with_digits 3 w).
  { intros a w. unfold validate_reference_format.
    rewrite andb_true_iff, !bool_decide_eq_true, !re_match_digits. reflexivity. }
  split; [apply Hiff|]. split.
  - intros extra extra' Hv. apply Hiff in Hv as [Ha Hw].
    apply Hiff. split; now apply starts_with_digits_app.
  - intros url Hp. apply Hiff.
    assert (Hm : exists u, url_matches u url author_id work_id).
    { unfold parse_url_reference in Hp.
      destruct (re_search false (url_pattern (py "_")) url) as [g|] eqn:E1.
      - injection Hp as <- <-. exists (py "_"). apply search_url_some, E1.
      - destruct (re_search false (url_pattern (py "%5F")) url) as [g|] eqn:E2;
          [|discriminate Hp].
        injection Hp as <- <-. exists (py "%5F"). apply search_url_some, E2. }
    destruct Hm as (u & pre & d & post & _ & Ha1 & Ha2 & _ & _ & Hw1 & Hw2).
    split; [exists author_id, []|exists work_id, []];
      (split; [symmetry; apply app_nil_r|split; assumption]).
Qed.
End Formats.

(** The theorem at an identifier of five digits and one of three digits
    followed by letters. *)
Lemma reference_format_checks_a_prefix_witness :
  @validate_reference_format ascii_only (py "00123") (py "001abc") = true.
Proof.
  apply (proj1 (proj2 (@reference_format_checks_a_prefix ascii_only (py "0012") (py "001")))
           (py "3") (py "abc")).
  vm_compute. reflexivity.
Defined.

(** *** References made from discovery data *)

Lemma some_inj {A} (x y : A) : Some x = Some y -> x = y.
Proof. congruence. Qed.

(** X5. [create_reference_from_discovery] raises [KeyError] exactly when
    ['tlg_id'] or ['name'] is missing from the author's data or ['work_id']
    or ['url'] from the work's.  Otherwise the reference carries these four
    values; the optional author fields default to the empty string; for a
    work of [WORK_MAPPINGS] the title and the genre are those of the mapping
    (whatever title was discovered), for any other work the title is the
    discovered one, or ["Work " + work_id], and the genre is ["Unknown"]. *)
Theorem reference_needs_four_keys (now : pystr) (author_data work_data : gmap pystr pystr) :
  (create_reference_from_discovery now author_data work_data = None
   <-> author_data !! py "tlg_id" = None \/ author_data !! py "name" = None
       \/ work_data !! py "work_id" = None \/ work_data !! py "url" = None)
  /\ forall reference,
       create_reference_from_discovery now author_data work_data = Some reference ->
       author_data !! py "tlg_id" = Some (ref_author_id reference)
       /\ author_data !! py "name" = Some (ref_author_name reference)
       /\ work_data !! py "work_id" = Some (ref_work_id reference)
       /\ work_data !! py "url" = Some (ref_url reference)
       /\ ref_author_description reference = default [] (author_data !! py "description")
       /\ ref_period reference = default [] (author_data !! py "period")
       /\ ref_location reference = default [] (author_data !! py "location")
       /\ extraction_date reference = now
       /\ match WORK_MAPPINGS !! ref_author_id reference
                ≫= (fun works => works !! ref_work_id reference) with
          | Some work_info =>
              ref_work_title reference = info_title work_info
              /\ ref_work_genre reference = info_genre work_info
          | None =>
              ref_work_title reference
              = default (py "Work " ++ ref_work_id reference) (work_data !! py "title")
              /\ ref_work_genre reference = py "Unknown"
          end.
Proof.
  unfold create_reference_from_discovery.
  destruct (author_data !! py "tlg_id") as [author_id|] eqn:Ea; cbn [mbind option_bind].
  2:{ split; [split; auto|]. intros ? [=]. }
  destruct (work_data !! py "work_id") as [work_id|] eqn:Ew; cbn [mbind option_bind].
  2:{ split; [split; auto|]. intros ? [=]. }
  destruct (WORK_MAPPINGS !! author_id ≫= (fun works => works !! work_id))
    as [work_info|] eqn:Em;
    (destruct (author_data !! py "name") as [name|] eqn:En; cbn [mbind option_bind];
     [|split; [split; auto|]; intros ? [=]]);
    (destruct (work_data !! py "url") as [url|] eqn:Eu; cbn [mbind option_bind];
     [|split; [split; auto|]; intros ? [=]]).
  all: split; [split; [intros [=]|intros [E|[E|[E|E]]]; discriminate E]|].
  all: intros reference Hr; apply some_inj in Hr; subst reference.
  all: cbn [ref_author_id ref_author_name ref_work_id ref_url ref_author_description
            ref_period ref_location extraction_date ref_work_title ref_work_genre].
  all: rewrite Em; auto 12.
Qed.

Lemma reference_needs_four_keys_witness :
  create_reference_from_discovery (py "2025-01-01T00:00:00")
    {[ py "tlg_id" := py "0012" ]}
    {[ py "work_id" := py "001"; py "url" := py "http://217.71.231.54:8080/TLG0012/0012_001.htm" ]}
  = None.
Proof.
  apply (proj1 (reference_needs_four_keys _ _ _)).
  right. left. vm_compute. reflexivity.
Defined.

(** The work part of a citation: the abbreviation of a work of
    [WORK_MAPPINGS], the work identifier for any other work. *)
Lemma citation_of_reference now author_data work_data reference :
  create_reference_from_discovery now author_data work_data = Some reference ->
  traditional_citation reference
  = build_traditional_citation (ref_author_id reference) (ref_work_id reference)
  /\ traditional_abbreviation reference
     = default (py "TLG" ++ ref_author_id reference)
               (TLG_ABBREVIATIONS !! ref_author_id reference).
Proof.
  unfold create_reference_from_discovery.
  destruct (author_data !! py "tlg_id") as [author_id|]; [|intros [=]].
  destruct (work_data !! py "work_id") as [work_id|]; [|intros [=]].
  cbn [mbind option_bind].
  destruct (WORK_MAPPINGS !! author_id ≫= (fun works => works !! work_id));
    (destruct (author_data !! py "name"); [|intros [=]]);
    (destruct (work_data !! py "url"); [|intros [=]]);
    cbn [mbind option_bind]; intros Hr; apply some_inj in Hr; subst reference;
    cbn [traditional_citation traditional_abbreviation ref_author_id ref_work_id]; auto.
Qed.

(** X6. The citation of a discovered work, for every author: the author's
    abbreviation (or ["TLG" + author_id]), a space, and the abbreviation of
    the work when [WORK_MAPPINGS] has one, the work identifier otherwise.
    [to_citation] appends [" book.line"] when both are given and not empty,
    [" book"] when only the book is; without a book the line is dropped. *)
Theorem citation_of_a_discovered_work (now : pystr) (author_data work_data : gmap pystr pystr)
    (reference : TLGReference) (book line : pystr) :
  create_reference_from_discovery now author_data work_data = Some reference ->
  let work :=
    match WORK_MAPPINGS !! ref_author_id reference
          ≫= (fun works => works !! ref_work_id reference) with
    | Some work_info => info_abbrev work_info
    | None => ref_work_id reference
    end in
  let base := traditional_abbreviation reference ++ py " " ++ work in
  traditional_citation reference = base
  /\ (book <> [] -> line <> [] ->
      to_citation reference (Some book) (Some line) = base ++ py " " ++ book ++ py "." ++ line)
  /\ (book <> [] ->
      to_citation reference (Some book) None = base ++ py " " ++ book
      /\ to_citation reference (Some book) (Some []) = base ++ py " " ++ book)
  /\ to_citation reference None (Some line) = base
  /\ to_citation reference (Some []) (Some line) = base
  /\ to_citation reference None None = base.
Proof.
  intros Hcreate. cbv zeta.
  destruct (citation_of_reference _ _ _ _ Hcreate) as [Hc Ha].
  assert (Hbase : traditional_citation reference
                  = traditional_abbreviation reference ++ py " " ++
                    match WORK_MAPPINGS !! ref_author_id reference
                          ≫= (fun works => works !! ref_work_id reference) with
                    | Some work_info => info_abbrev work_info
                    | None => ref_work_id reference
                    end).
  { rewrite Hc, Ha. unfold build_traditional_citation.
    now destruct (WORK_MAPPINGS !! ref_author_id reference
                  ≫= (fun works => works !! ref_work_id reference)). }
  split; [exact Hbase|].
  unfold to_citation. rewrite <- Hbase. cbn [truthy_opt default from_option id truthy andb].
  repeat split.
  - intros Hb Hl. apply truthy_true in Hb, Hl. now rewrite Hb, Hl.
  - apply truthy_true in H. now rewrite H.
  - apply truthy_true in H. rewrite H. now rewrite andb_false_r.
Qed.

Lemma citation_of_a_discovered_work_witness :
  exists reference,
    create_reference_from_discovery (py "2025-01-01T00:00:00")
      {[ py "tlg_id" := py "0012"; py "name" := py "HOMERUS" ]}
      {[ py "work_id" := py "001";
         py "url" := py "http://217.71.231.54:8080/TLG0012/0012_001.htm" ]}
    = Some reference
    /\ to_citation reference (Some (py "1")) (Some (py "1")) = py "Hom. Il. 1.1".
Proof.
  eexists. split; [vm_compute; reflexivity|].
  refine (eq_trans
            (proj1 (proj2 (citation_of_a_discovered_work (py "2025-01-01T00:00:00")
                             {[ py "tlg_id" := py "0012"; py "name" := py "HOMERUS" ]}
                             {[ py "work_id" := py "001";
                                py "url" := py "http://217.71.231.54:8080/TLG0012/0012_001.htm" ]}
                             _ (py "1") (py "1") _))
               _ _) _).
  - vm_compute. reflexivity.
  - discriminate.
  - discriminate.
  - vm_compute. reflexivity.
Defined.

(** *** Addresses of works, built and parsed back *)

Section Addresses.
Context `{UnicodeData}.

Lemma re_search_none_intro ic r s :
  (forall pre suf, s = pre ++ suf -> match_here ic r suf [] = []) ->
  re_search ic r s = None.
Proof.
  induction s as [|c s IH]; intros Hall; rewrite re_search_unfold;
    rewrite (Hall [] _ eq_refl); [reflexivity|].
  apply IH. intros pre suf ->. now apply (Hall (c :: pre)).
Qed.

(** [re.search] passes over the positions at which nothing matches. *)
Lemma re_search_skip ic r pre s :
  (forall p q, pre = p ++ q -> q <> [] -> match_here ic r (q ++ s) [] = []) ->
  re_search ic r (pre ++ s) = re_search ic r s.
Proof.
  induction pre as [|c pre IH]; intros Hall; [reflexivity|].
  cbn [app]. rewrite re_search_unfold.
  pose proof (Hall [] (c :: pre) eq_refl ltac:(discriminate)) as Hnone.
  cbn [app] in Hnone. rewrite Hnone.
  apply IH. intros p q -> Hq. now apply (Hall (c :: p)).
Qed.

Lemma digits_4 d : digits 4 d ->
  exists a b c e, d = [a; b; c; e] /\ isdecimal a = true /\ isdecimal b = true
                  /\ isdecimal c = true /\ isdecimal e = true.
Proof.
  intros [Hlen Hall]. destruct d as [|a [|b [|c [|e [|]]]]]; try discriminate Hlen.
  inversion Hall as [|? ? Ha H1]; subst. inversion H1 as [|? ? Hb H2]; subst.
  inversion H2 as [|? ? Hc H3]; subst. inversion H3 as [|? ? He _]; subst.
  exists a, b, c, e. auto.
Qed.

Lemma digits_3 d : digits 3 d ->
  exists a b c, d = [a; b; c] /\ isdecimal a = true /\ isdecimal b = true
                /\ isdecimal c = true.
Proof.
  intros [Hlen Hall]. destruct d as [|a [|b [|c [|]]]]; try discriminate Hlen.
  inversion Hall as [|? ? Ha H1]; subst. inversion H1 as [|? ? Hb H2]; subst.
  inversion H2 as [|? ? Hc _]; subst.
  exists a, b, c. auto.
Qed.

Ltac not_a_digit :=
  match goal with
  | Hd : isdecimal (Npos _) = true |- _ => cbv in Hd; discriminate Hd
  end.

Ltac peel E l :=
  destruct l as [|? l];
  [ cbn [app] in E; first [discriminate E | injection E; intros; subst; not_a_digit]
  | cbn [app] in E; first [discriminate E | injection E as ? E; subst] ].

(** In the path of a work, ["/TLG"] occurs at the start only. *)
Lemma marker_only_at_start tlg_id underscore w l x :
  digits 4 tlg_id -> digits 3 w ->
  underscore = py "_" \/ underscore = py "%5F" ->
  work_path tlg_id underscore w = l ++ py "/TLG" ++ x -> l = [].
Proof.
  intros Hid Hw Hu E.
  apply digits_4 in Hid as (i1 & i2 & i3 & i4 & -> & D1 & D2 & D3 & D4).
  apply digits_3 in Hw as (w1 & w2 & w3 & -> & D5 & D6 & D7).
  destruct l as [|c0 l]; [reflexivity|]. exfalso.
  destruct Hu as [-> | ->]; vm_compute in E; injection E as ? E; subst.
  - do 21 (try peel E l).
  - do 23 (try peel E l).
Qed.

(** In the address of a work whose base lacks ["/TLG"], it occurs once. *)
Lemma marker_position base tlg_id underscore w pre x :
  digits 4 tlg_id -> digits 3 w ->
  underscore = py "_" \/ underscore = py "%5F" ->
  lacks (py "/TLG") base ->
  base ++ work_path tlg_id underscore w = pre ++ py "/TLG" ++ x -> pre = base.
Proof.
  intros Hid Hw Hu Hbase E.
  apply app_eq_app in E as (l & [[E1 E2]|[E1 E2]]).
  - destruct l as [|a l]; [now rewrite app_nil_r in E1|]. exfalso.
    unfold work_path in E2.
    destruct l as [|b [|c [|d l]]]; try (vm_compute in E2; discriminate E2).
    change (py "/TLG") with [47; 84; 76; 71]%N in E2. cbn [app] in E2.
    injection E2 as <- <- <- <- E2.
    apply (Hbase pre l). exact E1.
  - apply (marker_only_at_start _ _ _ _ _ Hid Hw Hu) in E2. subst l.
    now rewrite app_nil_r in E1.
Qed.

(** Where and what a URL pattern matches in the address of a work. *)
Lemma match_in_work_address base tlg_id underscore w pattern_underscore pre suf m :
  digits 4 tlg_id -> digits 3 w ->
  underscore = py "_" \/ underscore = py "%5F" ->
  pattern_underscore = py "_" \/ pattern_underscore = py "%5F" ->
  lacks (py "/TLG") base ->
  base ++ work_path tlg_id underscore w = pre ++ suf ->
  In m (match_here false (url_pattern pattern_underscore) suf []) ->
  pre = base /\ pattern_underscore = underscore /\ snd m = [tlg_id; w].
Proof.
  intros Hid Hw Hu Hpu Hbase E Hm.
  apply match_url_pattern in Hm as (a & d & w' & Es & Ha & Hd & Hw' & Hg).
  rewrite Es in E.
  pose proof (marker_position _ _ _ _ _ _ Hid Hw Hu Hbase E) as ->.
  split; [reflexivity|].
  apply app_inv_head in E. unfold work_path in E. apply app_inv_head in E.
  apply app_inj_1 in E as [<- E]; [|destruct Hid, Ha; congruence].
  apply app_inv_head in E.
  apply app_inj_1 in E as [<- E]; [|destruct Hid, Hd; congruence].
  assert (Hsame : pattern_underscore = underscore).
  { destruct Hu as [-> | ->], Hpu as [-> | ->]; try reflexivity;
      vm_compute in E; discriminate E. }
  split; [exact Hsame|]. subst pattern_underscore.
  apply app_inv_head in E.
  apply app_inj_1 in E as [<- _]; [|destruct Hw, Hw'; congruence].
  exact Hg.
Qed.

Lemma search_work_address base tlg_id underscore w :
  digits 4 tlg_id -> digits 3 w ->
  underscore = py "_" \/ underscore = py "%5F" ->
  lacks (py "/TLG") base ->
  re_search false (url_pattern underscore) (base ++ work_path tlg_id underscore w)
  = Some [tlg_id; w].
Proof.
  intros Hid Hw Hu Hbase.
  rewrite re_search_skip.
  - rewrite re_search_unfold.
    destruct (match_here false (url_pattern underscore) (work_path tlg_id underscore w) [])
      as [|m ms] eqn:Em.
    + exfalso.
      assert (Hin : In ([], [tlg_id; w])
                       (match_here false (url_pattern underscore)
                          (work_path tlg_id underscore w) [])).
      { apply match_url_pattern. exists tlg_id, tlg_id, w. cbn [fst snd].
        unfold work_path. rewrite app_nil_r. auto. }
      rewrite Em in Hin. exact Hin.
    + f_equal.
      eapply (match_in_work_address base tlg_id underscore w underscore base _ m);
        eauto.
      rewrite Em. now left.
  - intros p q -> Hq.
    destruct (match_here false (url_pattern underscore) (q ++ work_path tlg_id underscore w) [])
      as [|m ms] eqn:Em; [reflexivity|]. exfalso.
    assert (Hin : In m (match_here false (url_pattern underscore)
                          (q ++ work_path tlg_id underscore w) []))
      by (rewrite Em; now left).
    eapply (match_in_work_address (p ++ q) tlg_id underscore w underscore p) in Hin
      as (Hp & _); eauto; [|now rewrite <- app_assoc].
    apply Hq. apply (app_inv_head p). now rewrite app_nil_r.
Qed.

Lemma parse_work_address (base tlg_id w : pystr) :
  digits 4 tlg_id -> digits 3 w -> lacks (py "/TLG") base ->
  parse_url_reference (plain_url base tlg_id w) = Returns (tlg_id, w)
  /\ parse_url_reference (encoded_url base tlg_id w) = Returns (tlg_id, w).
Proof.
  intros Hid Hw Hbase. unfold parse_url_reference. split.
  - change (plain_url base tlg_id w) with (base ++ work_path tlg_id (py "_") w).
    rewrite search_work_address by auto. reflexivity.
  - change (encoded_url base tlg_id w) with (base ++ work_path tlg_id (py "%5F") w).
    rewrite (re_search_none_intro false (url_pattern (py "_"))).
    + rewrite search_work_address by auto. reflexivity.
    + intros pre suf E.
      destruct (match_here false (url_pattern (py "_")) suf []) as [|m ms] eqn:Em;
        [reflexivity|]. exfalso.
      assert (Hin : In m (match_here false (url_pattern (py "_")) suf []))
        by (rewrite Em; now left).
      eapply (match_in_work_address base tlg_id (py "%5F") w (py "_") pre) in Hin
        as (_ & Hsame & _); eauto.
      vm_compute in Hsame. discriminate Hsame.
Qed.

(** X7. The addresses built for a work are read back by
    [parse_url_reference]: for an author identifier of four decimal
    digits, a work identifier of three, and a base address in which
    ["/TLG"] does not occur, both spellings of the address give back the
    author and the work identifier. *)
Theorem work_address_parses_back (base tlg_id w : pystr) :
  digits 4 tlg_id -> digits 3 w -> lacks (py "/TLG") base ->
  parse_url_reference (plain_url base tlg_id w) = Returns (tlg_id, w)
  /\ parse_url_reference (encoded_url base tlg_id w) = Returns (tlg_id, w).
Proof. apply parse_work_address. Qed.
End Addresses.

Lemma sample_base_lacks_marker : lacks (py "/TLG") (py "http://217.71.231.54:8080").
Proof.
  intros pre post E.
  assert (Hlen : (length pre <= 21)%nat).
  { apply (f_equal (@length N)) in E. rewrite !length_app in E.
    change (length (py "http://217.71.231.54:8080")) with 25%nat in E.
    change (length (py "/TLG")) with 4%nat in E. lia. }
  vm_compute in E.
  do 22 (destruct pre as [|? pre]; [discriminate E|injection E as ? E; subst]).
  simpl in Hlen. lia.
Qed.

Lemma work_address_parses_back_witness :
  @parse_url_reference ascii_only
    (plain_url (py "http://217.71.231.54:8080") (py "0012") (py "001"))
  = Returns (py "0012", py "001")
  /\ @parse_url_reference ascii_only
       (encoded_url (py "http://217.71.231.54:8080") (py "0012") (py "001"))
     = Returns (py "0012", py "001").
Proof.
  apply (@work_address_parses_back ascii_only).
  - split; [reflexivity|]. repeat constructor.
  - split; [reflexivity|]. repeat constructor.
  - exact sample_base_lacks_marker.
Defined.

(** ** The fetcher: final answers, persistent failures, waiting time *)

Lemma seqZ_nil_le a n : n <= 0 -> seqZ a n = [].
Proof. intros Hn. unfold seqZ. now replace (Z.to_nat n) with 0%nat by lia. Qed.

Lemma seqZ_S a (m : nat) : seqZ a (Z.of_nat (S m)) = a :: seqZ (a + 1) (Z.of_nat m).
Proof.
  rewrite seqZ_cons by lia. f_equal. f_equal; lia.
Qed.

Lemma total_sleep_app evs1 evs2 :
  (total_sleep (evs1 ++ evs2) == total_sleep evs1 + total_sleep evs2)%Q.
Proof.
  induction evs1 as [|[url|url|seconds] evs1 IH]; simpl.
  - now rewrite Qplus_0_l.
  - exact IH.
  - exact IH.
  - rewrite IH. now rewrite Qplus_assoc.
Qed.

Lemma pow2_succ_Q k : 0 <= k -> (inject_Z (2 ^ (k + 1)) == 2 * inject_Z (2 ^ k))%Q.
Proof.
  intros Hk. rewrite Z.pow_add_r by lia. rewrite inject_Z_mult.
  change (inject_Z (2 ^ 1)) with 2%Q. apply Qmult_comm.
Qed.

(** The whole schedule from attempt [k] on sleeps [(2^(k+m) - 2^k) * delay]. *)
Lemma total_sleep_schedule url delay (m : nat) : forall k, 0 <= k ->
  (total_sleep (backoff_schedule url delay (seqZ k (Z.of_nat m)))
   == (inject_Z (2 ^ (k + Z.of_nat m)) - inject_Z (2 ^ k)) * delay)%Q.
Proof.
  induction m as [|m IH]; intros k Hk.
  - rewrite seqZ_nil_le by lia. cbn [backoff_schedule total_sleep]. rewrite Z.add_0_r. ring.
  - rewrite seqZ_S. cbn [backoff_schedule total_sleep].
    rewrite IH by lia.
    replace (k + 1 + Z.of_nat m) with (k + Z.of_nat (S m)) by lia.
    rewrite (pow2_succ_Q k) by lia. ring.
Qed.

Lemma pow2_pos_Q k : (0 <= inject_Z (2 ^ k))%Q.
Proof.
  change 0%Q with (inject_Z 0). rewrite <- Zle_Qle. apply Z.pow_nonneg. lia.
Qed.

(** Whatever part of a schedule is left out, it would only add sleep. *)
Lemma total_sleep_schedule_suffix url delay attempts evs rest :
  (0 <= delay)%Q ->
  backoff_schedule url delay attempts = evs ++ rest ->
  (0 <= total_sleep rest)%Q.
Proof.
  intros Hd. revert evs rest. induction attempts as [|k attempts IH]; intros evs rest E.
  - symmetry in E. apply app_eq_nil in E as [_ ->]. apply Qle_refl.
  - cbn [backoff_schedule] in E.
    assert (Hs : (0 <= inject_Z (2 ^ k) * delay)%Q)
      by (apply Qmult_le_0_compat; [apply pow2_pos_Q|assumption]).
    destruct evs as [|e1 evs].
    + simpl in E. subst rest. simpl.
      pose proof (IH [] _ eq_refl) as IH0.
      apply (Qplus_le_compat 0 _ 0 _ Hs) in IH0. now rewrite Qplus_0_l in IH0.
    + injection E as <- E. destruct evs as [|e2 evs].
      * simpl in E. subst rest. simpl.
        pose proof (IH [] _ eq_refl) as IH0.
        apply (Qplus_le_compat 0 _ 0 _ Hs) in IH0. now rewrite Qplus_0_l in IH0.
      * injection E as <- E. now apply (IH evs rest).
Qed.

Section FetcherEdges.
Context `{Config} `{Server}.

(** X8. [fetch_page] does not retry a final answer: with no attempt allowed
    it contacts nobody and returns [None]; when the first answer is a
    readable 200 it returns its text after that one GET; when the first
    answer has a status that is neither 200 nor in [retry_on_status] it
    returns [None] after that one GET.  In the three cases it does not
    sleep.  This holds of both copies. *)
Theorem final_answers_are_not_retried (url : pystr) (h : list event) :
  let first := server_response (h ++ [FetchPage url]) url in
  (forall n, n <= 0 ->
     TLGIntegratedExtractor_fetch_page url n h = (None, h ++ [FetchPage url]))
  /\ (forall n content, 0 < n -> first = HttpResponse 200 (Some content) ->
        TLGIntegratedExtractor_fetch_page url n h
        = (Some content, h ++ [FetchPage url; Get url]))
  /\ (forall n status text, 0 < n -> first = HttpResponse status text ->
        status <> 200 -> status ∉ retry_on_status ->
        TLGIntegratedExtractor_fetch_page url n h = (None, h ++ [FetchPage url; Get url]))
  /\ (max_retries <= 0 -> TLGDiscovery_fetch_page url h = (None, h ++ [FetchPage url]))
  /\ (forall content, 0 < max_retries -> first = HttpResponse 200 (Some content) ->
        TLGDiscovery_fetch_page url h = (Some content, h ++ [FetchPage url; Get url]))
  /\ (forall status text, 0 < max_retries -> first = HttpResponse status text ->
        status <> 200 -> status ∉ retry_on_status ->
        TLGDiscovery_fetch_page url h = (None, h ++ [FetchPage url; Get url])).
Proof.
  cbv zeta.
  assert (Hzero : forall n, n <= 0 ->
             TLGIntegratedExtractor_fetch_page url n h = (None, h ++ [FetchPage url])).
  { intros n Hn. unfold TLGIntegratedExtractor_fetch_page, bind, emit.
    now rewrite seqZ_nil_le. }
  assert (Hstep : forall n, 0 < n ->
             TLGIntegratedExtractor_fetch_page url n h
             = TLGIntegratedExtractor_fetch_attempts n (0 :: seqZ 1 (n - 1)) url
                 (h ++ [FetchPage url])).
  { intros n Hn. unfold TLGIntegratedExtractor_fetch_page, bind, emit.
    rewrite (seqZ_cons 0 n) by lia. reflexivity. }
  assert (Hok : forall n content, 0 < n ->
             server_response (h ++ [FetchPage url]) url = HttpResponse 200 (Some content) ->
             TLGIntegratedExtractor_fetch_page url n h
             = (Some content, h ++ [FetchPage url; Get url])).
  { intros n content Hn E. rewrite Hstep, fetch_attempts_cons by assumption. cbv zeta.
    rewrite E. cbn. now rewrite <- app_assoc. }
  assert (Hfinal : forall n status text, 0 < n ->
             server_response (h ++ [FetchPage url]) url = HttpResponse status text ->
             status <> 200 -> status ∉ retry_on_status ->
             TLGIntegratedExtractor_fetch_page url n h
             = (None, h ++ [FetchPage url; Get url])).
  { intros n status text Hn E Hs Hr. rewrite Hstep, fetch_attempts_cons by assumption.
    cbv zeta. rewrite E.
    rewrite (proj2 (Z.eqb_neq status 200) Hs), (bool_decide_eq_false_2 _ Hr).
    now rewrite <- app_assoc. }
  repeat split; try assumption.
  - intros Hn. rewrite fetch_page_same. now apply Hzero.
  - intros content Hn E. rewrite fetch_page_same. now apply Hok.
  - intros status text Hn E Hs Hr. rewrite fetch_page_same. now apply (Hfinal _ status text).
Qed.

(** The retry loop on an address that is always refused with a status
    of [retry_on_status]. *)
Lemma attempts_refused url n (m : nat) : forall k h,
  (forall h', exists status text,
      server_response h' url = HttpResponse status text
      /\ status <> 200 /\ status ∈ retry_on_status) ->
  TLGIntegratedExtractor_fetch_attempts n (seqZ k (Z.of_nat m)) url h
  = (None, h ++ backoff_schedule url base_delay (seqZ k (Z.of_nat m))).
Proof.
  induction m as [|m IH]; intros k h Hall.
  - rewrite seqZ_nil_le by lia. simpl. now rewrite app_nil_r.
  - rewrite seqZ_S, fetch_attempts_cons. cbv zeta.
    destruct (Hall h) as (status & text & -> & Hs & Hr).
    rewrite (proj2 (Z.eqb_neq status 200) Hs), (bool_decide_eq_true_2 _ Hr).
    rewrite IH by assumption. cbn [backoff_schedule].
    now rewrite <- !app_assoc.
Qed.

(** The retry loop on an address at which every request raises, or gives
    a 200 that cannot be read. *)
Lemma attempts_failing url n (m : nat) : forall k h,
  k + Z.of_nat m = n ->
  (forall h', server_response h' url = RequestError
              \/ server_response h' url = HttpResponse 200 None) ->
  TLGIntegratedExtractor_fetch_attempts n (seqZ k (Z.of_nat m)) url h
  = (None, h ++ removelast (backoff_schedule url base_delay (seqZ k (Z.of_nat m)))).
Proof.
  induction m as [|m IH]; intros k h Hk Hall.
  - rewrite seqZ_nil_le by lia. simpl. now rewrite app_nil_r.
  - rewrite seqZ_S, fetch_attempts_cons. cbv zeta.
    assert (E : TLGIntegratedExtractor_fetch_attempts n (seqZ (k + 1) (Z.of_nat m)) url
                  (if k <? n - 1
                   then (h ++ [Get url]) ++ [Sleep (inject_Z (2 ^ k) * base_delay)]
                   else h ++ [Get url])
                = (None, h ++ removelast (backoff_schedule url base_delay
                                            (k :: seqZ (k + 1) (Z.of_nat m))))).
    { rewrite IH by (assumption || lia).
      cbn [backoff_schedule].
      destruct m as [|m].
      - rewrite (seqZ_nil_le (k + 1)) by lia. cbn [backoff_schedule removelast].
        replace (k <? n - 1) with false by (symmetry; apply Z.ltb_ge; lia).
        now rewrite app_nil_r.
      - replace (k <? n - 1) with true by (symmetry; apply Z.ltb_lt; lia).
        rewrite (seqZ_S (k + 1)). cbn [backoff_schedule removelast].
        now rewrite <- !app_assoc. }
    destruct (Hall h) as [E'|E']; rewrite E'; [|change (200 =? 200) with true];
      cbv iota; exact E.
Qed.

(** Retried every time, the loop in floating point goes on, with the
    sleep after each attempt, through the attempts before the last one
    whose back-off times are finite floats. *)
Lemma attempts_outcome_retried url n (m : nat) : forall k h rest,
  (forall h', retried (server_response h' url) = true) ->
  backoff_in_range base_delay (k + Z.of_nat m) = true -> 0 <= k ->
  k + Z.of_nat m < n ->
  TLGIntegratedExtractor_fetch_attempts_outcome n (seqZ k (Z.of_nat m) ++ rest) url h
  = TLGIntegratedExtractor_fetch_attempts_outcome n rest url
      (h ++ backoff_schedule url base_delay (seqZ k (Z.of_nat m))).
Proof.
  induction m as [|m IH]; intros k h rest Hall Hr Hk Hn.
  - rewrite seqZ_nil_le by lia. simpl. now rewrite app_nil_r.
  - rewrite seqZ_S. cbn [app backoff_schedule].
    destruct (backoff_in_range_attempt base_delay (k + Z.of_nat (S m)) k Hr ltac:(lia))
      as [Hlow Hfinite].
    cbn [TLGIntegratedExtractor_fetch_attempts_outcome].
    unfold asyncio_sleep, backoff_time. unfold bind, http_get, sleep, emit, ret.
    destruct (Z.leb_spec 1024 k) as [Hge|_]; [lia|].
    rewrite Hfinite.
    replace (k <? n - 1) with true by (symmetry; apply Z.ltb_lt; lia).
    assert (Hnext : TLGIntegratedExtractor_fetch_attempts_outcome n
                      (seqZ (k + 1) (Z.of_nat m) ++ rest) url
                      ((h ++ [Get url]) ++ [Sleep (inject_Z (2 ^ k) * base_delay)])
                    = TLGIntegratedExtractor_fetch_attempts_outcome n rest url
                        (h ++ Get url :: Sleep (inject_Z (2 ^ k) * base_delay)
                           :: backoff_schedule url base_delay (seqZ (k + 1) (Z.of_nat m)))).
    { rewrite IH; [now rewrite <- !app_assoc|assumption| |lia|lia].
      now replace (k + 1 + Z.of_nat m) with (k + Z.of_nat (S m)) by lia. }
    pose proof (Hall h) as Hretried.
    destruct (server_response h url) as [status [content|]|]; cbn [retried] in Hretried.
    + destruct (status =? 200); [discriminate|]. rewrite Hretried. exact Hnext.
    + destruct (status =? 200); [exact Hnext|]. rewrite Hretried. exact Hnext.
    + exact Hnext.
Qed.

(** With more than 1024 attempts allowed, failures that are retried every
    time end in the [OverflowError] of the back-off time of attempt 1024,
    after 1024 sleeps and one more GET.  This is why the statements on
    the retry loop ask for at most 1024 attempts. *)
Lemma fetch_page_raises_beyond_the_floats (url : pystr) (n : Z) (h : list event) :
  1024 < n -> backoff_in_range base_delay 1024 = true ->
  (forall h', retried (server_response h' url) = true) ->
  TLGIntegratedExtractor_fetch_page_outcome url n h
  = (Raises_OverflowError,
     h ++ FetchPage url :: backoff_schedule url base_delay (seqZ 0 1024) ++ [Get url]).
Proof.
  intros Hn Hr Hall.
  unfold TLGIntegratedExtractor_fetch_page_outcome, bind, emit.
  replace n with (1024 + (n - 1024)) at 2 by lia.
  rewrite seqZ_app by lia. rewrite (seqZ_cons (0 + 1024)) by lia.
  change (0 + 1024) with 1024.
  change 1024 with (Z.of_nat 1024) at 1.
  rewrite (attempts_outcome_retried url n 1024 0) by (assumption || lia).
  change (Z.of_nat 1024) with 1024.
  cbn [TLGIntegratedExtractor_fetch_attempts_outcome].
  unfold backoff_time. unfold bind, http_get, ret.
  change (1024 <=? 1024) with true. cbv iota.
  pose proof (Hall ((h ++ [FetchPage url]) ++ backoff_schedule url base_delay (seqZ 0 1024)))
    as Hretried.
  destruct (server_response _ url) as [status [content|]|]; cbn [retried] in Hretried.
  - destruct (status =? 200); [discriminate|]. rewrite Hretried.
    f_equal. now rewrite <- !app_assoc.
  - destruct (status =? 200); [|rewrite Hretried]; f_equal; now rewrite <- !app_assoc.
  - f_equal. now rewrite <- !app_assoc.
Qed.

(** X9. While every back-off time is a finite float: on an address that
    is refused every time with a status of [retry_on_status],
    [fetch_page] goes through the whole schedule and sleeps after every
    attempt, the last one included, before it returns [None]; when every
    request raises (or gives a 200 whose text cannot be read) it does
    not sleep after the last attempt. *)
Theorem persistent_refusal_sleeps_after_the_last_attempt (url : pystr) (n : Z)
    (h : list event) :
  backoff_in_range base_delay n = true ->
  ((forall h', exists status text,
       server_response h' url = HttpResponse status text
       /\ status <> 200 /\ status ∈ retry_on_status) ->
   TLGIntegratedExtractor_fetch_page_outcome url n h
   = (Fetched None, h ++ FetchPage url :: backoff_schedule url base_delay (seqZ 0 n)))
  /\ ((forall h', server_response h' url = RequestError
                  \/ server_response h' url = HttpResponse 200 None) ->
      TLGIntegratedExtractor_fetch_page_outcome url n h
      = (Fetched None,
         h ++ FetchPage url
           :: removelast (backoff_schedule url base_delay (seqZ 0 n)))).
Proof.
  intros Hrange. rewrite (fetch_page_outcome_in_range url n h Hrange).
  unfold TLGIntegratedExtractor_fetch_page, bind, emit.
  destruct (Z.le_gt_cases n 0) as [Hn|Hn].
  - rewrite seqZ_nil_le by assumption. simpl. split; reflexivity.
  - replace (seqZ 0 n) with (seqZ 0 (Z.of_nat (Z.to_nat n))) by (f_equal; lia).
    split; intros Hall.
    + rewrite attempts_refused by assumption. cbn [fst snd]. now rewrite <- app_assoc.
    + rewrite (attempts_failing url n) by (assumption || lia). cbn [fst snd].
      now rewrite <- app_assoc.
Qed.

(** X10. While every back-off time is a finite float, and whatever the
    host answers, one call of [fetch_page] returns after sleeping at most
    [(2^n - 1)] times the base delay in all, [n] being the number of
    attempts allowed. *)
Theorem fetch_page_waits_at_most (url : pystr) (n : Z) (h : list event) :
  (0 <= base_delay)%Q ->
  backoff_in_range base_delay n = true ->
  exists content evs,
    TLGIntegratedExtractor_fetch_page_outcome url n h = (Fetched content, h ++ evs)
    /\ (total_sleep evs <= (inject_Z (2 ^ Z.max 0 n) - 1) * base_delay)%Q.
Proof.
  intros Hd Hrange. rewrite (fetch_page_outcome_in_range url n h Hrange).
  destruct (integrated_fetch_page_spec url n h) as (evs & E1 & (rest & E2) & _).
  exists (fst (TLGIntegratedExtractor_fetch_page url n h)), (FetchPage url :: evs).
  split; [now rewrite E1|].
  cbn [total_sleep].
  pose proof (total_sleep_schedule_suffix _ _ _ _ _ Hd E2) as Hrest.
  assert (Hall : (total_sleep (backoff_schedule url base_delay (seqZ 0 n))
                  == (inject_Z (2 ^ Z.max 0 n) - 1) * base_delay)%Q).
  { destruct (Z.le_gt_cases n 0) as [Hn|Hn].
    - rewrite seqZ_nil_le by assumption. replace (Z.max 0 n) with 0 by lia.
      change (inject_Z (2 ^ 0)) with 1%Q. cbn [backoff_schedule total_sleep]. ring.
    - replace (seqZ 0 n) with (seqZ 0 (Z.of_nat (Z.to_nat n))) by (f_equal; lia).
      rewrite total_sleep_schedule by lia.
      replace (0 + Z.of_nat (Z.to_nat n)) with (Z.max 0 n) by lia.
      reflexivity. }
  rewrite <- Hall, E2, total_sleep_app.
  rewrite <- (Qplus_0_r (total_sleep evs)) at 1.
  apply Qplus_le_compat; [apply Qle_refl|exact Hrest].
Qed.
End FetcherEdges.

Lemma final_answers_are_not_retried_witness :
  @TLGDiscovery_fetch_page sample_config absent_server (py "/indices/indexA.htm") []
  = (None, [FetchPage (py "/indices/indexA.htm"); Get (py "/indices/indexA.htm")]).
Proof.
  apply (proj2 (proj2 (proj2 (proj2 (proj2
           (@final_answers_are_not_retried sample_config absent_server
              (py "/indices/indexA.htm") [])))))
           404 None).
  - reflexivity.
  - reflexivity.
  - discriminate.
  - vm_compute. intros Hin. repeat (apply elem_of_cons in Hin as [Hin|Hin]; [discriminate Hin|]).
    now apply elem_of_nil in Hin.
Defined.

Lemma persistent_refusal_sleeps_after_the_last_attempt_witness :
  @TLGIntegratedExtractor_fetch_page_outcome sample_config refusing_server (py "/a.htm") 2 []
  = (Fetched None,
     [ FetchPage (py "/a.htm");
       Get (py "/a.htm"); Sleep (inject_Z (2 ^ 0) * (3 # 2));
       Get (py "/a.htm"); Sleep (inject_Z (2 ^ 1) * (3 # 2)) ])
  /\ @TLGIntegratedExtractor_fetch_page_outcome sample_config failing_server (py "/a.htm") 2 []
     = (Fetched None,
        [ FetchPage (py "/a.htm");
          Get (py "/a.htm"); Sleep (inject_Z (2 ^ 0) * (3 # 2));
          Get (py "/a.htm") ]).
Proof.
  split.
  - apply (@persistent_refusal_sleeps_after_the_last_attempt sample_config
             refusing_server (py "/a.htm") 2 []).
    + vm_compute. reflexivity.
    + intros h'. exists 503, None. split; [reflexivity|]. split; [discriminate|].
      vm_compute. do 3 right. now left.
  - apply (@persistent_refusal_sleeps_after_the_last_attempt sample_config
             failing_server (py "/a.htm") 2 []).
    + vm_compute. reflexivity.
    + intros h'. now left.
Defined.

Lemma fetch_page_waits_at_most_witness :
  exists content evs,
    @TLGIntegratedExtractor_fetch_page_outcome sample_config flaky_server (py "/a.htm") 3 []
    = (Fetched content, [] ++ evs)
    /\ (total_sleep evs <= (inject_Z (2 ^ Z.max 0 3) - 1) * (3 # 2))%Q.
Proof.
  apply (@fetch_page_waits_at_most sample_config flaky_server (py "/a.htm") 3 []).
  - discriminate.
  - vm_compute. reflexivity.
Defined.

(** A host that refuses 1025 attempts: the call raises. *)
Example fetch_page_raises_on_the_1025th_attempt :
  fst (@TLGIntegratedExtractor_fetch_page_outcome sample_config refusing_server
         (py "/a.htm") 1025 []) = Raises_OverflowError.
Proof.
  rewrite (@fetch_page_raises_beyond_the_floats sample_config refusing_server
             (py "/a.htm") 1025 []); [reflexivity|lia|vm_compute; reflexivity|].
  intros h'. reflexivity.
Qed.

(** ** What the discoverers record *)

Lemma format_03d_table :
  forallb (fun k => (length (format_03d k) =? 3)%nat && forallb ascii_isdigit (format_03d k))
          (seqZ 0 1000) = true.
Proof. vm_compute. reflexivity. Qed.

(** Up to 999 the work identifier has three decimal digits. *)
Lemma format_03d_digits `{UnicodeData} k : 0 <= k <= 999 -> digits 3 (format_03d k).
Proof.
  intros Hk. pose proof format_03d_table as Ht.
  rewrite forallb_forall in Ht.
  assert (Hin : In k (seqZ 0 1000)) by (apply list_elem_of_In, elem_of_seqZ; lia).
  apply Ht, andb_true_iff in Hin as [Hlen Hall].
  split; [now apply Nat.eqb_eq|].
  rewrite forallb_forall in Hall. apply Forall_forall. intros c Hc.
  apply list_elem_of_In, Hall in Hc. unfold isdecimal, is_ascii.
  assert (Hlt : (c <? 128)%N = true).
  { unfold ascii_isdigit in Hc. apply andb_true_iff in Hc as [_ Hc].
    apply N.leb_le in Hc. apply N.ltb_lt. lia. }
  now rewrite Hlt.
Qed.

Lemma above_threshold_size c : above_threshold c = true -> 1000 < len (default [] c).
Proof. destruct c as [c|]; [|discriminate]. simpl. apply Z.ltb_lt. Qed.

Section Recording.
Context {W : Type} (fetch : pystr -> M (option pystr)) (mk : pystr -> pystr -> Z -> W)
        (delay : Q) (base tlg_id : pystr).

(** The probe of a candidate appends at most the work made from a page
    of more than 1000 characters at one of the candidate's two addresses. *)
Lemma probe_candidate_records (Q : W -> Prop) candidate works misses h :
  (forall url size,
      url = plain_url base tlg_id (format_03d candidate)
      \/ url = encoded_url base tlg_id (format_03d candidate) ->
      1000 < size -> Q (mk (format_03d candidate) url size)) ->
  Forall Q works ->
  Forall Q (fst (fst (fst (probe_candidate fetch mk delay base tlg_id candidate
                             (works, misses) h)))).
Proof.
  intros Hmk Hworks. unfold probe_candidate, bind, sleep, emit, ret. cbv zeta.
  destruct (fetch (plain_url base tlg_id (format_03d candidate)) h) as [c1 h1].
  destruct (above_threshold c1) eqn:E1; cbn [fst snd].
  - apply Forall_app. split; [assumption|]. constructor; [|constructor].
    apply Hmk; [now left|now apply above_threshold_size].
  - destruct (fetch (encoded_url base tlg_id (format_03d candidate)) h1) as [c2 h2].
    destruct (above_threshold c2) eqn:E2; cbn [fst snd].
    + apply Forall_app. split; [assumption|]. constructor; [|constructor].
      apply Hmk; [now right|now apply above_threshold_size].
    + now destruct (max_consecutive_misses <=? misses + 1).
Qed.

Lemma for_each_records (Q : W -> Prop) candidates : forall works misses h,
  Forall (fun candidate =>
            forall url size,
              url = plain_url base tlg_id (format_03d candidate)
              \/ url = encoded_url base tlg_id (format_03d candidate) ->
              1000 < size -> Q (mk (format_03d candidate) url size)) candidates ->
  Forall Q works ->
  Forall Q (fst (fst (for_each candidates (probe_candidate fetch mk delay base tlg_id)
                        (works, misses) h))).
Proof.
  induction candidates as [|candidate candidates IH]; intros works misses h Hall Hworks;
    [assumption|].
  inversion Hall as [|? ? Hc Hrest]; subst.
  cbn [for_each]. unfold bind.
  pose proof (probe_candidate_records Q candidate works misses h Hc Hworks) as Hp.
  destruct (probe_candidate fetch mk delay base tlg_id candidate (works, misses) h)
    as [[[works' misses'] stop] h'].
  cbn [fst snd] in *. destruct stop; [exact Hp|]. now apply IH.
Qed.
End Recording.

Section RecordedWorks.
Context `{Config} `{Server} `{UnicodeData}.

(** X11. Every work returned by the two discoverers was recorded for one of
    the candidates [k] of the run, from a page of more than 1000
    characters: its identifier is [k] in three digits, its address is
    one of the two spellings for [k] and its size is above 1000
    ([TLGDiscovery] titles it ["Work " + identifier]).  When the author
    identifier has four decimal digits, the base address does not
    contain ["/TLG"] and the candidates stop at 999, [parse_url_reference]
    reads the author and the work identifier back from the address of
    every work returned. *)
Theorem discovered_works_come_from_pages (tlg_id : pystr) (max_works : Z) (h : list event) :
  let works := fst (TLGDiscovery_discover_author_works tlg_id max_works h) in
  let entries := fst (TLGIntegratedExtractor_discover_author_works tlg_id h) in
  Forall (fun w => exists k, 1 <= k <= max_works /\ recorded_work base_url tlg_id k w) works
  /\ Forall (fun w => exists k, 1 <= k <= 999 /\ recorded_entry base_url tlg_id k w) entries
  /\ (digits 4 tlg_id -> lacks (py "/TLG") base_url ->
      (max_works <= 999 ->
       Forall (fun w => parse_url_reference (url w) = Returns (tlg_id, work_id w)) works)
      /\ Forall (fun w => parse_url_reference (entry_url w)
                          = Returns (tlg_id, entry_work_id w)) entries).
Proof.
  cbv zeta.
  assert (Hw : Forall (fun w => exists k, 1 <= k <= max_works
                                          /\ recorded_work base_url tlg_id k w)
                 (fst (TLGDiscovery_discover_author_works tlg_id max_works h))).
  { unfold TLGDiscovery_discover_author_works, bind, ret.
    rewrite (for_each_ext _ _ _ _ _ (TLGDiscovery_probe_eq tlg_id)).
    pose proof (for_each_records TLGDiscovery_fetch_page mk_TLGWork REQUEST_DELAY
                  base_url tlg_id
                  (fun w => exists k, 1 <= k <= max_works
                                      /\ recorded_work base_url tlg_id k w)
                  (seqZ 1 max_works) [] 0 h) as Hr.
    destruct (for_each _ _ _ h) as [[works misses] h']. cbn [fst snd] in *.
    apply Hr; [|constructor].
    apply Forall_forall. intros k Hk address size Hurl Hsize.
    apply elem_of_seqZ in Hk. exists k. split; [lia|].
    unfold recorded_work, mk_TLGWork. cbn [work_id title url estimated_size].
    repeat split; try assumption. now exists size. }
  assert (He : Forall (fun w => exists k, 1 <= k <= 999
                                          /\ recorded_entry base_url tlg_id k w)
                 (fst (TLGIntegratedExtractor_discover_author_works tlg_id h))).
  { unfold TLGIntegratedExtractor_discover_author_works, bind, ret.
    rewrite (for_each_ext _ _ _ _ _ (TLGIntegratedExtractor_probe_eq tlg_id)).
    pose proof (for_each_records (fun url => TLGIntegratedExtractor_fetch_page url 2)
                  mk_work_entry base_delay base_url tlg_id
                  (fun w => exists k, 1 <= k <= 999
                                      /\ recorded_entry base_url tlg_id k w)
                  (seqZ 1 (1000 - 1)) [] 0 h) as Hr.
    destruct (for_each _ _ _ h) as [[works misses] h']. cbn [fst snd] in *.
    apply Hr; [|constructor].
    apply Forall_forall. intros k Hk url size Hurl Hsize.
    apply elem_of_seqZ in Hk. exists k. split; [lia|].
    unfold recorded_entry, mk_work_entry.
    cbn [entry_work_id entry_url entry_estimated_size]. auto. }
  split; [exact Hw|]. split; [exact He|].
  intros Hid Hbase. split.
  - intros Hmax. eapply Forall_impl; [exact Hw|].
    intros w (k & Hk & Hid' & _ & Hurl & _). cbn beta.
    destruct (parse_work_address base_url tlg_id (format_03d k) Hid
                (format_03d_digits k ltac:(lia)) Hbase) as [Hp He'].
    rewrite Hid'. now destruct Hurl as [-> | ->].
  - eapply Forall_impl; [exact He|].
    intros w (k & Hk & Hid' & Hurl & _). cbn beta.
    destruct (parse_work_address base_url tlg_id (format_03d k) Hid
                (format_03d_digits k ltac:(lia)) Hbase) as [Hp He'].
    rewrite Hid'. now destruct Hurl as [-> | ->].
Qed.
End RecordedWorks.

Lemma discovered_works_come_from_pages_witness :
  Forall (fun w => @parse_url_reference ascii_only (url w) = Returns (py "0012", work_id w))
         (fst (@TLGDiscovery_discover_author_works sample_config homer_server
                 (py "0012") 999 [])).
Proof.
  apply (proj2 (proj2 (@discovered_works_come_from_pages sample_config homer_server
                         ascii_only (py "0012") 999 []))).
  - split; [reflexivity|]. repeat constructor.
  - exact sample_base_lacks_marker.
  - lia.
Defined.

(** ** The two copies of work discovery *)

Section TwoRecorders.
Context {W1 W2 F : Type} (fetch1 fetch2 : pystr -> M (option pystr))
        (mk1 : pystr -> pystr -> Z -> W1) (mk2 : pystr -> pystr -> Z -> W2)
        (facts1 : W1 -> F) (facts2 : W2 -> F)
        (delay : Q) (base tlg_id : pystr).
Hypothesis same_fetch : forall url h, fetch1 url h = fetch2 url h.
Hypothesis same_facts : forall w u n, facts1 (mk1 w u n) = facts2 (mk2 w u n).

Lemma probe_candidate_agree candidate works1 works2 misses h :
  List.map facts1 works1 = List.map facts2 works2 ->
  let out1 := probe_candidate fetch1 mk1 delay base tlg_id candidate (works1, misses) h in
  let out2 := probe_candidate fetch2 mk2 delay base tlg_id candidate (works2, misses) h in
  snd out1 = snd out2
  /\ snd (fst out1) = snd (fst out2)
  /\ snd (fst (fst out1)) = snd (fst (fst out2))
  /\ List.map facts1 (fst (fst (fst out1))) = List.map facts2 (fst (fst (fst out2))).
Proof.
  intros Hw. cbv zeta. unfold probe_candidate, bind, sleep, emit, ret. cbv zeta.
  rewrite same_fetch.
  destruct (fetch2 (plain_url base tlg_id (format_03d candidate)) h) as [c1 h1].
  destruct (above_threshold c1); cbn [fst snd].
  - repeat split. rewrite !map_app, Hw. cbn [List.map]. now rewrite same_facts.
  - rewrite same_fetch.
    destruct (fetch2 (encoded_url base tlg_id (format_03d candidate)) h1) as [c2 h2].
    destruct (above_threshold c2); cbn [fst snd].
    + repeat split. rewrite !map_app, Hw. cbn [List.map]. now rewrite same_facts.
    + destruct (max_consecutive_misses <=? misses + 1); cbn [fst snd]; auto.
Qed.

Lemma for_each_agree candidates : forall works1 works2 misses h,
  List.map facts1 works1 = List.map facts2 works2 ->
  let out1 := for_each candidates (probe_candidate fetch1 mk1 delay base tlg_id)
                (works1, misses) h in
  let out2 := for_each candidates (probe_candidate fetch2 mk2 delay base tlg_id)
                (works2, misses) h in
  snd out1 = snd out2
  /\ List.map facts1 (fst (fst out1)) = List.map facts2 (fst (fst out2)).
Proof.
  induction candidates as [|candidate candidates IH]; intros works1 works2 misses h Hw;
    cbv zeta; [cbn; auto|].
  cbn [for_each]. unfold bind.
  pose proof (probe_candidate_agree candidate works1 works2 misses h Hw) as Hp.
  cbv zeta in Hp.
  destruct (probe_candidate fetch1 mk1 delay base tlg_id candidate (works1, misses) h)
    as [[[ws1 m1] stop1] h1].
  destruct (probe_candidate fetch2 mk2 delay base tlg_id candidate (works2, misses) h)
    as [[[ws2 m2] stop2] h2].
  cbn [fst snd] in *. destruct Hp as (-> & -> & -> & Hws).
  destruct stop2; [cbn; auto|]. now apply IH.
Qed.
End TwoRecorders.

Section TwoDiscoverers.
Context `{Config} `{Server}.

(** X12. When the configuration allows two attempts for a page, as
    [TLGIntegratedExtractor.discover_author_works] always does, the two
    discoverers do the same thing: on the same host and from the same
    history they leave the same log of requests and sleeps, and they
    return the same works, with the same identifiers, addresses and
    sizes, in the same order. *)
Theorem the_two_discoverers_agree (tlg_id : pystr) (h : list event) :
  max_retries = 2 ->
  let found := TLGDiscovery_discover_author_works tlg_id default_max_works h in
  let entries := TLGIntegratedExtractor_discover_author_works tlg_id h in
  snd found = snd entries
  /\ List.map work_facts (fst found) = List.map entry_facts (fst entries).
Proof.
  intros Hretries. cbv zeta.
  unfold TLGDiscovery_discover_author_works, TLGIntegratedExtractor_discover_author_works,
    bind, ret.
  rewrite (for_each_ext _ _ _ _ _ (TLGDiscovery_probe_eq tlg_id)).
  rewrite (for_each_ext _ _ _ _ _ (TLGIntegratedExtractor_probe_eq tlg_id)).
  change (1000 - 1) with 999. change default_max_works with 999.
  pose proof (for_each_agree TLGDiscovery_fetch_page
                (fun url => TLGIntegratedExtractor_fetch_page url 2)
                mk_TLGWork mk_work_entry work_facts entry_facts
                base_delay base_url tlg_id
                ltac:(intros url h'; rewrite fetch_page_same, Hretries; reflexivity)
                ltac:(reflexivity)
                (seqZ 1 999) [] [] 0 h eq_refl) as Ha.
  cbv zeta in Ha. unfold REQUEST_DELAY.
  destruct (for_each (seqZ 1 999)
              (probe_candidate TLGDiscovery_fetch_page mk_TLGWork base_delay base_url tlg_id)
              ([], 0) h) as [[ws1 m1] h1].
  destruct (for_each (seqZ 1 999)
              (probe_candidate (fun url => TLGIntegratedExtractor_fetch_page url 2)
                 mk_work_entry base_delay base_url tlg_id)
              ([], 0) h) as [[ws2 m2] h2].
  exact Ha.
Qed.
End TwoDiscoverers.

Lemma the_two_discoverers_agree_witness :
  List.map work_facts
    (fst (@TLGDiscovery_discover_author_works two_attempts_config homer_server
            (py "0012") default_max_works []))
  = List.map entry_facts
      (fst (@TLGIntegratedExtractor_discover_author_works two_attempts_config homer_server
              (py "0012") [])).
Proof.
  apply (proj2 (@the_two_discoverers_agree two_attempts_config homer_server
                  (py "0012") [] eq_refl)).
Defined.

(** ** The coverage report: order and contents of the rows *)

Lemma str_leb_total a : forall b, str_leb a b = true \/ str_leb b a = true.
Proof.
  induction a as [|x a IH]; intros [|y b]; simpl; auto.
  rewrite (N.eqb_sym y x). destruct (N.eqb_spec x y) as [->|Hne]; [apply IH|].
  destruct (N.ltb_spec x y); [now left|]. right. apply N.ltb_lt. lia.
Qed.

Lemma str_leb_trans a : forall b c,
  str_leb a b = true -> str_leb b c = true -> str_leb a c = true.
Proof.
  induction a as [|x a IH]; intros [|y b] [|z c]; simpl; try easy.
  destruct (N.eqb_spec x y) as [->|Hxy].
  - destruct (N.eqb_spec y z) as [->|Hyz]; [apply IH|easy].
  - intros Hlt. apply N.ltb_lt in Hlt.
    destruct (N.eqb_spec y z) as [->|Hyz].
    + intros _. destruct (N.eqb_spec x z); [lia|]. now apply N.ltb_lt.
    + intros Hlt'. apply N.ltb_lt in Hlt'.
      destruct (N.eqb_spec x z); [lia|]. apply N.ltb_lt. lia.
Qed.

Lemma str_leb_refl a : str_leb a a = true.
Proof. induction a as [|x a IH]; simpl; [reflexivity|]. now rewrite N.eqb_refl. Qed.

Lemma key_le_total : Total key_le.
Proof.
  intros [a1 w1] [a2 w2]. unfold key_le, key_leb. cbn [fst snd].
  rewrite !Is_true_true.
  destruct (decide (a1 = a2)) as [->|Hne].
  - rewrite !bool_decide_eq_true_2 by reflexivity. apply str_leb_total.
  - rewrite !bool_decide_eq_false_2 by congruence. apply str_leb_total.
Qed.

Lemma key_le_trans : Transitive key_le.
Proof.
  intros [a1 w1] [a2 w2] [a3 w3]. unfold key_le, key_leb. cbn [fst snd].
  rewrite !Is_true_true.
  destruct (decide (a1 = a2)) as [->|H12].
  - rewrite (bool_decide_eq_true_2 (a2 = a2)) by reflexivity.
    destruct (decide (a2 = a3)) as [->|H23].
    + rewrite !bool_decide_eq_true_2 by reflexivity. apply str_leb_trans.
    + rewrite !bool_decide_eq_false_2 by congruence. auto.
  - rewrite (bool_decide_eq_false_2 (a1 = a2)) by congruence.
    destruct (decide (a2 = a3)) as [->|H23].
    + rewrite (bool_decide_eq_true_2 (a3 = a3)) by reflexivity.
      rewrite (bool_decide_eq_false_2 (a1 = a3)) by congruence. auto.
    + rewrite (bool_decide_eq_false_2 (a2 = a3)) by congruence.
      intros Ha Hb. pose proof (str_leb_trans _ _ _ Ha Hb) as Hc.
      destruct (decide (a1 = a3)) as [->|H13].
      * rewrite bool_decide_eq_true_2 by reflexivity.
        exfalso.
        assert (Hanti : forall a b, str_leb a b = true -> str_leb b a = true -> a = b).
        { clear. induction a as [|x a IH]; intros [|y b]; simpl; try easy.
          rewrite (N.eqb_sym y x). destruct (N.eqb_spec x y) as [->|Hne].
          - intros Ha Hb. f_equal. now apply IH.
          - intros Ha Hb. apply N.ltb_lt in Ha, Hb. lia. }
        apply H12. now apply Hanti.
      * now rewrite bool_decide_eq_false_2 by congruence.
Qed.

(** A list sorted by [key_le] without repetition is strictly increasing. *)
Lemma strictly_sorted keys :
  StronglySorted key_le keys -> NoDup keys -> StronglySorted key_lt keys.
Proof.
  induction 1 as [|k keys Hs IH Hall]; intros Hnd; [constructor|].
  apply NoDup_cons in Hnd as [Hnotin Hnd].
  constructor; [now apply IH|].
  apply Forall_forall. intros k' Hk'. split.
  - rewrite Forall_forall in Hall. now apply Hall.
  - intros ->. now apply Hnotin.
Qed.

Section CoverageRows.
Context `{UnicodeData}.

(** The rows after the header are the rows of the sorted keys. *)
Lemma coverage_rows_of_sorted_keys legacy_catalog tlg_catalog languages :
  let L := _collect_works legacy_catalog (language_set languages) in
  let T := _collect_works tlg_catalog (language_set languages) in
  exists rows,
    generate_coverage_csv legacy_catalog tlg_catalog languages = Some (csv_header :: rows)
    /\ Forall2 (fun key row => coverage_row L T key = Some row /\ row_key row = key)
               (sorted (dom L ∪ dom T)) rows.
Proof.
  cbv zeta. unfold generate_coverage_csv. cbv zeta.
  set (L := _collect_works legacy_catalog (language_set languages)).
  set (T := _collect_works tlg_catalog (language_set languages)).
  assert (HL : forall k v, L !! k = Some v -> (c_author_id v, c_work_id v) = k)
    by (intros k v; apply collect_works_key).
  assert (HT : forall k v, T !! k = Some v -> (c_author_id v, c_work_id v) = k)
    by (intros k v; apply collect_works_key).
  assert (Hkeys : forall key, key ∈ sorted (dom L ∪ dom T) -> key ∈ dom L ∪ dom T).
  { intros key. unfold sorted. rewrite merge_sort_Permutation. apply elem_of_elements. }
  destruct (mapM (coverage_row L T) (sorted (dom L ∪ dom T))) as [rows|] eqn:Erows.
  2:{ exfalso. apply mapM_None in Erows. apply Exists_exists in Erows as (key & Hin & Hnone).
      apply Hkeys in Hin. destruct (coverage_row_spec L T key HL HT Hin) as (row & E & _).
      congruence. }
  apply mapM_Some in Erows. exists rows. split; [reflexivity|].
  assert (Hall : Forall (fun key => key ∈ dom L ∪ dom T) (sorted (dom L ∪ dom T)))
    by (apply Forall_forall; exact Hkeys).
  assert (Hgen : forall keys rows,
             Forall2 (fun key row => coverage_row L T key = Some row) keys rows ->
             Forall (fun key => key ∈ dom L ∪ dom T) keys ->
             Forall2 (fun key row => coverage_row L T key = Some row /\ row_key row = key)
                     keys rows).
  { intros keys rows' HF. induction HF as [|key row keys rows' Hrow _ IH]; intros Hall';
      [constructor|].
    inversion Hall' as [|? ? Hkey Hrest]; subst.
    constructor; [|now apply IH].
    split; [assumption|].
    destruct (coverage_row_spec L T key HL HT Hkey) as (row' & E & Hk & _). congruence. }
  now apply Hgen.
Qed.

(** X13. The rows of the coverage report come in strictly increasing order of
    [(author_id, work_id)], the author identifiers being compared first
    and the strings being ordered by code points. *)
Theorem coverage_rows_are_sorted (legacy_catalog tlg_catalog : gmap pystr author_meta)
    (languages : option (list pystr)) :
  exists rows,
    generate_coverage_csv legacy_catalog tlg_catalog languages = Some (csv_header :: rows)
    /\ StronglySorted key_lt (row_key <$> rows).
Proof.
  destruct (coverage_rows_of_sorted_keys legacy_catalog tlg_catalog languages)
    as (rows & E & HF).
  cbv zeta in HF. exists rows. split; [exact E|].
  set (L := _collect_works legacy_catalog (language_set languages)) in *.
  set (T := _collect_works tlg_catalog (language_set languages)) in *.
  assert (Hk : row_key <$> rows = sorted (dom L ∪ dom T)).
  { clear E. induction HF as [|key row keys rows [_ Hrow] _ IH]; [reflexivity|].
    rewrite fmap_cons, IH, Hrow. reflexivity. }
  rewrite Hk. apply strictly_sorted.
  - apply (StronglySorted_merge_sort key_le (Transitive0:=key_le_trans) (Total0:=key_le_total)).
  - unfold sorted. rewrite merge_sort_Permutation. apply NoDup_elements.
Qed.

Lemma collect_works_catalogued catalogue languages key v :
  _collect_works catalogue languages !! key = Some v ->
  catalogued catalogue key = Some (c_author_name v, c_work_title v).
Proof.
  rewrite collect_works_lookup. unfold catalogued.
  destruct (catalogue !! fst key) as [author|]; [|discriminate].
  cbn [mbind option_bind].
  destruct (author_works author) as [works|]; cbn [default from_option id mbind option_bind].
  2:{ rewrite lookup_empty. discriminate. }
  destruct (works !! snd key) as [work|]; [|discriminate].
  destruct (skipped _ work); [discriminate|].
  intros [= <-]. reflexivity.
Qed.

(** X14. The author name and the title of a row are those of the TLG
    catalogue whenever that catalogue has the work (in a selected
    language), also when the legacy catalogue has it too; they are those
    of the legacy catalogue only for a work that the TLG catalogue lacks.
    A name or title missing from the catalogue is written as the empty
    string. *)
Theorem coverage_rows_prefer_tlg_metadata
    (legacy_catalog tlg_catalog : gmap pystr author_meta) (languages : option (list pystr)) :
  let tlg_keys := dom (_collect_works tlg_catalog (language_set languages)) in
  exists rows,
    generate_coverage_csv legacy_catalog tlg_catalog languages = Some (csv_header :: rows)
    /\ forall row, In row rows ->
         (row_key row ∈ tlg_keys ->
          catalogued tlg_catalog (row_key row)
          = Some (row_author_name row, row_work_title row))
         /\ (row_key row ∉ tlg_keys ->
             catalogued legacy_catalog (row_key row)
             = Some (row_author_name row, row_work_title row)).
Proof.
  destruct (coverage_rows_of_sorted_keys legacy_catalog tlg_catalog languages)
    as (rows & E & HF).
  cbv zeta in *. exists rows. split; [exact E|].
  set (L := _collect_works legacy_catalog (language_set languages)) in *.
  set (T := _collect_works tlg_catalog (language_set languages)) in *.
  assert (Hkeys : forall key, key ∈ sorted (dom L ∪ dom T) -> key ∈ dom L ∪ dom T).
  { intros key. unfold sorted. rewrite merge_sort_Permutation. apply elem_of_elements. }
  intros row Hrow. apply list_elem_of_In, list_elem_of_lookup in Hrow as [i Hi].
  destruct (Forall2_lookup_r _ _ _ _ _ HF Hi) as (key & Hkey & Hcov & Hrk).
  rewrite Hrk.
  assert (Hin : key ∈ dom L ∪ dom T) by (apply Hkeys, list_elem_of_lookup; eauto).
  unfold coverage_row in Hcov. cbv zeta in Hcov.
  destruct (decide (key ∈ dom T)) as [Ht|Ht].
  - split; [intros _|contradiction].
    apply elem_of_dom in Ht as Ht'. destruct Ht' as [t Et].
    rewrite (bool_decide_eq_true_2 _ Ht) in Hcov.
    destruct (bool_decide (key ∈ dom L)) eqn:El; cbn [andb] in Hcov.
    + apply bool_decide_eq_true in El. apply elem_of_dom in El as [l El].
      rewrite El, Et in Hcov. cbn in Hcov. injection Hcov as <-.
      apply (collect_works_catalogued _ _ _ _ Et).
    + rewrite Et in Hcov. cbn in Hcov. injection Hcov as <-.
      apply (collect_works_catalogued _ _ _ _ Et).
  - split; [contradiction|intros _].
    assert (Hl : key ∈ dom L) by (apply elem_of_union in Hin; tauto).
    apply elem_of_dom in Hl as Hl'. destruct Hl' as [l El].
    rewrite (bool_decide_eq_false_2 _ Ht), andb_false_r in Hcov.
    rewrite El in Hcov. cbn in Hcov. injection Hcov as <-.
    apply (collect_works_catalogued _ _ _ _ El).
Qed.
End CoverageRows.

Lemma coverage_rows_prefer_tlg_metadata_witness :
  let legacy : gmap pystr author_meta :=
    {[ py "0012" := {| author_name := Some (JStr (py "HOMER"));
                       author_works := Some {[
                         py "001" := {| work_language := Some (JStr (py "grc"));
                                        work_title := Some (JStr (py "Iliad")) |} ]} |} ]} in
  let tlg : gmap pystr author_meta :=
    {[ py "0012" := {| author_name := None;
                       author_works := Some {[
                         py "001" := {| work_language := Some (JStr (py "grc"));
                                        work_title := Some (JStr (py "Ilias")) |} ]} |} ]} in
  exists rows,
    @generate_coverage_csv ascii_only legacy tlg None = Some (csv_header :: rows)
    /\ forall row, In row rows ->
         row_key row = (py "0012", py "001") ->
         (row_author_name row, row_work_title row) = (JStr [], JStr (py "Ilias")).
Proof.
  intros legacy tlg.
  destruct (@coverage_rows_prefer_tlg_metadata ascii_only legacy tlg None) as (rows & E & Hrows).
  exists rows. split; [exact E|]. intros row Hrow Hkey.
  destruct (Hrows row Hrow) as [Htlg _]. rewrite Hkey in Htlg.
  assert (Hin : (py "0012", py "001")
                ∈ dom (@_collect_works ascii_only tlg (@language_set ascii_only None))).
  { apply elem_of_dom.
    exists {| c_author_id := py "0012"; c_work_id := py "001";
              c_author_name := JStr []; c_work_title := JStr (py "Ilias") |}.
    vm_compute. reflexivity. }
  specialize (Htlg Hin).
  assert (Hc : catalogued tlg (py "0012", py "001") = Some (JStr [], JStr (py "Ilias")))
    by (vm_compute; reflexivity).
  rewrite Hc in Htlg. now injection Htlg as <- <-.
Defined.

(** ** The author index, the reference index and the validation report *)

Lemma find_app {A} (p : A -> bool) (l1 l2 : list A) :
  find p (l1 ++ l2) = match find p l1 with Some x => Some x | None => find p l2 end.
Proof. induction l1 as [|x l1 IH]; simpl; [reflexivity|]. now destruct (p x). Qed.

Lemma find_none_intro {A} (p : A -> bool) (l : list A) :
  (forall x, In x l -> p x = false) -> find p l = None.
Proof.
  induction l as [|x l IH]; intros Hall; [reflexivity|].
  simpl. rewrite (Hall x) by now left. apply IH. intros y Hy. apply Hall. now right.
Qed.

Lemma find_is_Some {A} (p : A -> bool) (l : list A) :
  is_Some (find p l) <-> exists x, In x l /\ p x = true.
Proof.
  split.
  - intros [x Hx]. exists x. now apply find_some in Hx.
  - intros (x & Hin & Hp). destruct (find p l) as [y|] eqn:E; [eauto|].
    pose proof (find_none _ _ E x Hin). congruence.
Qed.

Lemma filter_split_length {A} (p : A -> bool) (l : list A) :
  len (List.filter p l) + len (List.filter (fun x => negb (p x)) l) = len l.
Proof.
  unfold len. induction l as [|x l IH]; [reflexivity|].
  simpl. destruct (p x); simpl length; lia.
Qed.

(** *** [_build_author_index] *)

Lemma build_author_index_snoc es e :
  _build_author_index (es ++ [e]) = index_extraction (_build_author_index es) e.
Proof. unfold _build_author_index. now rewrite fold_left_app. Qed.

Lemma index_extraction_lookup authors e author_id :
  index_extraction authors e !! author_id =
  if is_author author_id e then
    Some (set_work (ref_work_id (tlg_reference e)) (work_entry_of e)
            (default (new_author_entry (tlg_reference e)) (authors !! author_id)))
  else authors !! author_id.
Proof.
  unfold index_extraction, is_author. cbv zeta.
  destruct (decide (ref_author_id (tlg_reference e) = author_id)) as [<-|Hne].
  - rewrite (bool_decide_eq_true_2 (_ = _)) by reflexivity.
    case_bool_decide as Hdom.
    + apply not_elem_of_dom in Hdom. rewrite Hdom.
      now rewrite lookup_alter_eq, lookup_insert_eq.
    + apply elem_of_dom in Hdom as [x Hx].
      now rewrite lookup_alter_eq, Hx.
  - rewrite (bool_decide_eq_false_2 (_ = _)) by assumption.
    rewrite lookup_alter_ne by assumption.
    case_bool_decide; [now rewrite lookup_insert_ne|reflexivity].
Qed.

(** The entry of an author in the index, by the first extraction of the
    author and the last extraction of each work. *)
Lemma build_author_index_lookup es : forall author_id,
  match find (is_author author_id) es with
  | None => _build_author_index es !! author_id = None
  | Some first =>
      exists entry,
        _build_author_index es !! author_id = Some entry
        /\ ai_name entry = ref_author_name (tlg_reference first)
        /\ ai_description entry = ref_author_description (tlg_reference first)
        /\ ai_period entry = ref_period (tlg_reference first)
        /\ ai_location entry = ref_location (tlg_reference first)
        /\ ai_traditional_abbrev entry = traditional_abbreviation (tlg_reference first)
        /\ forall work_id,
             ai_works entry !! work_id
             = work_entry_of <$> find (is_work author_id work_id) (rev es)
  end.
Proof.
  induction es as [|e es IH] using rev_ind; intros author_id.
  - simpl. apply lookup_empty.
  - rewrite build_author_index_snoc, index_extraction_lookup, find_app, rev_app_distr.
    specialize (IH author_id). cbn [rev app find].
    destruct (is_author author_id e) eqn:Ea.
    + assert (Hw : forall work_id,
                 is_work author_id work_id e
                 = bool_decide (ref_work_id (tlg_reference e) = work_id)).
      { intros work_id. unfold is_work. now rewrite Ea. }
      destruct (find (is_author author_id) es) as [first|] eqn:Ef.
      * destruct IH as (entry & E & H1 & H2 & H3 & H4 & H5 & Hworks).
        rewrite E. eexists. split; [reflexivity|].
        cbn [default from_option id set_work ai_name ai_description ai_period ai_location
             ai_traditional_abbrev ai_works].
        repeat (split; [assumption|]).
        intros work_id. rewrite Hw. case_bool_decide as Hwid.
        -- subst work_id. now rewrite lookup_insert_eq.
        -- rewrite lookup_insert_ne by assumption. apply Hworks.
      * rewrite IH. eexists. split; [reflexivity|].
        cbn [default from_option id set_work new_author_entry ai_name ai_description
             ai_period ai_location ai_traditional_abbrev ai_works].
        repeat (split; [reflexivity|]).
        intros work_id. rewrite Hw. case_bool_decide as Hwid.
        -- subst work_id. now rewrite lookup_insert_eq.
        -- rewrite lookup_insert_ne, lookup_empty by assumption.
           rewrite find_none_intro; [reflexivity|].
           intros x Hx. apply in_rev in Hx.
           pose proof (find_none _ _ Ef x Hx) as Hx'. unfold is_work. now rewrite Hx'.
    + assert (Hw : forall work_id, is_work author_id work_id e = false).
      { intros work_id. unfold is_work. now rewrite Ea. }
      destruct (find (is_author author_id) es) as [first|] eqn:Ef.
      * destruct IH as (entry & E & H1 & H2 & H3 & H4 & H5 & Hworks).
        exists entry. repeat (split; [assumption|]).
        intros work_id. rewrite Hw. apply Hworks.
      * exact IH.
Qed.

(** X15. [_build_author_index] has an entry for exactly the authors of the
    extractions.  The name, description, period, location and abbreviation
    of an author are those of the first extraction of that author; the
    works of the entry are the works extracted for the author, and the
    entry of a work is made from the last extraction of that work. *)
Theorem author_index_keeps_first_author_and_last_work
    (extractions : list ValidatedExtraction) (author_id : pystr) :
  match find (is_author author_id) extractions with
  | None => _build_author_index extractions !! author_id = None
  | Some first =>
      exists entry,
        _build_author_index extractions !! author_id = Some entry
        /\ ai_name entry = ref_author_name (tlg_reference first)
        /\ ai_description entry = ref_author_description (tlg_reference first)
        /\ ai_period entry = ref_period (tlg_reference first)
        /\ ai_location entry = ref_location (tlg_reference first)
        /\ ai_traditional_abbrev entry = traditional_abbreviation (tlg_reference first)
        /\ forall work_id,
             ai_works entry !! work_id
             = work_entry_of <$> find (is_work author_id work_id) (rev extractions)
  end.
Proof. apply build_author_index_lookup. Qed.

Lemma build_author_index_dom es :
  dom (_build_author_index es)
  = list_to_set (List.map (fun e => ref_author_id (tlg_reference e)) es).
Proof.
  apply set_eq. intros author_id.
  rewrite elem_of_dom, elem_of_list_to_set, list_elem_of_In, in_map_iff.
  pose proof (build_author_index_lookup es author_id) as Hl.
  destruct (find (is_author author_id) es) as [first|] eqn:Ef.
  - destruct Hl as (entry & -> & _). split; [intros _|eauto].
    apply find_some in Ef as [Hin Ha]. exists first. split; [|assumption].
    unfold is_author in Ha. now apply bool_decide_eq_true in Ha.
  - rewrite Hl. split; [intros [? [=]]|].
    intros (e & He & Hin). pose proof (find_none _ _ Ef e Hin) as Hn.
    unfold is_author in Hn. apply bool_decide_eq_false in Hn. contradiction.
Qed.

(** *** Averages *)

Lemma sumQ_bounds (xs : list Q) : forall a,
  Forall (fun x => (0 <= x <= 1)%Q) xs ->
  (a <= fold_left Qplus xs a <= a + inject_Z (len xs))%Q.
Proof.
  induction xs as [|x xs IH]; intros a Hall.
  - simpl. unfold len. simpl. rewrite Qplus_0_r. split; apply Qle_refl.
  - inversion Hall as [|? ? [Hx0 Hx1] Hrest]; subst.
    cbn [fold_left]. destruct (IH (a + x)%Q Hrest) as [Hlo Hhi]. split.
    + eapply Qle_trans; [|exact Hlo].
      rewrite <- (Qplus_0_r a) at 1. apply Qplus_le_compat; [apply Qle_refl|assumption].
    + eapply Qle_trans; [exact Hhi|].
      replace (len (x :: xs)) with (1 + len xs) by (unfold len; simpl length; lia).
      rewrite inject_Z_plus. rewrite Qplus_assoc.
      apply Qplus_le_compat; [|apply Qle_refl].
      apply Qplus_le_compat; [apply Qle_refl|assumption].
Qed.

Section Summaries.
Context `{UnicodeData}.

Lemma greek_ratio_in_unit text :
  (0 <= text_greek_ratio (validate_greek_content text) <= 1)%Q.
Proof.
  pose proof (validate_greek_content_cases text) as Hc. cbv zeta in Hc.
  assert (Hzero : (0 <= 0 <= 1)%Q) by (split; discriminate).
  destruct Hc as [(_ & _ & Hr & _)|[(_ & _ & _ & Hr & _)|(_ & Ha & _ & Hr & _)]];
    rewrite Hr; try exact Hzero.
  apply ratio_bounds; [|assumption]. split; [apply count_nonneg|].
  apply count_le. intros c Hc. now apply andb_true_iff in Hc as [Hc _].
Qed.

Lemma metrics_greek_ratio_in_unit e :
  validated_or_bare e -> (0 <= metrics_greek_ratio (validation_metrics e) <= 1)%Q.
Proof.
  intros [-> | (now & e' & ->)]; cbn [metrics_greek_ratio].
  - split; discriminate.
  - unfold validate_extraction. cbn [validation_text]. apply greek_ratio_in_unit.
Qed.

Lemma avg_greek_ratio_in_unit es :
  Forall validated_or_bare es -> (0 <= avg_greek_ratio es <= 1)%Q.
Proof.
  intros Hall. unfold avg_greek_ratio.
  case_bool_decide as Hnil; cbn [negb]; [split; discriminate|].
  assert (Hlen : 0 < len es).
  { unfold len. destruct es; [congruence|simpl length; lia]. }
  assert (Hpos : (0 < inject_Z (len es))%Q).
  { change 0%Q with (inject_Z 0). now rewrite <- Zlt_Qlt. }
  pose proof (sumQ_bounds
                (List.map (fun e => metrics_greek_ratio (validation_metrics e)) es) 0%Q)
    as Hb.
  destruct Hb as [Hlo Hhi].
  { apply Forall_forall. intros x Hx.
    apply list_elem_of_In, in_map_iff in Hx as (e & <- & He).
    apply metrics_greek_ratio_in_unit.
    rewrite Forall_forall in Hall. now apply Hall, list_elem_of_In. }
  unfold sumQ. split.
  - apply Qle_shift_div_l; [assumption|]. now rewrite Qmult_0_l.
  - apply Qle_shift_div_r; [assumption|]. rewrite Qmult_1_l.
    rewrite Qplus_0_l in Hhi. unfold len in *. now rewrite length_map in Hhi.
Qed.

(** X16. The summary of [save_reference_index] agrees with its author index:
    [total_authors] is the number of entries of ['authors'] and is at
    most [total_works]; so is [valid_extractions].  The average Greek
    ratio is 0 for an empty corpus (nothing is divided by zero), and lies
    between 0 and 1 when the metrics of every extraction are empty or
    come from [validate_extraction]. *)
Theorem reference_index_summary_is_consistent (now : pystr)
    (extractions : list ValidatedExtraction) :
  let index := save_reference_index now extractions in
  index_total_authors index = Z.of_nat (size (dom (index_authors index)))
  /\ 0 <= index_total_authors index <= index_total_works index
  /\ 0 <= index_valid_extractions index <= index_total_works index
  /\ (extractions = [] -> index_avg_greek_ratio index = 0%Q)
  /\ (Forall validated_or_bare extractions ->
      (0 <= index_avg_greek_ratio index <= 1)%Q).
Proof.
  cbv zeta. unfold save_reference_index.
  cbn [index_total_authors index_authors index_total_works index_valid_extractions
       index_avg_greek_ratio].
  split; [now rewrite build_author_index_dom|].
  split.
  { split; [lia|]. unfold len.
    rewrite <- (length_map (fun e => ref_author_id (tlg_reference e)) extractions).
    generalize (List.map (fun e => ref_author_id (tlg_reference e)) extractions).
    intros ids. apply inj_le.
    induction ids as [|x ids IH]; [now rewrite list_to_set_nil, size_empty|].
    rewrite list_to_set_cons. simpl length.
    pose proof (size_union_alt (C:=gset pystr) {[x]} (list_to_set ids)) as Hu.
    rewrite size_singleton in Hu.
    assert (Hsub : list_to_set (C:=gset pystr) ids ∖ {[x]} ⊆ list_to_set ids).
    { intros y Hy. apply elem_of_difference in Hy. tauto. }
    apply subseteq_size in Hsub. lia. }
  split; [split; [apply len_nonneg|apply len_filter_le]|].
  split; [intros ->; reflexivity|].
  apply avg_greek_ratio_in_unit.
Qed.

(** X17. The validation report counts every extracted work once:
    ['total_works'] is the number of extracted works, ['valid_works'] the
    number of those whose metrics have a true ['overall_valid'], and
    ['validation_failures'] has one entry for each of the others, in
    their order, with its reference, its author and its metrics.  The
    validation rate is the percentage of valid works and the average
    ratio is the mean of the Greek ratios; the rate is between 0 and
    100; with nothing extracted both are 0, nothing being divided by
    zero. *)
Theorem validation_report_counts_every_work (extracted_works : list ValidatedExtraction) :
  let report := save_validation_report extracted_works in
  let valid := fun e => metrics_overall_valid (validation_metrics e) in
  report_total_works report = len extracted_works
  /\ report_valid_works report = len (List.filter valid extracted_works)
  /\ report_valid_works report + len (report_failures report) = len extracted_works
  /\ Forall2 reports_failure (report_failures report)
       (List.filter (fun e => negb (valid e)) extracted_works)
  /\ (report_validation_rate report * inject_Z (len extracted_works)
      == 100 * inject_Z (report_valid_works report))%Q
  /\ (report_avg_greek_ratio report * inject_Z (len extracted_works)
      == sumQ (List.map (fun e => metrics_greek_ratio (validation_metrics e))
                 extracted_works))%Q
  /\ (0 <= report_validation_rate report <= 100)%Q
  /\ save_validation_report []
     = {| report_total_works := 0; report_valid_works := 0;
          report_validation_rate := 0; report_avg_greek_ratio := 0;
          report_failures := [] |}.
Proof.
  cbv zeta. unfold save_validation_report.
  cbn [report_valid_works report_failures report_total_works report_validation_rate
       report_avg_greek_ratio].
  set (valid := List.filter (fun e => metrics_overall_valid (validation_metrics e))
                            extracted_works).
  set (failed := List.filter (fun e => negb (metrics_overall_valid (validation_metrics e)))
                             extracted_works).
  assert (Hsplit : len valid + len failed = len extracted_works)
    by apply filter_split_length.
  assert (Hmap : forall {A B} (f : A -> B) l, len (List.map f l) = len l)
    by (intros; unfold len; now rewrite length_map).
  assert (Hlen : extracted_works <> [] -> ~ (inject_Z (len extracted_works) == 0)%Q).
  { intros Hne Hz. unfold Qeq in Hz. cbn [inject_Z Qnum Qden] in Hz.
    destruct extracted_works as [|e rest]; [congruence|].
    unfold len in Hz. cbn [length] in Hz. lia. }
  split; [reflexivity|]. split; [reflexivity|]. split; [now rewrite Hmap|].
  split.
  { clear. induction failed as [|e failed IH]; cbn [List.map]; constructor;
      [repeat split|exact IH]. }
  split.
  { case_bool_decide as Hnil; cbn [negb].
    - subst extracted_works. reflexivity.
    - field. now apply Hlen. }
  split.
  { unfold avg_greek_ratio. case_bool_decide as Hnil; cbn [negb].
    - subst extracted_works. reflexivity.
    - field. now apply Hlen. }
  split; [|reflexivity].
  case_bool_decide as Hnil; cbn [negb]; [split; discriminate|].
  assert (Hpos : 0 < len extracted_works).
  { unfold len. destruct extracted_works; [congruence|simpl length; lia]. }
  pose proof (len_nonneg valid) as Hv. pose proof (len_nonneg failed) as Hf.
  destruct (ratio_bounds (len valid) (len extracted_works) ltac:(lia) Hpos) as [Hlo Hhi].
  unfold ratio in Hlo, Hhi. split.
  - change 0%Q with (0 * 100)%Q. apply Qmult_le_compat_r; [assumption|discriminate].
  - change 100%Q with (1 * 100)%Q at 2. apply Qmult_le_compat_r; [assumption|discriminate].
Qed.
End Summaries.

Lemma reference_index_summary_is_consistent_witness :
  let extraction := {| tlg_reference := sample_reference;
                       text_structure := sample_text_structure fifty_alphas;
                       validation_metrics :=
                         Some (@validate_extraction greek_small_letters []
                                 {| tlg_reference := sample_reference;
                                    text_structure := sample_text_structure fifty_alphas;
                                    validation_metrics := None |}) |} in
  (0 <= index_avg_greek_ratio (save_reference_index [] [extraction; extraction]) <= 1)%Q.
Proof.
  intros extraction.
  apply (proj2 (proj2 (proj2 (proj2
           (@reference_index_summary_is_consistent greek_small_letters []
              [extraction; extraction]))))).
  constructor; [right; eexists; eexists; reflexivity|].
  constructor; [right; eexists; eexists; reflexivity|]. constructor.
Defined.

(** A report on two works: fifty Greek letters under a complete reference,
    which is valid, and the same text under a reference without an author
    name, which is reported as a failure. *)
Example validation_report_sample :
  let validated reference := {|
    tlg_reference := reference;
    text_structure := sample_text_structure fifty_alphas;
    validation_metrics :=
      Some (@validate_extraction greek_small_letters []
              {| tlg_reference := reference;
                 text_structure := sample_text_structure fifty_alphas;
                 validation_metrics := None |}) |} in
  let report := save_validation_report
                  [validated sample_reference; validated nameless_reference] in
  report_total_works report = 2 /\ report_valid_works report = 1
  /\ (report_validation_rate report == 50)%Q
  /\ List.map failure_author (report_failures report) = [ref_author_name nameless_reference].
Proof. vm_compute. repeat split. Qed.

(** Two extractions of the Iliad and one of the Odyssey, the author being
    named differently in the later ones. *)
Example author_index_sample :
  let extraction name work_id title := {|
    tlg_reference := {|
      ref_author_id := py "0012"; ref_author_name := name;
      ref_author_description := []; ref_period := []; ref_location := [];
      ref_work_id := work_id; ref_work_title := title; ref_work_genre := [];
      ref_url := []; traditional_citation := []; traditional_abbreviation := py "Hom.";
      extraction_date := [] |};
    text_structure := sample_text_structure [];
    validation_metrics := None |} in
  let index := _build_author_index
                 [ extraction (py "HOMERUS") (py "001") (py "Ilias");
                   extraction (py "Homer") (py "002") (py "Odyssey");
                   extraction (py "Homer") (py "001") (py "Iliad") ] in
  (ai_name <$> index !! py "0012") = Some (py "HOMERUS")
  /\ (index !! py "0012" ≫= fun a => wi_title <$> ai_works a !! py "001") = Some (py "Iliad")
  /\ size (dom index) = 1%nat.
Proof. vm_compute. repeat split. Qed.

(** ** The integrated extractor: from a page to a validated extraction *)

Lemma lstrip_nil_spaces (s : pystr) : lstrip s = [] -> Forall (fun c => isspace c = true) s.
Proof.
  induction s as [|c s IH]; intros E; [constructor|].
  simpl in E. destruct (isspace c) eqn:Hc; [|discriminate E].
  constructor; [assumption|now apply IH].
Qed.

(** Only a string of white space is stripped to nothing. *)
Lemma strip_nil_spaces (s : pystr) : strip s = [] -> Forall (fun c => isspace c = true) s.
Proof.
  unfold strip, rstrip. intros E.
  apply (f_equal (@rev N)) in E. rewrite rev_involutive in E. simpl in E.
  apply lstrip_nil_spaces in E.
  destruct (lstrip_head s) as [E'|(c & t & E' & Hc)]; [now apply lstrip_nil_spaces|].
  exfalso. rewrite E' in E. rewrite Forall_forall in E.
  rewrite (E c) in Hc; [discriminate|]. apply list_elem_of_In, in_rev.
  rewrite rev_involutive. now left.
Qed.

Lemma count_pos_elem p (s : pystr) : 0 < count p s -> exists c, In c s /\ p c = true.
Proof.
  unfold count, len. destruct (List.filter p s) as [|c t] eqn:E; [simpl; lia|].
  intros _. exists c. apply filter_In. rewrite E. now left.
Qed.

Section Substantial.
Context `{UnicodeData} `{ExtractionConfig}.

Lemma is_substantial_greek_text_spec text :
  is_substantial_greek_text text = true
  <-> text <> [] /\ config_min_text_length <= len text /\ 0 < count isalpha text
      /\ (greek_threshold
          <= ratio (count (fun c => isalpha c && in_greek_ranges c) text)
                   (count isalpha text))%Q.
Proof.
  unfold is_substantial_greek_text. rewrite fold_count_char, !Z.add_0_l.
  pose proof (count_nonneg isalpha text) as Hnn.
  destruct text as [|c text]; [cbn [truthy negb orb]; split; [discriminate|intros [? _]; congruence]|].
  cbn [truthy negb orb].
  destruct (Z.ltb_spec (len (c :: text)) config_min_text_length) as [Hlt|Hge].
  { split; [discriminate|]. intros (_ & ? & _). lia. }
  destruct (Z.eqb_spec (count isalpha (c :: text)) 0) as [E|E].
  { split; [discriminate|]. intros (_ & _ & ? & _). lia. }
  unfold Qleb. rewrite Qle_bool_iff. split.
  - intros Hr. repeat split; try assumption; try discriminate. lia.
  - now intros (_ & _ & _ & Hr).
Qed.

(** X18. [is_substantial_greek_text] accepts a text exactly when it is not
    empty, has at least the configured number of characters and at least
    one alphabetic character, and the Greek share of its alphabetic
    characters reaches the configured threshold; the empty text is
    refused whatever the configuration.  With thresholds at least as
    strict as the validator's (50 characters, ratio 0.2) every text it
    accepts passes [validate_greek_content], and with exactly these
    thresholds the two checks agree on every text. *)
Theorem substantial_text_passes_the_validator (text : pystr) :
  (is_substantial_greek_text text = true
   <-> text <> [] /\ config_min_text_length <= len text /\ 0 < count isalpha text
       /\ (greek_threshold
           <= ratio (count (fun c => isalpha c && in_greek_ranges c) text)
                    (count isalpha text))%Q)
  /\ is_substantial_greek_text [] = false
  /\ (min_text_length <= config_min_text_length ->
      (min_greek_ratio <= greek_threshold)%Q ->
      is_substantial_greek_text text = true ->
      text_valid (validate_greek_content text) = true)
  /\ (config_min_text_length = min_text_length ->
      greek_threshold = min_greek_ratio ->
      is_substantial_greek_text text = text_valid (validate_greek_content text)).
Proof.
  split; [apply is_substantial_greek_text_spec|].
  split; [reflexivity|].
  assert (Hvalid : text_valid (validate_greek_content text) = true
                   <-> min_text_length <= len text /\ 0 < count isalpha text
                       /\ (min_greek_ratio
                           <= ratio (count (fun c => isalpha c && in_greek_ranges c) text)
                                    (count isalpha text))%Q).
  { pose proof (validate_greek_content_cases text) as Hc. cbv zeta in Hc.
    destruct Hc as [(Hlt & -> & _)|[(Hge & Ha & -> & _)|(Hge & Ha & -> & _)]].
    - split; [discriminate|]. intros (? & _). lia.
    - split; [discriminate|]. intros (_ & ? & _). lia.
    - unfold Qleb. rewrite Qle_bool_iff. tauto. }
  split.
  - intros Hlen Hratio Hs. apply is_substantial_greek_text_spec in Hs as (_ & Hl & Ha & Hr).
    apply Hvalid. split; [lia|]. split; [assumption|].
    eapply Qle_trans; eassumption.
  - intros Hlen Hratio.
    destruct (text_valid (validate_greek_content text)) eqn:Ev.
    + destruct (proj1 Hvalid eq_refl) as (Hl & Ha & Hr).
      apply is_substantial_greek_text_spec. rewrite Hlen, Hratio.
      repeat split; try assumption.
      intros ->. unfold min_text_length, len in Hl. simpl in Hl. lia.
    + destruct (is_substantial_greek_text text) eqn:Es; [|reflexivity].
      apply is_substantial_greek_text_spec in Es as (_ & Hl & Ha & Hr).
      rewrite Hlen, Hratio in *.
      assert (Ht : false = true) by (apply Hvalid; auto).
      discriminate Ht.
Qed.
End Substantial.

Lemma substantial_text_passes_the_validator_witness :
  @text_valid (@validate_greek_content greek_small_letters fifty_alphas) = true.
Proof.
  apply (proj1 (proj2 (proj2 (@substantial_text_passes_the_validator greek_small_letters
                                sample_extraction_config fifty_alphas)))).
  - reflexivity.
  - apply Qle_refl.
  - vm_compute. reflexivity.
Defined.

Section PageText.
Context `{UnicodeData} `{HtmlLibrary} `{ExtractionConfig}.

(** A substantial text is not stripped to nothing. *)
Lemma substantial_strip_not_nil source :
  spaces_are_not_letters ->
  is_substantial_greek_text source = true -> strip source <> [].
Proof.
  intros Hsp Hs E. apply is_substantial_greek_text_spec in Hs as (_ & _ & Ha & _).
  apply count_pos_elem in Ha as (c & Hin & Hc).
  apply strip_nil_spaces in E. rewrite Forall_forall in E.
  rewrite (Hsp c) in Hc; [discriminate|]. now apply E, list_elem_of_In.
Qed.

Lemma first_substantial_spec html_content selectors text :
  first_substantial html_content selectors = Some text ->
  exists selector,
    In selector selectors
    /\ select_texts html_content selector <> []
    /\ is_substantial_greek_text (join (py " ") (select_texts html_content selector)) = true
    /\ text = strip (join (py " ") (select_texts html_content selector)).
Proof.
  induction selectors as [|selector rest IH]; [discriminate|].
  cbn [first_substantial]. cbv zeta.
  case_bool_decide as Hnil; cbn [negb].
  - intros E. destruct (IH E) as (s & Hin & Hs). exists s. split; [now right|exact Hs].
  - destruct (is_substantial_greek_text _) eqn:Es.
    + intros [= <-]. exists selector. split; [now left|]. auto.
    + intros E. destruct (IH E) as (s & Hin & Hs). exists s. split; [now right|exact Hs].
Qed.

(** X19. Whatever [extract_greek_from_html] returns is the stripped form of
    a text that passed [is_substantial_greek_text]: the joined texts of
    the elements of a primary selector, else of a fallback selector, else
    the text of the whole page; it has no white space at either end, and
    it is never the empty string (white space not being alphabetic).  A
    text found under a primary selector wins over the others. *)
Theorem extracted_text_is_a_stripped_substantial_text (html_content text : pystr) :
  spaces_are_not_letters ->
  extract_greek_from_html html_content = Some text ->
  text <> [] /\ strip text = text
  /\ (exists source,
        is_substantial_greek_text source = true /\ text = strip source
        /\ (source = soup_get_text html_content
            \/ exists selector,
                 In selector (primary_selectors ++ fallback_selectors)
                 /\ select_texts html_content selector <> []
                 /\ source = join (py " ") (select_texts html_content selector)))
  /\ (forall first, first_substantial html_content primary_selectors = Some first ->
      text = first).
Proof.
  intros Hsp Hex.
  assert (Hsrc : exists source,
             is_substantial_greek_text source = true /\ text = strip source
             /\ (source = soup_get_text html_content
                 \/ exists selector,
                      In selector (primary_selectors ++ fallback_selectors)
                      /\ select_texts html_content selector <> []
                      /\ source = join (py " ") (select_texts html_content selector))).
  { unfold extract_greek_from_html in Hex.
    destruct (first_substantial html_content primary_selectors) as [t|] eqn:E1.
    - injection Hex as <-.
      apply first_substantial_spec in E1 as (s & Hin & Hne & Hs & ->).
      eexists. split; [exact Hs|]. split; [reflexivity|]. right.
      exists s. split; [apply in_or_app; now left|]. auto.
    - destruct (first_substantial html_content fallback_selectors) as [t|] eqn:E2.
      + injection Hex as <-.
        apply first_substantial_spec in E2 as (s & Hin & Hne & Hs & ->).
        eexists. split; [exact Hs|]. split; [reflexivity|]. right.
        exists s. split; [apply in_or_app; now right|]. auto.
      + cbv zeta in Hex.
        destruct (is_substantial_greek_text (soup_get_text html_content)) eqn:Es;
          [|discriminate Hex].
        injection Hex as <-. eexists. split; [exact Es|]. split; [reflexivity|now left]. }
  destruct Hsrc as (source & Hs & -> & Hfrom).
  split; [now apply substantial_strip_not_nil|].
  split; [apply strip_idempotent|].
  split; [exists source; auto|].
  intros first Hfirst. unfold extract_greek_from_html in Hex. rewrite Hfirst in Hex.
  now injection Hex.
Qed.
End PageText.

Lemma ascii_spaces_are_not_letters : @spaces_are_not_letters greek_small_letters.
Proof.
  intros c Hc. unfold isalpha, is_ascii. cbn [isalpha_high greek_small_letters].
  unfold isspace in Hc.
  destruct (N.ltb_spec c 128) as [Hlt|Hge].
  - unfold ascii_isupper, ascii_islower.
    repeat match goal with
           | H : (_ || _)%bool = true |- _ => apply orb_true_iff in H as [H|H]
           | H : (_ && _)%bool = true |- _ => apply andb_true_iff in H as [? ?]
           | H : (_ <=? _)%N = true |- _ => apply N.leb_le in H
           | H : (_ =? _)%N = true |- _ => apply N.eqb_eq in H
           end;
      apply orb_false_iff; split; apply andb_false_iff;
      try (left; apply N.leb_gt; lia); try (right; apply N.leb_gt; lia).
  - repeat match goal with
           | H : (_ || _)%bool = true |- _ => apply orb_true_iff in H as [H|H]
           | H : (_ && _)%bool = true |- _ => apply andb_true_iff in H as [? ?]
           | H : (_ <=? _)%N = true |- _ => apply N.leb_le in H
           | H : (_ =? _)%N = true |- _ => apply N.eqb_eq in H
           end;
      apply andb_false_iff;
      try (left; apply N.leb_gt; lia); try (right; apply N.leb_gt; lia).
Qed.

Lemma extracted_text_is_a_stripped_substantial_text_witness :
  let page := py "  " ++ repeat 0x3B1%N 60 ++ py " " in
  @extract_greek_from_html greek_small_letters plain_pages sample_extraction_config page
  = Some (repeat 0x3B1%N 60)
  /\ repeat 0x3B1%N 60 <> [] /\ strip (repeat 0x3B1%N 60) = repeat 0x3B1%N 60.
Proof.
  intros page.
  assert (E : @extract_greek_from_html greek_small_letters plain_pages
                sample_extraction_config page = Some (repeat 0x3B1%N 60))
    by (vm_compute; reflexivity).
  split; [exact E|].
  destruct (@extracted_text_is_a_stripped_substantial_text greek_small_letters plain_pages
              sample_extraction_config page (repeat 0x3B1%N 60)
              ascii_spaces_are_not_letters E) as (Hne & Hs & _).
  split; assumption.
Defined.

(** *** [preserve_extraction_references] *)

Section Preservation.
Context `{UnicodeData} `{HtmlLibrary}.

Lemma preserve_extraction_references_spec created validated author_data work_data
    html_content clean_text :
  preserve_extraction_references created validated author_data work_data
    html_content clean_text
  = (fun reference =>
       {| tlg_reference := reference;
          text_structure := {| raw_text := clean_text;
                               structured_text := build_structured_text clean_text ∅;
                               line_mapping := ∅; page_mapping := ∅;
                               division_mapping := ∅ |};
          validation_metrics :=
            Some {| overall_valid :=
                      length_check clean_text && ratio_check clean_text
                      && reference_complete reference;
                    validation_text := validate_greek_content clean_text;
                    validation_reference := validate_reference_completeness reference;
                    validation_timestamp := validated |} |})
    <$> create_reference_from_discovery created author_data work_data.
Proof.
  unfold preserve_extraction_references.
  destruct (create_reference_from_discovery created author_data work_data)
    as [reference|]; [|reflexivity].
  cbn [mbind option_bind fmap option_fmap option_map]. cbv zeta.
  unfold validate_extraction, analyze_text_structure. cbv zeta.
  cbn [text_structure raw_text tlg_reference].
  rewrite validate_greek_content_valid, validate_reference_completeness_valid.
  reflexivity.
Qed.

(** X20. [preserve_extraction_references] raises exactly when the reference
    cannot be created.  Otherwise the extraction holds the created
    reference, the clean text as raw text with its paragraphs, and empty
    mappings; its metrics are those that [validate_extraction] gives for
    the extraction itself, and its overall flag is the conjunction of the
    length check and the ratio check on the clean text and of the
    completeness of the reference.  The page's HTML has no influence on
    the result. *)
Theorem preserved_extraction_is_self_consistent (created validated : pystr)
    (author_data work_data : gmap pystr pystr) (html_content clean_text : pystr) :
  let result := preserve_extraction_references created validated author_data work_data
                  html_content clean_text in
  (result = None
   <-> create_reference_from_discovery created author_data work_data = None)
  /\ (forall extraction, result = Some extraction ->
        create_reference_from_discovery created author_data work_data
        = Some (tlg_reference extraction)
        /\ raw_text (text_structure extraction) = clean_text
        /\ structured_text (text_structure extraction)
           = build_structured_text clean_text ∅
        /\ line_mapping (text_structure extraction) = ∅
        /\ page_mapping (text_structure extraction) = ∅
        /\ division_mapping (text_structure extraction) = ∅
        /\ validation_metrics extraction = Some (validate_extraction validated extraction)
        /\ metrics_overall_valid (validation_metrics extraction)
           = length_check clean_text && ratio_check clean_text
             && reference_complete (tlg_reference extraction))
  /\ (forall other_html,
        preserve_extraction_references created validated author_data work_data
          other_html clean_text = result).
Proof.
  cbv zeta. rewrite preserve_extraction_references_spec.
  split; [|split].
  - destruct (create_reference_from_discovery created author_data work_data);
      cbn; split; congruence.
  - intros extraction.
    destruct (create_reference_from_discovery created author_data work_data)
      as [reference|]; cbn [fmap option_fmap option_map]; [|discriminate].
    intros [= <-]. cbn [tlg_reference text_structure raw_text structured_text line_mapping
                        page_mapping division_mapping validation_metrics
                        metrics_overall_valid overall_valid].
    repeat split.
    unfold validate_extraction. cbv zeta. cbn [text_structure raw_text tlg_reference].
    now rewrite validate_greek_content_valid, validate_reference_completeness_valid.
  - intros other_html. now rewrite preserve_extraction_references_spec.
Qed.
End Preservation.

Lemma preserved_extraction_is_self_consistent_witness :
  exists extraction,
    @preserve_extraction_references greek_small_letters plain_pages [] [] homer_data iliad_data
      (py "<td></td>") fifty_alphas = Some extraction
    /\ metrics_overall_valid (validation_metrics extraction) = true.
Proof.
  destruct (@preserve_extraction_references greek_small_letters plain_pages [] []
              homer_data iliad_data (py "<td></td>") fifty_alphas) as [extraction|] eqn:E.
  - exists extraction. split; [reflexivity|].
    destruct (proj1 (proj2 (@preserved_extraction_is_self_consistent greek_small_letters
                              plain_pages [] [] homer_data iliad_data
                              (py "<td></td>") fifty_alphas)) extraction E)
      as (Hr & _ & _ & _ & _ & _ & _ & Hv).
    rewrite Hv.
    assert (Href : create_reference_from_discovery [] homer_data iliad_data
                   = Some {| ref_author_id := py "0012"; ref_author_name := py "HOMERUS";
                             ref_author_description := []; ref_period := [];
                             ref_location := []; ref_work_id := py "001";
                             ref_work_title := py "Iliad";
                             ref_work_genre := py "Epic Poetry";
                             ref_url := py "http://217.71.231.54:8080/TLG0012/0012_001.htm";
                             traditional_citation := py "Hom. Il.";
                             traditional_abbreviation := py "Hom.";
                             extraction_date := [] |})
      by (vm_compute; reflexivity).
    rewrite Href in Hr. injection Hr as <-. vm_compute. reflexivity.
  - exfalso.
    apply (proj1 (@preserved_extraction_is_self_consistent greek_small_letters
                    plain_pages [] [] homer_data iliad_data (py "<td></td>") fifty_alphas))
      in E.
    vm_compute in E. discriminate E.
Defined.

(** *** [extract_work_with_references] *)

Lemma reference_fields now author_data work_data :
  (create_reference_from_discovery now author_data work_data = None
   <-> author_data !! py "tlg_id" = None \/ author_data !! py "name" = None
       \/ work_data !! py "work_id" = None \/ work_data !! py "url" = None)
  /\ forall reference,
       create_reference_from_discovery now author_data work_data = Some reference ->
       author_data !! py "tlg_id" = Some (ref_author_id reference)
       /\ author_data !! py "name" = Some (ref_author_name reference)
       /\ work_data !! py "work_id" = Some (ref_work_id reference)
       /\ work_data !! py "url" = Some (ref_url reference)
       /\ extraction_date reference = now.
Proof.
  unfold create_reference_from_discovery.
  destruct (author_data !! py "tlg_id") as [author_id|] eqn:Ea; cbn [mbind option_bind].
  2:{ split; [split; auto|]. intros ? [=]. }
  destruct (work_data !! py "work_id") as [work_id|] eqn:Ew; cbn [mbind option_bind].
  2:{ split; [split; auto|]. intros ? [=]. }
  destruct (WORK_MAPPINGS !! author_id ≫= (fun works => works !! work_id))
    as [work_info|] eqn:Em;
    (destruct (author_data !! py "name") as [name|] eqn:En; cbn [mbind option_bind];
     [|split; [split; auto|]; intros ? [=]]);
    (destruct (work_data !! py "url") as [url|] eqn:Eu; cbn [mbind option_bind];
     [|split; [split; auto|]; intros ? [=]]).
  all: split; [split; [intros [=]|intros [E|[E|[E|E]]]; discriminate E]|].
  all: intros reference Hr; apply some_inj in Hr; subst reference.
  all: cbn [ref_author_id ref_author_name ref_work_id ref_url extraction_date]; auto.
Qed.

Lemma preserved_extraction_spec_fields `{UnicodeData} `{HtmlLibrary}
    created validated author_data work_data html_content clean_text extraction :
  preserve_extraction_references created validated author_data work_data
    html_content clean_text = Some extraction ->
  create_reference_from_discovery created author_data work_data
  = Some (tlg_reference extraction)
  /\ validation_metrics extraction = Some (validate_extraction validated extraction).
Proof.
  unfold preserve_extraction_references.
  destruct (create_reference_from_discovery created author_data work_data)
    as [reference|]; [|discriminate].
  cbn [mbind option_bind]. cbv zeta. intros [= <-]. split; reflexivity.
Qed.

Section WorkExtraction.
Context `{UnicodeData} `{HtmlLibrary} `{ExtractionConfig} `{Config} `{Server}.

(** X21. What one call of [extract_work_with_references] does to the
    extractor.  A work whose key is already in [processed_works] is
    skipped: [None] is returned, nothing is fetched and nothing changes.
    A missing ['tlg_id'] raises [KeyError], then a missing ['work_id'],
    then, for a work that is not skipped, a missing ['url']: each before
    anything is fetched or changed.  In any other case the page is
    fetched with one call of [fetch_page] and exactly one of the three
    outcome counters goes up by one: when an extraction is returned, the
    work key is added to [processed_works], the extraction is made for the
    author, work and address given, and [successful_extractions] or
    [validation_failures] is counted according to its overall flag; when
    [None] is returned, [failed_extractions] is counted and the key is
    not added, so that the work is fetched again by a later call. *)
Theorem extraction_counts_one_outcome (created validated : pystr)
    (author_data work_data : gmap pystr pystr) (self : extractor) (h : list event) :
  let out := extract_work_with_references created validated author_data work_data self h in
  let result := fst (fst out) in
  let self' := snd (fst out) in
  (forall tlg_id work_id,
      author_data !! py "tlg_id" = Some tlg_id ->
      work_data !! py "work_id" = Some work_id ->
      tlg_id ++ py "_" ++ work_id ∈ processed_works self ->
      out = (Done None, self, h))
  /\ (author_data !! py "tlg_id" = None -> out = (KeyError (py "tlg_id"), self, h))
  /\ (forall tlg_id,
        author_data !! py "tlg_id" = Some tlg_id ->
        work_data !! py "work_id" = None ->
        out = (KeyError (py "work_id"), self, h))
  /\ (forall tlg_id work_id,
        author_data !! py "tlg_id" = Some tlg_id ->
        work_data !! py "work_id" = Some work_id ->
        tlg_id ++ py "_" ++ work_id ∉ processed_works self ->
        work_data !! py "url" = None ->
        out = (KeyError (py "url"), self, h))
  /\ (forall key, result = KeyError key -> self' = self /\ snd out = h)
  /\ (forall tlg_id work_id url,
        author_data !! py "tlg_id" = Some tlg_id ->
        work_data !! py "work_id" = Some work_id ->
        work_data !! py "url" = Some url ->
        tlg_id ++ py "_" ++ work_id ∉ processed_works self ->
        exists evs,
          snd out = h ++ evs /\ fetch_calls evs = [url]
          /\ outcomes_counted self' = outcomes_counted self + 1
          /\ extracted_works self' = extracted_works self
          /\ match result with
             | Done (Some extraction) =>
                 self' = add_processed (tlg_id ++ py "_" ++ work_id)
                           (if metrics_overall_valid (validation_metrics extraction)
                            then count_successful self
                            else count_validation_failure self)
                 /\ ref_author_id (tlg_reference extraction) = tlg_id
                 /\ ref_work_id (tlg_reference extraction) = work_id
                 /\ ref_url (tlg_reference extraction) = url
                 /\ validation_metrics extraction
                    = Some (validate_extraction validated extraction)
             | Done None => self' = count_failed self
             | KeyError _ => False
             end).
Proof.
  cbv zeta. unfold extract_work_with_references.
  split; [|split; [|split; [|split; [|split]]]].
  - intros tlg_id work_id -> -> Hin.
    now rewrite (bool_decide_eq_true_2 _ Hin).
  - now intros ->.
  - now intros tlg_id -> ->.
  - intros tlg_id work_id -> -> Hnotin ->.
    now rewrite (bool_decide_eq_false_2 _ Hnotin).
  - intros key.
    destruct (author_data !! py "tlg_id") as [tlg_id|]; [|now intros _].
    destruct (work_data !! py "work_id") as [work_id|]; [|now intros _].
    case_bool_decide; [discriminate|].
    destruct (work_data !! py "url") as [url|]; [|now intros _].
    unfold bind.
    destruct (TLGIntegratedExtractor_fetch_page url 3 h) as [html_content h'].
    destruct (negb (truthy_opt html_content)); [discriminate|].
    destruct (negb (truthy_opt (extract_greek_from_html (default [] html_content))));
      [discriminate|].
    destruct (preserve_extraction_references _ _ _ _ _ _); discriminate.
  - intros tlg_id work_id url Ha Hw Hu Hnotin. rewrite Ha, Hw, Hu.
    rewrite (bool_decide_eq_false_2 _ Hnotin). unfold bind.
    destruct (integrated_fetch_page_calls url 3 h) as (evs & E1 & E2).
    destruct (TLGIntegratedExtractor_fetch_page url 3 h) as [html_content h'].
    cbn [snd] in E1. exists evs.
    assert (Hfailed : outcomes_counted (count_failed self) = outcomes_counted self + 1)
      by (unfold outcomes_counted, count_failed; cbn; lia).
    destruct (negb (truthy_opt html_content)); [cbn; auto|].
    destruct (negb (truthy_opt (extract_greek_from_html (default [] html_content))));
      [cbn; auto|].
    pose proof (preserved_extraction_spec_fields created validated author_data work_data
                  (default [] html_content)
                  (default [] (extract_greek_from_html (default [] html_content)))) as Hp.
    destruct (preserve_extraction_references created validated author_data work_data
                (default [] html_content)
                (default [] (extract_greek_from_html (default [] html_content))))
      as [extraction|]; [|cbn; auto].
    cbn [fst snd]. split; [assumption|]. split; [assumption|].
    destruct (Hp extraction eq_refl) as (Hr & Hm).
    split.
    { destruct (metrics_overall_valid (validation_metrics extraction));
        unfold outcomes_counted, add_processed, count_successful, count_validation_failure;
        cbn; lia. }
    split; [now destruct (metrics_overall_valid (validation_metrics extraction))|].
    split; [reflexivity|].
    destruct (proj2 (reference_fields created author_data work_data) _ Hr)
      as (Ha' & _ & Hw' & Hu' & _).
    rewrite Ha in Ha'. rewrite Hw in Hw'. rewrite Hu in Hu'.
    injection Ha' as <-. injection Hw' as <-. injection Hu' as <-. auto.
Qed.
End WorkExtraction.

Lemma extraction_counts_one_outcome_witness :
  let extract := @extract_work_with_references greek_small_letters plain_pages
                   sample_extraction_config sample_config alpha_server [] [] in
  let out := extract homer_data iliad_data fresh_extractor [] in
  (exists evs,
     snd out = [] ++ evs
     /\ fetch_calls evs = [py "http://217.71.231.54:8080/TLG0012/0012_001.htm"]
     /\ outcomes_counted (snd (fst out)) = outcomes_counted fresh_extractor + 1)
  /\ extract homer_data {[ py "work_id" := py "001" ]} fresh_extractor []
     = (KeyError (py "url"), fresh_extractor, [])
  /\ extract homer_data ∅ fresh_extractor [] = (KeyError (py "work_id"), fresh_extractor, [])
  /\ extract ∅ iliad_data fresh_extractor [] = (KeyError (py "tlg_id"), fresh_extractor, []).
Proof.
  intros extract out. split; [|split; [|split]].
  - destruct (proj2 (proj2 (proj2 (proj2 (proj2
               (@extraction_counts_one_outcome greek_small_letters plain_pages
                  sample_extraction_config sample_config alpha_server [] []
                  homer_data iliad_data fresh_extractor [])))))
                (py "0012") (py "001") (py "http://217.71.231.54:8080/TLG0012/0012_001.htm"))
      as (evs & E1 & E2 & E3 & _).
    + vm_compute. reflexivity.
    + vm_compute. reflexivity.
    + vm_compute. reflexivity.
    + apply not_elem_of_empty.
    + exists evs. auto.
  - apply (proj1 (proj2 (proj2 (proj2
             (@extraction_counts_one_outcome greek_small_letters plain_pages
                sample_extraction_config sample_config alpha_server [] []
                homer_data {[ py "work_id" := py "001" ]} fresh_extractor []))))
             (py "0012") (py "001")).
    + vm_compute. reflexivity.
    + vm_compute. reflexivity.
    + apply not_elem_of_empty.
    + vm_compute. reflexivity.
  - apply (proj1 (proj2 (proj2
             (@extraction_counts_one_outcome greek_small_letters plain_pages
                sample_extraction_config sample_config alpha_server [] []
                homer_data ∅ fresh_extractor [])))
             (py "0012")).
    + vm_compute. reflexivity.
    + reflexivity.
  - apply (proj1 (proj2
             (@extraction_counts_one_outcome greek_small_letters plain_pages
                sample_extraction_config sample_config alpha_server [] []
                ∅ iliad_data fresh_extractor []))).
    reflexivity.
Defined.

(** *** From the page to the validation *)

Lemma lstrip_margin (s : pystr) :
  exists pre, s = pre ++ lstrip s /\ Forall (fun c => isspace c = true) pre.
Proof.
  induction s as [|c s IH].
  - exists []. split; [reflexivity|constructor].
  - simpl. destruct (isspace c) eqn:Hc.
    + destruct IH as (pre & E & Hpre). exists (c :: pre). split.
      * simpl. now rewrite <- E.
      * now constructor.
    + exists []. split; [reflexivity|constructor].
Qed.

(** [strip] removes white space only. *)
Lemma strip_margins (s : pystr) :
  exists pre post,
    s = pre ++ strip s ++ post
    /\ Forall (fun c => isspace c = true) pre /\ Forall (fun c => isspace c = true) post.
Proof.
  destruct (lstrip_margin s) as (pre & E & Hpre).
  destruct (lstrip_margin (rev (lstrip s))) as (post & E' & Hpost).
  exists pre, (rev post). unfold strip, rstrip.
  split; [|split; [assumption|]].
  - rewrite E at 1. f_equal.
    rewrite <- (rev_involutive (lstrip s)) at 1. rewrite E' at 1.
    now rewrite rev_app_distr.
  - apply Forall_forall. intros c Hc. rewrite Forall_forall in Hpost.
    apply Hpost. apply list_elem_of_In. apply list_elem_of_In in Hc.
    now apply in_rev.
Qed.

Lemma count_app p (a b : pystr) : count p (a ++ b) = count p a + count p b.
Proof. unfold count. now rewrite List.filter_app, len_app. Qed.

Lemma count_none p (s : pystr) : Forall (fun c => p c = false) s -> count p s = 0.
Proof.
  unfold count, len. induction 1 as [|c s Hc _ IH]; [reflexivity|].
  simpl. now rewrite Hc.
Qed.

(** Stripping does not change the number of characters of a kind to which
    no white space belongs. *)
Lemma count_strip p (s : pystr) :
  (forall c, isspace c = true -> p c = false) -> count p (strip s) = count p s.
Proof.
  intros Hp. destruct (strip_margins s) as (pre & post & E & Hpre & Hpost).
  rewrite E at 2. rewrite !count_app.
  rewrite (count_none p pre), (count_none p post); [lia| |];
    (eapply Forall_impl; [eassumption|]); intros c Hc; now apply Hp.
Qed.

Section Pipeline.
Context `{UnicodeData} `{HtmlLibrary} `{ExtractionConfig}.

(** X22. A text returned by [extract_greek_from_html] keeps the Greek ratio
    that made it substantial (white space not being alphabetic): when the
    configured threshold is at least the validator's 0.2, it always passes
    the ratio check of [validate_greek_content].  So the overall flag of
    an extraction preserved for such a text depends only on the length of
    the stripped text and on the completeness of the reference. *)
Theorem extracted_text_passes_the_ratio_check (html_content text : pystr) :
  spaces_are_not_letters ->
  (min_greek_ratio <= greek_threshold)%Q ->
  extract_greek_from_html html_content = Some text ->
  ratio_check text = true
  /\ forall created validated author_data work_data extraction,
       preserve_extraction_references created validated author_data work_data
         html_content text = Some extraction ->
       metrics_overall_valid (validation_metrics extraction)
       = length_check text && reference_complete (tlg_reference extraction).
Proof.
  intros Hsp Hthr Hex.
  assert (Hsrc : exists source,
             is_substantial_greek_text source = true /\ text = strip source).
  { unfold extract_greek_from_html in Hex.
    destruct (first_substantial html_content primary_selectors) as [t|] eqn:E1.
    - injection Hex as <-. apply first_substantial_spec in E1 as (s & _ & _ & Hs & ->).
      eauto.
    - destruct (first_substantial html_content fallback_selectors) as [t|] eqn:E2.
      + injection Hex as <-. apply first_substantial_spec in E2 as (s & _ & _ & Hs & ->).
        eauto.
      + cbv zeta in Hex.
        destruct (is_substantial_greek_text (soup_get_text html_content)) eqn:Es;
          [|discriminate Hex].
        injection Hex as <-. eauto. }
  destruct Hsrc as (source & Hs & ->).
  apply is_substantial_greek_text_spec in Hs as (_ & _ & Ha & Hr).
  assert (Hratio : ratio_check (strip source) = true).
  { unfold ratio_check, greek_ratio_of. cbv zeta.
    rewrite (count_strip isalpha) by exact Hsp.
    rewrite (count_strip (fun c => isalpha c && in_greek_ranges c))
      by (intros c Hc; now rewrite (Hsp c Hc)).
    destruct (Z.eqb_spec (count isalpha source) 0) as [E|_]; [lia|].
    unfold Qleb. apply Qle_bool_iff. eapply Qle_trans; eassumption. }
  split; [exact Hratio|].
  intros created validated author_data work_data extraction Hp.
  rewrite preserve_extraction_references_spec in Hp.
  destruct (create_reference_from_discovery created author_data work_data)
    as [reference|]; cbn [fmap option_fmap option_map] in Hp; [|discriminate Hp].
  injection Hp as <-.
  cbn [validation_metrics metrics_overall_valid overall_valid tlg_reference].
  now rewrite Hratio, andb_true_r.
Qed.
End Pipeline.

Lemma extracted_text_passes_the_ratio_check_witness :
  let page := py "  " ++ repeat 0x3B1%N 60 ++ py " " in
  @ratio_check greek_small_letters (repeat 0x3B1%N 60) = true.
Proof.
  intros page.
  apply (proj1 (@extracted_text_passes_the_ratio_check greek_small_letters plain_pages
                  sample_extraction_config page (repeat 0x3B1%N 60)
                  ascii_spaces_are_not_letters
                  ltac:(apply Qle_refl) ltac:(vm_compute; reflexivity))).
Defined.

(** ** The corrected extractor *)

(** A ratio above three tenths, without division. *)
Lemma ratio_above_three_tenths g t :
  0 < t -> Qltb (3 # 10) (ratio g t) = true <-> 3 * t < 10 * g.
Proof.
  intros Ht. rewrite Qltb_true. unfold ratio.
  destruct t as [|p|p]; try lia.
  unfold Qlt, Qdiv, Qmult, Qinv, inject_Z. cbn [Qnum Qden].
  rewrite Pos.mul_1_l. lia.
Qed.

Section Corrected.
Context `{UnicodeData} `{HtmlLibrary} `{ExtractionConfig} `{Config} `{Server}.

Lemma first_long_text_spec html_content selectors text :
  first_long_text html_content selectors = Some text ->
  100 < len text
  /\ exists selector,
       In selector selectors /\ text = join (py " ") (select_texts html_content selector).
Proof.
  induction selectors as [|selector rest IH]; [discriminate|].
  cbn [first_long_text]. cbv zeta.
  case_bool_decide as Hnil; cbn [negb].
  - intros E. destruct (IH E) as (Hl & s & Hin & Hs). split; [assumption|].
    exists s. split; [now right|assumption].
  - destruct (Z.ltb_spec 100 (len (join (py " ") (select_texts html_content selector))))
      as [Hlt|Hge].
    + intros [= <-]. split; [assumption|]. exists selector. split; [now left|reflexivity].
    + intros E. destruct (IH E) as (Hl & s & Hin & Hs). split; [assumption|].
      exists s. split; [now right|assumption].
Qed.

(** X23. [fetch_and_extract_work] asks for the plain address of the work
    once, and never again: one GET, no sleep, whatever the answer; it
    returns [None] unless the answer is a readable 200.  When it returns a
    result, the text was taken from a primary selector and has more than
    100 characters; the result carries the two parts made of it by
    [separate_greek_from_metadata] and at most its first 1000 characters
    as ['mixed_content']; ['total_chars'] is the length of the Greek
    part (line breaks included), ['greek_chars'] the number of its
    characters in the Greek ranges, at most [total_chars]; the ratio is
    between 0 and 1; and ['has_substantial_greek'] holds exactly when the
    Greek part has more than 100 characters of which more than three
    tenths are Greek. *)
Theorem corrected_extraction_measures_the_greek_text
    (now author_id work_id work_title : pystr) (h : list event) :
  let address := plain_url base_url author_id work_id in
  let out := fetch_and_extract_work now author_id work_id work_title h in
  snd out = h ++ [Get address]
  /\ (is_ok (server_response h address) = false -> fst out = None)
  /\ forall r, fst out = Some r ->
       exists html_content extracted selector,
         server_response h address = HttpResponse 200 (Some html_content)
         /\ In selector primary_selectors
         /\ extracted = join (py " ") (select_texts html_content selector)
         /\ 100 < len extracted
         /\ ce_author_id r = author_id /\ ce_work_id r = work_id
         /\ ce_work_title r = work_title /\ ce_url r = address
         /\ ce_greek_text r = greek_text (separate_greek_from_metadata extracted)
         /\ ce_metadata r = metadata (separate_greek_from_metadata extracted)
         /\ ce_mixed_content r = take 1000 extracted
         /\ len (ce_mixed_content r) <= 1000
         /\ ce_total_chars r = len (ce_greek_text r)
         /\ ce_greek_chars r = count in_greek_ranges (ce_greek_text r)
         /\ 0 <= ce_greek_chars r <= ce_total_chars r
         /\ (0 <= ce_greek_ratio r <= 1)%Q
         /\ (has_substantial_greek r = true
             <-> 100 < ce_total_chars r /\ 3 * ce_total_chars r < 10 * ce_greek_chars r).
Proof.
  cbv zeta. unfold fetch_and_extract_work, bind, http_get, ret. cbv zeta.
  change (base_url ++ py "/TLG" ++ author_id ++ py "/" ++ author_id ++ py "_"
          ++ work_id ++ py ".htm") with (plain_url base_url author_id work_id).
  set (address := plain_url base_url author_id work_id).
  destruct (server_response h address) as [status [html_content|]|] eqn:Er;
    cbn [is_ok].
  2:{ destruct (negb (status =? 200)); cbn; repeat split; discriminate. }
  2:{ cbn. repeat split. discriminate. }
  destruct (Z.eqb_spec status 200) as [->|Hs]; cbn [negb].
  2:{ cbn. repeat split. discriminate. }
  destruct (first_long_text html_content primary_selectors) as [extracted|] eqn:Ex;
    cbn [truthy_opt].
  2:{ cbn. repeat split; discriminate. }
  destruct (first_long_text_spec _ _ _ Ex) as (Hlen & selector & Hin & Hsel).
  assert (Ht : truthy extracted = true).
  { destruct extracted; [|reflexivity]. unfold len in Hlen. simpl in Hlen. lia. }
  rewrite Ht. cbn [negb fst snd default from_option id].
  split; [reflexivity|]. split; [discriminate|].
  intros r [= <-].
  exists html_content, extracted, selector.
  cbn [ce_author_id ce_work_id ce_work_title ce_url ce_greek_text ce_metadata
       ce_mixed_content ce_total_chars ce_greek_chars ce_greek_ratio has_substantial_greek].
  set (greek := greek_text (separate_greek_from_metadata extracted)).
  assert (Hmixed : mixed_content (separate_greek_from_metadata extracted) = extracted).
  { unfold separate_greek_from_metadata. cbv zeta.
    now destruct (fold_left separate_line _ _). }
  assert (Htotal : (if truthy greek then len greek else 0) = len greek).
  { destruct greek; reflexivity. }
  rewrite Hmixed, Htotal.
  pose proof (len_nonneg greek) as Hnn.
  pose proof (count_nonneg in_greek_ranges greek) as Hcn.
  assert (Hcl : count in_greek_ranges greek <= len greek) by apply len_filter_le.
  repeat (split; [first [reflexivity|assumption]|]).
  split.
  { unfold len. rewrite length_take. lia. }
  split; [reflexivity|]. split; [reflexivity|]. split; [lia|].
  split.
  { destruct (Z.ltb_spec 0 (len greek)); [apply ratio_bounds; lia|split; discriminate]. }
  rewrite andb_true_iff, Z.ltb_lt.
  destruct (Z.ltb_spec 0 (len greek)) as [Hpos|Hzero].
  - rewrite (ratio_above_three_tenths _ _ Hpos). tauto.
  - split; [intros [_ ?]; lia|intros [? _]; lia].
Qed.
End Corrected.

Lemma corrected_extraction_measures_the_greek_text_witness :
  let out := @fetch_and_extract_work greek_small_letters plain_pages sample_extraction_config
               sample_config lines_server [] (py "0012") (py "001") (py "Homer Iliad") [] in
  exists r,
    fst out = Some r
    /\ ce_total_chars r = len (ce_greek_text r)
    /\ 0 <= ce_greek_chars r <= ce_total_chars r.
Proof.
  intros out.
  destruct (fst out) as [r|] eqn:E; [|vm_compute in E; discriminate E].
  exists r. split; [reflexivity|].
  destruct (proj2 (proj2 (@corrected_extraction_measures_the_greek_text greek_small_letters
                            plain_pages sample_extraction_config sample_config lines_server
                            [] (py "0012") (py "001") (py "Homer Iliad") [])) r E)
    as (html & extracted & selector & _ & _ & _ & _ & _ & _ & _ & _ & _ & _ & _ & _
        & Ht & _ & Hb & _).
  split; assumption.
Defined.

(** Three lines of fifty alphas: 152 characters with the line breaks, 150
    of them Greek. *)
Example fetch_and_extract_work_sample :
  option_map (fun r => (ce_total_chars r, ce_greek_chars r, has_substantial_greek r))
    (fst (@fetch_and_extract_work greek_small_letters plain_pages sample_extraction_config
            sample_config lines_server [] (py "0012") (py "001") (py "Homer Iliad") []))
  = Some (152, 150, true).
Proof. vm_compute. reflexivity. Qed.

(** ** The discovery of all authors and the catalogue *)

(** *** Dictionaries in insertion order *)

Lemma dict_get_set_eq {V} k (v : V) d : dict_get k (dict_set k v d) = Some v.
Proof.
  induction d as [|[k' v'] d IH]; simpl.
  - now rewrite bool_decide_eq_true_2.
  - case_bool_decide as Hk; simpl.
    + now rewrite bool_decide_eq_true_2.
    + now rewrite bool_decide_eq_false_2.
Qed.

Lemma dict_get_set_ne {V} k k' (v : V) d :
  k' <> k -> dict_get k' (dict_set k v d) = dict_get k' d.
Proof.
  intros Hne. induction d as [|[k0 v0] d IH]; simpl.
  - now rewrite bool_decide_eq_false_2 by congruence.
  - case_bool_decide as Hk; simpl.
    + subst k0. now rewrite !bool_decide_eq_false_2 by congruence.
    + now rewrite IH.
Qed.

Lemma dict_values_set {V} (P : V -> Prop) k v d :
  Forall P (dict_values d) -> P v -> Forall P (dict_values (dict_set k v d)).
Proof.
  unfold dict_values. intros Hall Hv.
  induction d as [|[k' v'] d IH]; simpl.
  - constructor; [assumption|constructor].
  - inversion Hall as [|? ? Hv' Hrest]; subst.
    case_bool_decide; simpl; constructor; auto.
Qed.

(** *** [discover_all_authors] *)

Section AllAuthors.
Context `{Config} `{Server} `{IndexPage}.

(** One turn of the loop over the entries of the index. *)
Lemma for_each_discover_cons entry entries self h :
  for_each (entry :: entries) discover_entry self h =
  if bool_decide (ie_tlg_id entry ∈ processed_authors self)
  then for_each entries discover_entry self h
  else
    let works := fst (TLGDiscovery_discover_author_works (ie_tlg_id entry)
                        default_max_works h) in
    let h1 := snd (TLGDiscovery_discover_author_works (ie_tlg_id entry)
                     default_max_works h) in
    for_each entries discover_entry
      {| authors :=
           dict_set (ie_tlg_id entry)
             {| a_tlg_id := ie_tlg_id entry; a_name := ie_name entry;
                a_description := ie_description entry;
                a_location := ie_location entry; a_period := ie_period entry;
                a_work_count := len works; a_works := works;
                a_discovery_method := py "index_crawl" |}
             (authors self);
         processed_authors := {[ie_tlg_id entry]} ∪ processed_authors self |} h1.
Proof.
  cbn [for_each]. unfold bind, discover_entry. cbv zeta.
  case_bool_decide; [reflexivity|]. unfold bind, ret.
  now destruct (TLGDiscovery_discover_author_works (ie_tlg_id entry) default_max_works h).
Qed.

(** The loop over the entries of the index. *)
Lemma discover_entries_spec entries : forall self h,
  let self' := fst (for_each entries discover_entry self h) in
  (forall tlg_id,
      tlg_id ∈ processed_authors self'
      <-> tlg_id ∈ processed_authors self \/ In tlg_id (List.map ie_tlg_id entries))
  /\ (forall tlg_id, tlg_id ∈ processed_authors self ->
        dict_get tlg_id (authors self') = dict_get tlg_id (authors self))
  /\ (forall tlg_id, tlg_id ∉ processed_authors self ->
        match find (fun entry => bool_decide (ie_tlg_id entry = tlg_id)) entries with
        | Some entry =>
            exists author,
              dict_get tlg_id (authors self') = Some author
              /\ a_tlg_id author = tlg_id
              /\ a_name author = ie_name entry
              /\ a_description author = ie_description entry
              /\ a_location author = ie_location entry
              /\ a_period author = ie_period entry
              /\ counts_its_works author
              /\ a_discovery_method author = py "index_crawl"
        | None => dict_get tlg_id (authors self') = dict_get tlg_id (authors self)
        end)
  /\ (Forall counts_its_works (dict_values (authors self)) ->
      Forall counts_its_works (dict_values (authors self'))).
Proof.
  induction entries as [|entry entries IH]; intros self h; cbv zeta.
  - cbn [for_each ret fst List.map find]. repeat split; auto.
    + intros [?|[]]; assumption.
  - rewrite for_each_discover_cons. cbv zeta.
    case_bool_decide as Hproc.
    + specialize (IH self h). cbv zeta in IH.
      destruct IH as (IH1 & IH2 & IH3 & IH4).
      split; [|split; [|split]].
      * intros tlg_id. rewrite IH1. cbn [List.map]. split.
        -- intros [?|?]; [now left|right; now right].
        -- intros [?|[<-|?]]; [now left|now left|now right].
      * exact IH2.
      * intros tlg_id Hnot. cbn [find].
        rewrite bool_decide_eq_false_2 by (intros <-; contradiction).
        now apply IH3.
      * exact IH4.
    + set (works := fst (TLGDiscovery_discover_author_works (ie_tlg_id entry)
                           default_max_works h)).
      set (h1 := snd (TLGDiscovery_discover_author_works (ie_tlg_id entry)
                        default_max_works h)).
      set (author := {| a_tlg_id := ie_tlg_id entry; a_name := ie_name entry;
                        a_description := ie_description entry;
                        a_location := ie_location entry; a_period := ie_period entry;
                        a_work_count := len works; a_works := works;
                        a_discovery_method := py "index_crawl" |}).
      set (self1 := {| authors := dict_set (ie_tlg_id entry) author (authors self);
                       processed_authors := {[ie_tlg_id entry]} ∪ processed_authors self |}).
      specialize (IH self1 h1). cbv zeta in IH.
      destruct IH as (IH1 & IH2 & IH3 & IH4).
      split; [|split; [|split]].
      * intros tlg_id. rewrite IH1. cbn [List.map processed_authors self1].
        rewrite elem_of_union, elem_of_singleton. split.
        -- intros [[->|?]|?]; [right; now left|now left|right; now right].
        -- intros [?|[<-|?]]; [left; now right|left; now left|now right].
      * intros tlg_id Hin. rewrite IH2.
        -- cbn [authors self1]. apply dict_get_set_ne. intros ->. contradiction.
        -- cbn [processed_authors self1]. apply elem_of_union. now right.
      * intros tlg_id Hnot. cbn [find].
        case_bool_decide as Hid.
        -- subst tlg_id. exists author. rewrite IH2.
           ++ cbn [authors self1]. rewrite dict_get_set_eq.
              repeat split; reflexivity.
           ++ cbn [processed_authors self1]. apply elem_of_union. left.
              now apply elem_of_singleton.
        -- assert (Hnot1 : tlg_id ∉ processed_authors self1).
           { cbn [processed_authors self1]. rewrite elem_of_union, elem_of_singleton.
             intros [->|?]; contradiction. }
           specialize (IH3 tlg_id Hnot1).
           destruct (find (fun e => bool_decide (ie_tlg_id e = tlg_id)) entries);
             [exact IH3|].
           rewrite IH3. cbn [authors self1]. apply dict_get_set_ne. congruence.
      * intros Hall. apply IH4. cbn [authors self1].
        apply dict_values_set; [assumption|reflexivity].
Qed.

(** X24. [discover_all_authors] returns an empty dictionary, and leaves the
    discoverer as it was, when the index page cannot be fetched or is
    empty.  Otherwise it returns the discoverer's own dictionary of
    authors, in which: the authors that were already processed are left
    as they were, and their works are not probed again; every other
    identifier of the index has an author made from its first entry in
    the index, with the entry's name, description, location and period,
    and with the number of works discovered as [work_count] (the number
    given by the index is not used); afterwards every identifier of the
    index is processed.  If [work_count] was the number of works for
    every author before, it is so afterwards. *)
Theorem index_authors_are_discovered_once (self : discovery) (h : list event) :
  let fetched := TLGDiscovery_fetch_page INDEX_URL h in
  let out := discover_all_authors self h in
  let self' := snd (fst out) in
  (truthy_opt (fst fetched) = false -> out = ([], self, snd fetched))
  /\ (forall index_content,
        fst fetched = Some index_content -> index_content <> [] ->
        let entries := parse_index_page index_content in
        fst (fst out) = authors self'
        /\ (forall tlg_id,
              tlg_id ∈ processed_authors self'
              <-> tlg_id ∈ processed_authors self \/ In tlg_id (List.map ie_tlg_id entries))
        /\ (forall tlg_id, tlg_id ∈ processed_authors self ->
              dict_get tlg_id (authors self') = dict_get tlg_id (authors self))
        /\ (forall tlg_id, tlg_id ∉ processed_authors self ->
              match find (fun entry => bool_decide (ie_tlg_id entry = tlg_id)) entries with
              | Some entry =>
                  exists author,
                    dict_get tlg_id (authors self') = Some author
                    /\ a_tlg_id author = tlg_id
                    /\ a_name author = ie_name entry
                    /\ a_description author = ie_description entry
                    /\ a_location author = ie_location entry
                    /\ a_period author = ie_period entry
                    /\ counts_its_works author
                    /\ a_discovery_method author = py "index_crawl"
              | None => dict_get tlg_id (authors self') = dict_get tlg_id (authors self)
              end)
        /\ (Forall counts_its_works (dict_values (authors self)) ->
            Forall counts_its_works (dict_values (authors self')))).
Proof.
  cbv zeta. unfold discover_all_authors, bind.
  destruct (TLGDiscovery_fetch_page INDEX_URL h) as [index_content h1].
  cbn [fst snd]. split.
  - intros ->. reflexivity.
  - intros c -> Hne. cbn [truthy_opt default from_option id].
    apply truthy_true in Hne. rewrite Hne. cbn [negb].
    pose proof (discover_entries_spec (parse_index_page c) self h1) as Hs.
    cbv zeta in Hs.
    destruct (for_each (parse_index_page c) discover_entry self h1) as [self' h2].
    cbn [ret fst snd] in *. split; [reflexivity|exact Hs].
Qed.
End AllAuthors.

Lemma index_authors_are_discovered_once_witness :
  let out := @discover_all_authors sample_config absent_server two_authors
               fresh_discovery [] in
  fst (fst out) = [] /\ snd (fst out) = fresh_discovery.
Proof.
  intros out.
  pose proof (proj1 (@index_authors_are_discovered_once sample_config absent_server
                       two_authors fresh_discovery [])
                ltac:(vm_compute; reflexivity)) as E.
  cbv zeta in E. subst out. rewrite E. split; reflexivity.
Defined.

(** Both authors of the index are recorded, with the works discovered. *)
Example discover_all_authors_sample :
  let out := @discover_all_authors sample_config index_server two_authors
               fresh_discovery [] in
  List.map (fun entry => (fst entry, a_name (snd entry), a_work_count (snd entry),
                          List.map work_id (a_works (snd entry))))
           (fst (fst out))
  = [ (py "0012", py "HOMERUS", 2, [py "001"; py "002"]);
      (py "0020", py "HESIODUS", 0, []) ].
Proof. vm_compute. reflexivity. Qed.

(** *** [save_catalogue] *)

Lemma count_period_eq period_stats author :
  count_period period_stats author
  = <[period_label author := default 0 (period_stats !! period_label author) + 1]>
      period_stats.
Proof.
  unfold count_period. fold (period_label author). cbv zeta.
  case_bool_decide as Hdom; [|reflexivity].
  apply not_elem_of_dom in Hdom.
  now rewrite lookup_insert_eq, insert_insert_eq, Hdom.
Qed.

Lemma total_count_insert_new (counts : gmap pystr Z) label n :
  counts !! label = None -> total_count (<[label := n]> counts) = n + total_count counts.
Proof.
  intros Hnone. unfold total_count. apply map_fold_insert_L; [|assumption].
  intros. lia.
Qed.

Lemma total_count_delete (counts : gmap pystr Z) label n :
  counts !! label = Some n -> total_count counts = n + total_count (delete label counts).
Proof.
  intros Hsome. unfold total_count.
  apply (map_fold_delete_L (fun _ n total => n + total)); [|assumption].
  intros. lia.
Qed.

(** Counting an author adds one to the total of the statistics. *)
Lemma total_count_period period_stats author :
  total_count (count_period period_stats author) = total_count period_stats + 1.
Proof.
  rewrite count_period_eq.
  destruct (period_stats !! period_label author) as [n|] eqn:E; cbn [default from_option id].
  - rewrite <- insert_delete_eq, total_count_insert_new by apply lookup_delete_eq.
    rewrite (total_count_delete _ _ _ E). lia.
  - rewrite total_count_insert_new by assumption. lia.
Qed.

Lemma total_count_periods listed : forall period_stats,
  total_count (fold_left count_period listed period_stats)
  = total_count period_stats + len listed.
Proof.
  induction listed as [|author listed IH]; intros period_stats; cbn [fold_left].
  - unfold len. simpl. lia.
  - rewrite IH, total_count_period. unfold len. simpl length. lia.
Qed.

Lemma lookup_periods label listed : forall period_stats,
  fold_left count_period listed period_stats !! label
  = match period_stats !! label with
    | Some n => Some (n + labelled label listed)
    | None => if labelled label listed =? 0 then None else Some (labelled label listed)
    end.
Proof.
  unfold labelled.
  induction listed as [|author listed IH]; intros period_stats; cbn [fold_left List.filter].
  - change (len []) with 0. destruct (period_stats !! label); [f_equal; lia|reflexivity].
  - rewrite IH, count_period_eq.
    pose proof (len_nonneg (List.filter (fun a => bool_decide (period_label a = label))
                              listed)) as Hnn.
    case_bool_decide as Hl.
    + rewrite Hl, lookup_insert_eq.
      replace (len (author :: List.filter (fun a => bool_decide (period_label a = label))
                                 listed))
        with (1 + len (List.filter (fun a => bool_decide (period_label a = label)) listed))
        by (unfold len; simpl length; lia).
      destruct (period_stats !! label) as [n|]; cbn [default from_option id].
      * f_equal. lia.
      * destruct (Z.eqb_spec (1 + len (List.filter
                                         (fun a => bool_decide (period_label a = label))
                                         listed)) 0); [lia|f_equal; lia].
    + rewrite lookup_insert_ne by assumption. reflexivity.
Qed.

(** *** A stable insertion sort *)

Lemma insert_by_Permutation {A} (key : A -> Z) x l : insert_by key x l ≡ₚ x :: l.
Proof.
  induction l as [|y l IH]; simpl; [reflexivity|].
  destruct (key x <=? key y); [reflexivity|].
  rewrite IH. apply Permutation_swap.
Qed.

Lemma sorted_by_Permutation {A} (key : A -> Z) l : sorted_by key l ≡ₚ l.
Proof.
  unfold sorted_by. induction l as [|x l IH]; simpl; [reflexivity|].
  rewrite insert_by_Permutation. now constructor.
Qed.

Lemma insert_by_sorted {A} (key : A -> Z) x l :
  StronglySorted (fun a b => key a <= key b) l ->
  StronglySorted (fun a b => key a <= key b) (insert_by key x l).
Proof.
  induction 1 as [|y l Hs IH Hall]; simpl; [repeat constructor|].
  destruct (Z.leb_spec (key x) (key y)) as [Hle|Hgt].
  - constructor; [now constructor|].
    constructor; [assumption|]. eapply Forall_impl; [exact Hall|].
    intros z Hz. simpl in Hz. lia.
  - constructor; [assumption|].
    rewrite insert_by_Permutation. constructor; [lia|assumption].
Qed.

Lemma sorted_by_sorted {A} (key : A -> Z) l :
  StronglySorted (fun a b => key a <= key b) (sorted_by key l).
Proof.
  unfold sorted_by. induction l as [|x l IH]; simpl; [constructor|].
  now apply insert_by_sorted.
Qed.

Lemma StronglySorted_map {A B} (R : A -> A -> Prop) (R' : B -> B -> Prop)
    (Q : A -> Prop) (f : A -> B) l :
  (forall p q, Q p -> Q q -> R p q -> R' (f p) (f q)) ->
  Forall Q l -> StronglySorted R l -> StronglySorted R' (List.map f l).
Proof.
  intros Hf Hq Hs. induction Hs as [|x l Hs IH Hall]; simpl; [constructor|].
  inversion Hq as [|? ? Hx Hl]; subst.
  constructor; [now apply IH|].
  rewrite Forall_forall in Hall, Hl. apply Forall_forall. intros y Hy.
  apply list_elem_of_In, in_map_iff in Hy as (z & <- & Hz).
  apply list_elem_of_In in Hz. apply Hf; auto.
Qed.

Section Catalogue.
Context `{Builtins}.

(** X25. [save_catalogue] raises exactly when the identifier of some author
    is not a number for [int].  Otherwise the statistics add up: the
    period statistics count every author once, under its period or under
    ["Unknown"] when the period is empty, so that they sum to
    [total_authors]; [total_works] is the number of works listed, which is
    the sum of the [work_count]s when each author counts its works; and
    the authors are those of the discoverer, each once, in the order of
    the numbers that their identifiers spell. *)
Theorem catalogue_statistics_add_up (now : pystr) (self : discovery) :
  let listed := dict_values (authors self) in
  (save_catalogue now self = None
   <-> exists author, In author listed /\ py_int (a_tlg_id author) = None)
  /\ forall written, save_catalogue now self = Some written ->
       catalogue_total_authors written = len listed
       /\ total_count (catalogue_period_statistics written)
          = catalogue_total_authors written
       /\ (forall label,
             catalogue_period_statistics written !! label
             = if labelled label listed =? 0 then None else Some (labelled label listed))
       /\ catalogue_total_works written
          = sum_of (List.map (fun author => len (a_works author)) listed)
       /\ (Forall counts_its_works listed ->
           catalogue_total_works written = sum_of (List.map a_work_count listed))
       /\ catalogue_authors written ≡ₚ listed
       /\ StronglySorted numbered_before (catalogue_authors written).
Proof.
  cbv zeta. unfold save_catalogue. cbv zeta.
  set (listed := dict_values (authors self)).
  destruct (mapM (fun author => py_int (a_tlg_id author)) listed) as [keys|] eqn:Ek;
    cbn [mbind option_bind].
  - split.
    { split; [discriminate|]. intros (author & Hin & Hnone).
      apply mapM_Some in Ek. apply list_elem_of_In, list_elem_of_lookup in Hin as [i Hi].
      destruct (Forall2_lookup_l _ _ _ _ _ Ek Hi) as (k & _ & Hk). congruence. }
    intros written [= <-].
    cbn [catalogue_total_authors catalogue_period_statistics catalogue_total_works
         catalogue_authors].
    apply mapM_Some in Ek.
    assert (Hlen : length listed = length keys) by (eapply Forall2_length; eassumption).
    split; [unfold listed, dict_values, len; now rewrite length_map|].
    split.
    { rewrite total_count_periods. unfold total_count. rewrite map_fold_empty.
      unfold listed, dict_values, len. rewrite length_map. lia. }
    split; [intros label; now rewrite lookup_periods, lookup_empty|].
    split; [reflexivity|].
    split.
    { intros Hall. f_equal. apply map_ext_in. intros author Hin.
      rewrite Forall_forall in Hall. symmetry. now apply Hall, list_elem_of_In. }
    split.
    { rewrite sorted_by_Permutation.
      change (List.map snd (zip keys listed)) with ((zip keys listed).*2).
      rewrite snd_zip by lia. reflexivity. }
    apply (StronglySorted_map (fun p q : Z * TLGAuthor => fst p <= fst q) numbered_before
             (fun p => py_int (a_tlg_id (snd p)) = Some (fst p))).
    + intros p q Hp Hq Hle. exists (fst p), (fst q). auto.
    + rewrite sorted_by_Permutation. apply Forall_forall. intros [k author] Hin.
      apply list_elem_of_lookup in Hin as [i Hi].
      apply lookup_zip_with_Some in Hi as (k' & author' & [= <- <-] & Hk & Ha).
      destruct (Forall2_lookup_l _ _ _ _ _ Ek Ha) as (k'' & Hk'' & E).
      cbn [fst snd]. congruence.
    + apply sorted_by_sorted.
  - split; [|discriminate]. split; [intros _|reflexivity].
    apply mapM_None in Ek. apply Exists_exists in Ek as (author & Hin & Hnone).
    exists author. split; [now apply list_elem_of_In|assumption].
Qed.
End Catalogue.

Lemma catalogue_statistics_add_up_witness :
  exists written,
    @save_catalogue decimal_int [] two_recorded = Some written
    /\ total_count (catalogue_period_statistics written) = 2
    /\ List.map a_name (catalogue_authors written) = [py "HOMERUS"; py "HESIODUS"].
Proof.
  destruct (@save_catalogue decimal_int [] two_recorded) as [written|] eqn:E.
  - exists written. split; [reflexivity|].
    destruct (proj2 (@catalogue_statistics_add_up decimal_int [] two_recorded) written E)
      as (Ha & Ht & _).
    split; [rewrite Ht, Ha; reflexivity|].
    vm_compute in E. injection E as <-. reflexivity.
  - vm_compute in E. discriminate E.
Defined.
